(** * Specification builder: synthesis engine and session manager

    A shallow embedding of the two services at the core of the repository,
    of the client store and of the client configuration:

    - [PRDEngine] (prd-engine): turns the text returned by the language-model
      gateway into a [PRDEngineOutput];
    - [SessionManager] (session-manager, Postgres implementation): session
      lifecycle, incremental persistence, magic links, error recovery and
      the offline queue;
    - [SessionStore] (session-store): the state the browser keeps, and the
      actions that change it;
    - [AwsConfig] (aws config): the client configuration read from the
      environment.

    JavaScript strings are sequences of UTF-16 code units, JSON values are
    the trees [JSON.parse] builds, asynchronous calls that may reject are
    computations returning an [outcome], and the Postgres tables are lists
    of rows in insertion order. *)

From Stdlib Require Import NArith ZArith QArith Ascii String List Bool Lia.
From Stdlib Require Import Sorted Permutation.
From stdpp Require Import base decidable option list gmap.
Import ListNotations.

#[local] Set Warnings "-register-all".
#[local] Open Scope N_scope.
#[local] Open Scope list_scope.

(* ===================================================================== *)
(** * JavaScript strings *)
(* ===================================================================== *)

Module JS.

(** A JavaScript string is a finite sequence of 16-bit code units. *)
Abbreviation jsstring := (list N) (only parsing).

(** ASCII literal to code units, used to write the constants of the source. *)
Definition u16 (s : string) : jsstring :=
  List.map N_of_ascii (list_ascii_of_string s).
Arguments u16 : simpl never.

(** The same, with every apostrophe of the literal standing for a double
    quote: a writing aid for JSON texts in examples. *)
Definition jtext (s : string) : jsstring :=
  List.map (fun c => if c =? 39 then 34 else c) (u16 s).

(** [WhiteSpace] and [LineTerminator] of ECMAScript: what [String.prototype.trim]
    removes and what the regular-expression class [\s] matches. *)
Definition is_js_space (c : N) : bool :=
  (c =? 0x09) || (c =? 0x0A) || (c =? 0x0B) || (c =? 0x0C) || (c =? 0x0D)
  || (c =? 0x20) || (c =? 0xA0) || (c =? 0x1680)
  || ((0x2000 <=? c) && (c <=? 0x200A))
  || (c =? 0x2028) || (c =? 0x2029) || (c =? 0x202F) || (c =? 0x205F)
  || (c =? 0x3000) || (c =? 0xFEFF).

Fixpoint trim_start (s : jsstring) : jsstring :=
  match s with
  | c :: s' => if is_js_space c then trim_start s' else s
  | [] => []
  end.

Definition trim_end (s : jsstring) : jsstring :=
  rev (trim_start (rev s)).

(** [s.trim()] *)
Definition trim (s : jsstring) : jsstring := trim_end (trim_start s).

(** [s.startsWith(p)] *)
Fixpoint starts_with (p s : jsstring) : bool :=
  match p, s with
  | [], _ => true
  | a :: p', b :: s' => (a =? b) && starts_with p' s'
  | _ :: _, [] => false
  end.

(** Three backticks. *)
Definition fence : jsstring := [96; 96; 96].

(** [s.replace(/^```(?:json)?\s*/, '')]: at the start of the string only, the
    fence, then the tag [json] when it is there, then every white space. *)
Definition strip_opening_fence (s : jsstring) : jsstring :=
  if starts_with fence s then
    let r := skipn 3 s in
    let r := if starts_with (u16 "json") r then skipn 4 r else r in
    trim_start r
  else s.

(** [s.replace(/```\s*$/, '')]: the leftmost fence that only white space
    separates from the end of the string is removed with that white space;
    without such a fence the string is unchanged. *)
Fixpoint strip_closing_fence (s : jsstring) : jsstring :=
  match s with
  | [] => []
  | c :: s' =>
      if starts_with fence s && forallb is_js_space (skipn 3 s) then []
      else c :: strip_closing_fence s'
  end.

(* --------------------------------------------------------------------- *)
(** ** JSON values and [JSON.parse] *)
(* --------------------------------------------------------------------- *)

(** The values [JSON.parse] builds. A number keeps its source text (the
    double it denotes is a function of it); an object keeps its members in
    source order, later duplicates of a key shadowing earlier ones. *)
Inductive json : Type :=
| JNull
| JBool (b : bool)
| JNum (lexeme : jsstring)
| JStr (s : jsstring)
| JArr (items : list json)
| JObj (members : list (jsstring * json)).

Inductive token : Type :=
| TLBrace | TRBrace | TLBracket | TRBracket | TColon | TComma
| TString (s : jsstring)
| TNumber (lexeme : jsstring)
| TTrue | TFalse | TNull.

(** JSON white space: tab, line feed, carriage return, space. *)
Definition is_json_ws (c : N) : bool :=
  (c =? 9) || (c =? 10) || (c =? 13) || (c =? 32).

Definition is_digit (c : N) : bool := (48 <=? c) && (c <=? 57).

Definition hex_value (c : N) : option N :=
  if (48 <=? c) && (c <=? 57) then Some (c - 48)
  else if (65 <=? c) && (c <=? 70) then Some (c - 55)
  else if (97 <=? c) && (c <=? 102) then Some (c - 87)
  else None.

(** Where the scanner is inside a number: an optional minus sign; an integer
    part that is a single zero or starts with a digit from 1 to 9; an
    optional fraction, a dot and at least one digit; an optional exponent,
    e or E, an optional sign and at least one digit. *)
Inductive num_phase : Type :=
| NMinus | NZero | NInt | NDot | NFrac | NExp | NExpSign | NExpDigits.

Definition num_accepting (ph : num_phase) : bool :=
  match ph with
  | NZero | NInt | NFrac | NExpDigits => true
  | NMinus | NDot | NExp | NExpSign => false
  end.

Inductive lex_state : Type :=
| LStart
| LString (acc : jsstring)                       (* inside a string, reversed *)
| LEscape (acc : jsstring)                       (* just after a backslash *)
| LHex (acc : jsstring) (todo : nat) (v : N)     (* inside a \u escape *)
| LKeyword (expect : jsstring) (tok : token)     (* inside true/false/null *)
| LNumber (ph : num_phase) (acc : jsstring).     (* inside a number, reversed *)

(** One character read between tokens. *)
Definition lex_start (c : N) : option (list token * lex_state) :=
  if is_json_ws c then Some ([], LStart)
  else if c =? 123 then Some ([TLBrace], LStart)
  else if c =? 125 then Some ([TRBrace], LStart)
  else if c =? 91 then Some ([TLBracket], LStart)
  else if c =? 93 then Some ([TRBracket], LStart)
  else if c =? 58 then Some ([TColon], LStart)
  else if c =? 44 then Some ([TComma], LStart)
  else if c =? 34 then Some ([], LString [])
  else if c =? 45 then Some ([], LNumber NMinus [c])
  else if c =? 48 then Some ([], LNumber NZero [c])
  else if is_digit c then Some ([], LNumber NInt [c])
  else if c =? 116 then Some ([], LKeyword (u16 "rue") TTrue)
  else if c =? 102 then Some ([], LKeyword (u16 "alse") TFalse)
  else if c =? 110 then Some ([], LKeyword (u16 "ull") TNull)
  else None.

(** The character after a backslash. *)
Definition lex_escape (acc : jsstring) (c : N) : option (list token * lex_state) :=
  if c =? 34 then Some ([], LString (34 :: acc))
  else if c =? 92 then Some ([], LString (92 :: acc))
  else if c =? 47 then Some ([], LString (47 :: acc))
  else if c =? 98 then Some ([], LString (8 :: acc))
  else if c =? 102 then Some ([], LString (12 :: acc))
  else if c =? 110 then Some ([], LString (10 :: acc))
  else if c =? 114 then Some ([], LString (13 :: acc))
  else if c =? 116 then Some ([], LString (9 :: acc))
  else if c =? 117 then Some ([], LHex acc 4 0)
  else None.

(** A number is over at [c]: it is emitted when complete, and [c] is read
    as the start of what follows. *)
Definition lex_number_end (ph : num_phase) (acc : jsstring) (c : N)
  : option (list token * lex_state) :=
  if num_accepting ph then
    match lex_start c with
    | Some (ts, st) => Some (TNumber (rev acc) :: ts, st)
    | None => None
    end
  else None.

Definition is_exp_mark (c : N) : bool := (c =? 101) || (c =? 69).
Definition is_sign (c : N) : bool := (c =? 43) || (c =? 45).

Definition lex_number (ph : num_phase) (acc : jsstring) (c : N)
  : option (list token * lex_state) :=
  match ph with
  | NMinus =>
      if c =? 48 then Some ([], LNumber NZero (c :: acc))
      else if is_digit c then Some ([], LNumber NInt (c :: acc))
      else None
  | NZero =>
      if c =? 46 then Some ([], LNumber NDot (c :: acc))
      else if is_exp_mark c then Some ([], LNumber NExp (c :: acc))
      else lex_number_end ph acc c
  | NInt =>
      if is_digit c then Some ([], LNumber NInt (c :: acc))
      else if c =? 46 then Some ([], LNumber NDot (c :: acc))
      else if is_exp_mark c then Some ([], LNumber NExp (c :: acc))
      else lex_number_end ph acc c
  | NDot =>
      if is_digit c then Some ([], LNumber NFrac (c :: acc)) else None
  | NFrac =>
      if is_digit c then Some ([], LNumber NFrac (c :: acc))
      else if is_exp_mark c then Some ([], LNumber NExp (c :: acc))
      else lex_number_end ph acc c
  | NExp =>
      if is_sign c then Some ([], LNumber NExpSign (c :: acc))
      else if is_digit c then Some ([], LNumber NExpDigits (c :: acc))
      else None
  | NExpSign =>
      if is_digit c then Some ([], LNumber NExpDigits (c :: acc)) else None
  | NExpDigits =>
      if is_digit c then Some ([], LNumber NExpDigits (c :: acc))
      else lex_number_end ph acc c
  end.

(** One step of the scanner: the tokens completed by [c] and the next state,
    or [None] at a character the JSON grammar does not allow there. *)
Definition lex_step (st : lex_state) (c : N) : option (list token * lex_state) :=
  match st with
  | LStart => lex_start c
  | LString acc =>
      if c =? 34 then Some ([TString (rev acc)], LStart)
      else if c =? 92 then Some ([], LEscape acc)
      else if c <? 32 then None
      else Some ([], LString (c :: acc))
  | LEscape acc => lex_escape acc c
  | LHex acc todo v =>
      match hex_value c with
      | Some d =>
          match todo with
          | S O => Some ([], LString ((16 * v + d) :: acc))
          | S todo' => Some ([], LHex acc todo' (16 * v + d))
          | O => None
          end
      | None => None
      end
  | LKeyword expect tok =>
      match expect with
      | e :: [] => if c =? e then Some ([tok], LStart) else None
      | e :: rest => if c =? e then Some ([], LKeyword rest tok) else None
      | [] => None
      end
  | LNumber ph acc => lex_number ph acc c
  end.

(** End of input: fine between tokens and at the end of a complete number. *)
Definition lex_finish (st : lex_state) : option (list token) :=
  match st with
  | LStart => Some []
  | LNumber ph acc => if num_accepting ph then Some [TNumber (rev acc)] else None
  | _ => None
  end.

Fixpoint lex_from (st : lex_state) (s : jsstring) : option (list token) :=
  match s with
  | [] => lex_finish st
  | c :: s' =>
      match lex_step st c with
      | Some (ts, st') =>
          match lex_from st' s' with
          | Some out => Some (ts ++ out)
          | None => None
          end
      | None => None
      end
  end.

Definition lex (s : jsstring) : option (list token) := lex_from LStart s.

(** The scanner only ever waits for the rest of [true], [false] or [null]:
    the characters a keyword state expects are never white space. *)
Definition keyword_state_ok (st : lex_state) : bool :=
  match st with
  | LKeyword expect _ => forallb (fun c => negb (is_js_space c)) expect
  | _ => true
  end.

(** Inside a keyword the scanner only ever waits for small letters. *)
Definition keyword_state_letters (st : lex_state) : bool :=
  match st with
  | LKeyword expect _ => forallb (fun c => (97 <=? c) && (c <=? 122)) expect
  | _ => true
  end.

(** Recursive descent over the tokens. [PFuel] tells a syntax error from a
    recursion budget that was too small; [parse_never_out_of_fuel] shows the
    budget [JSON_parse] gives is always enough. *)
Inductive presult (A : Type) : Type :=
| POk (a : A)
| PSyntaxError
| PFuel.
Arguments POk {A} a.
Arguments PSyntaxError {A}.
Arguments PFuel {A}.

Fixpoint parse_value (fuel : nat) (ts : list token) : presult (json * list token) :=
  match fuel with
  | O => PFuel
  | S n =>
      match ts with
      | TNull :: r => POk (JNull, r)
      | TTrue :: r => POk (JBool true, r)
      | TFalse :: r => POk (JBool false, r)
      | TNumber l :: r => POk (JNum l, r)
      | TString s :: r => POk (JStr s, r)
      | TLBracket :: TRBracket :: r => POk (JArr [], r)
      | TLBracket :: r => parse_elements n r []
      | TLBrace :: TRBrace :: r => POk (JObj [], r)
      | TLBrace :: r => parse_members n r []
      | _ => PSyntaxError
      end
  end
with parse_elements (fuel : nat) (ts : list token) (acc : list json)
  : presult (json * list token) :=
  match fuel with
  | O => PFuel
  | S n =>
      match parse_value n ts with
      | POk (v, TComma :: r) => parse_elements n r (v :: acc)
      | POk (v, TRBracket :: r) => POk (JArr (rev (v :: acc)), r)
      | POk _ => PSyntaxError
      | PSyntaxError => PSyntaxError
      | PFuel => PFuel
      end
  end
with parse_members (fuel : nat) (ts : list token) (acc : list (jsstring * json))
  : presult (json * list token) :=
  match fuel with
  | O => PFuel
  | S n =>
      match ts with
      | TString k :: TColon :: r =>
          match parse_value n r with
          | POk (v, TComma :: r') => parse_members n r' ((k, v) :: acc)
          | POk (v, TRBrace :: r') => POk (JObj (rev ((k, v) :: acc)), r')
          | POk _ => PSyntaxError
          | PSyntaxError => PSyntaxError
          | PFuel => PFuel
          end
      | _ => PSyntaxError
      end
  end.

Definition parse_budget (ts : list token) : nat := 2 * length ts + 1.

(** [JSON.parse(text)]: the value, or [None] where JavaScript raises a
    [SyntaxError]. *)
Definition JSON_parse (s : jsstring) : option json :=
  match lex s with
  | Some ts =>
      match parse_value (parse_budget ts) ts with
      | POk (v, []) => Some v
      | _ => None
      end
  | None => None
  end.

End JS.


(* ===================================================================== *)
(** * Exceptions, dynamic values and the data model *)
(* ===================================================================== *)

Module Model.
Import JS.

(** What a [throw] or a rejected promise carries. *)
Inductive js_error : Type :=
| SyntaxError                          (* raised by JSON.parse *)
| TypeError                            (* property read on null, call of a non-function *)
| Error (message : jsstring)           (* new Error(message) *)
| GatewayError (detail : jsstring)     (* rejection of the language-model gateway *)
| StoreError (detail : jsstring).      (* rejection of a sql call *)

(** Result of a call that either returns or throws; an awaited promise that
    resolves or rejects. *)
Inductive outcome (A : Type) : Type :=
| Return (a : A)
| Throw (e : js_error).
Arguments Return {A} a.
Arguments Throw {A} e.

#[global] Instance outcome_ret : MRet outcome := fun A a => Return a.
#[global] Instance outcome_bind : MBind outcome := fun A B f m =>
  match m with
  | Return a => f a
  | Throw e => Throw e
  end.

(** [try { body } catch (error) { handler }] *)
Definition try_catch {A} (body : outcome A) (handler : js_error -> outcome A)
  : outcome A :=
  match body with
  | Return a => Return a
  | Throw e => handler e
  end.

(** A value read from a parsed document: a JSON value, or [undefined]. *)
Inductive jsval : Type :=
| JSUndefined
| JSValue (v : json).

(** Own property [key] of an object built by [JSON.parse]: the last member
    with that key. *)
Fixpoint lookup_member (key : jsstring) (members : list (jsstring * json))
  : option json :=
  match members with
  | [] => None
  | (k, v) :: rest =>
      match lookup_member key rest with
      | Some later => Some later
      | None => if bool_decide (k = key) then Some v else None
      end
  end.

(** [v.key] for a parsed value [v] and a name [key] that no built-in
    prototype defines and that is neither an index nor [length] (the engine
    reads [spec] and [missingSections] only): a [TypeError] on [null],
    [undefined] on the other primitives, on arrays and on objects without
    the member. *)
Definition get_property (v : json) (key : jsstring) : outcome jsval :=
  match v with
  | JNull => Throw TypeError
  | JObj members =>
      match lookup_member key members with
      | Some x => Return (JSValue x)
      | None => Return JSUndefined
      end
  | _ => Return JSUndefined
  end.

(** Whether [ToString(v)] raises: an object is converted by its [toString],
    which is no function when the document supplied a member of that name
    (then [valueOf] cannot produce a primitive either); an array is
    converted by joining its items. *)
Fixpoint to_string_throws (v : json) : bool :=
  match v with
  | JObj members =>
      match lookup_member (u16 "toString") members with
      | Some _ => true
      | None => false
      end
  | JArr items => existsb to_string_throws items
  | _ => false
  end.

Inductive Role : Type := user | assistant | system.

(** [role.toUpperCase()] *)
Definition toUpperCase (r : Role) : jsstring :=
  match r with
  | user => u16 "USER"
  | assistant => u16 "ASSISTANT"
  | system => u16 "SYSTEM"
  end.

(** A message as the session manager handles it: [timestamp] is a [Date]
    (written with [toISOString], read back with [new Date]), here the
    instant in milliseconds since the epoch; [metadata] may be absent. *)
Record Message : Type := {
  msg_id : jsstring;
  role : Role;
  content : jsstring;
  timestamp : Z;
  metadata : option json;
}.

(** [plainEnglishSummary] and [formalPRD] are kept as the objects they are
    at run time: the session manager builds them as literals and reads them
    back from JSON columns, the engine takes them from [JSON.parse]. *)
Record Specification : Type := {
  spec_id : jsstring;
  version : Z;
  plainEnglishSummary : json;
  formalPRD : json;
  lastUpdated : Z;
}.

End Model.

(* ===================================================================== *)
(** * PRD engine *)
(* ===================================================================== *)

Module PRDEngine.
Import JS Model.

Inductive PRDEngineInput : Type :=
| update (currentSpec : Specification) (lastMessages : list Message)
         (isFirstRun : bool)
| finalize (currentSpec : Specification).

Definition currentSpec (input : PRDEngineInput) : Specification :=
  match input with
  | update s _ _ => s
  | finalize s => s
  end.

(** The [spec] of an output is either the very object passed in as
    [input.currentSpec], or whatever [result.spec] was in the parsed
    response ([undefined] included): the engine does not look into it. *)
Inductive returned_spec : Type :=
| Unchanged (s : Specification)
| FromModel (v : jsval).

Record PRDEngineOutput : Type := {
  spec : returned_spec;
  missingSections : list json;
}.

(** The two prompt templates, as the values that fill their holes: the
    summary that [JSON.stringify(..., null, 2)] prints and, for an update,
    the text of the new messages. The fixed wording around the holes is not
    part of the model. *)
Inductive prompt : Type :=
| UpdatePrompt (specSummary : json) (messagesText : jsstring)
| FinalizePrompt (specSummary : json).

Record CompletionRequest : Type := {
  messages : list (Role * prompt);
  temperature : Q;
  maxTokens : Z;
}.

Record CompletionResponse : Type := { response_content : jsstring }.

(** The language-model gateway (llm-router is not among the sources, and
    [synthesize] takes it as a parameter): one awaited call, which resolves
    with a text or rejects. *)
Record LLMRouter : Type := {
  complete : CompletionRequest -> outcome CompletionResponse;
}.

(** [parts.join(sep)] *)
Fixpoint join (sep : jsstring) (parts : list jsstring) : jsstring :=
  match parts with
  | [] => []
  | [p] => p
  | p :: rest => p ++ sep ++ join sep rest
  end.

Definition buildUpdatePrompt (s : Specification) (lastMessages : list Message)
  : prompt :=
  let messagesText :=
    join [10; 10]
      (List.map (fun m => toUpperCase (role m) ++ u16 ": " ++ content m)
         lastMessages) in
  UpdatePrompt (plainEnglishSummary s) messagesText.

Definition buildFinalizePrompt (s : Specification) : prompt :=
  FinalizePrompt (plainEnglishSummary s).

Definition buildPrompt (input : PRDEngineInput) : prompt :=
  match input with
  | update s lastMessages _ => buildUpdatePrompt s lastMessages
  | finalize s => buildFinalizePrompt s
  end.

Definition request_of (input : PRDEngineInput) : CompletionRequest :=
  {| messages := [(user, buildPrompt input)];
     temperature := 3 # 10;
     maxTokens := 4000 |}.

(** The text handed to [JSON.parse]: the response trimmed and, when it then
    starts with a fence, without its opening and closing fences. *)
Definition strip_fences (text : jsstring) : jsstring :=
  let jsonContent := trim text in
  if starts_with fence jsonContent
  then strip_closing_fence (strip_opening_fence jsonContent)
  else jsonContent.

Definition JSON_parse_or_throw (text : jsstring) : outcome json :=
  match JSON_parse text with
  | Some v => Return v
  | None => Throw SyntaxError
  end.

(** What becomes of [result.missingSections]. The log line first evaluates
    [result.missingSections?.join(', ')]: nothing happens on [undefined] and
    [null]; any other value that is no array has no [join] to call; an array
    is joined, which converts each item to a string. The value returned is
    then [result.missingSections || []]. *)
Definition missing_sections_of (missing : jsval) : outcome (list json) :=
  match missing with
  | JSUndefined => Return []
  | JSValue JNull => Return []
  | JSValue (JArr items) =>
      if existsb to_string_throws items then Throw TypeError else Return items
  | JSValue _ => Throw TypeError
  end.

Definition default_missing : list json :=
  [JStr (u16 "overview"); JStr (u16 "targetUsers");
   JStr (u16 "keyFeatures"); JStr (u16 "flows")].

(** The [catch] branch. *)
Definition fallback (input : PRDEngineInput) : PRDEngineOutput :=
  {| spec := Unchanged (currentSpec input);
     missingSections := default_missing |}.

Definition synthesize (llmRouter : LLMRouter) (input : PRDEngineInput)
  : outcome PRDEngineOutput :=
  let request := request_of input in
  try_catch
    (response ← complete llmRouter request;
     let jsonContent := strip_fences (response_content response) in
     result ← JSON_parse_or_throw jsonContent;
     missing ← get_property result (u16 "missingSections");
     sections ← missing_sections_of missing;
     spec_value ← get_property result (u16 "spec");
     mret {| spec := FromModel spec_value; missingSections := sections |})
    (fun _ => Return (fallback input)).

(** A payload between code fences: the opening fence, with the tag [json]
    or without a tag, and the closing fence, with white space around. *)
Definition wrap_in_fences (pre : jsstring) (tagged : bool) (sep1 payload sep2 post : jsstring)
  : jsstring :=
  pre ++ fence ++ (if tagged then u16 "json" else []) ++ sep1
      ++ payload ++ sep2 ++ fence ++ post.

(** The response is a JSON text whose [missingSections] is absent, [null]
    or an empty array. *)
Definition reports_nothing_missing (text : jsstring) : bool :=
  match JSON_parse (strip_fences text) with
  | Some v =>
      match get_property v (u16 "missingSections") with
      | Return JSUndefined => true
      | Return (JSValue JNull) => true
      | Return (JSValue (JArr [])) => true
      | _ => false
      end
  | None => false
  end.

(** A gateway that answers every request with the same text, and one that
    rejects every request. *)
Definition answering (text : jsstring) : LLMRouter :=
  {| complete := fun _ => Return {| response_content := text |} |}.

Definition rejecting (e : js_error) : LLMRouter :=
  {| complete := fun _ => Throw e |}.

End PRDEngine.

(* ===================================================================== *)
(** * Session manager *)
(* ===================================================================== *)

Module SessionManager.
Import JS Model.

#[local] Open Scope Z_scope.

(** ** The store *)

Inductive Status : Type := active | abandoned.

(** Rows have the columns the statements of the session manager name.
    Timestamps are instants; a JSON column holds the value that was
    serialised into it. *)

Record session_row : Type := {
  id : jsstring;
  created_at : Z;
  last_accessed_at : Z;
  magic_link_token : option jsstring;
  status : Status;
}.

Record message_row : Type := {
  message_id : jsstring;
  message_session_id : jsstring;
  message_role : Role;
  message_content : jsstring;
  message_timestamp : Z;
  message_metadata : option json;
}.

Record specification_row : Type := {
  specification_id : jsstring;
  session_id : jsstring;
  row_version : Z;
  plain_english_summary : json;
  formal_prd : json;
  progress_state : json;
  row_created_at : Z;
  updated_at : Z;
}.

(** Modelled from the spec: the schema (lib/db/schema.sql) is not among the
    sources. The three tables the session manager uses are lists of rows in
    insertion order, without uniqueness or foreign-key constraints: section
    5 of the specification has two snapshots of one version as a possible
    outcome of concurrent saves. *)
Record database : Type := {
  sessions : list session_row;
  messages : list message_row;
  specifications : list specification_row;
}.

(** Stable insertion sort, for [ORDER BY]. Rows with equal keys stay in
    insertion order here; Postgres promises nothing for them, and no theorem
    below depends on their order. *)
Section OrderBy.
Context {A : Type} (before : A -> A -> bool).

Fixpoint insert_sorted (x : A) (l : list A) : list A :=
  match l with
  | [] => [x]
  | y :: l' => if before x y then x :: l else y :: insert_sorted x l'
  end.

Fixpoint order_by (l : list A) : list A :=
  match l with
  | [] => []
  | x :: l' => insert_sorted x (order_by l')
  end.
End OrderBy.

(** ** The world the service runs in *)

(** What the methods read and change besides their arguments: the tables;
    for each [sql] call to come, whether the store will fail on it
    ([Some e], and when the list is used up nothing fails any more); the
    values [uuidv4] is going to draw; the time; and [localStorage], when
    there is a [window]. An item of [localStorage] under an
    [offline_messages_] key is represented by the message list whose JSON
    text it holds: [JSON.stringify] writes it, [JSON.parse] and the revival
    of each [timestamp] read it back. *)
Record world : Type := {
  db : database;
  sql_faults : list (option js_error);   (* fate of the coming sql calls *)
  uuid_stream : nat -> jsstring;         (* what uuidv4() will return *)
  uuid_drawn : nat;
  clock : Z;
  window : option (gmap jsstring (list Message));  (* None: no window *)
}.

Definition with_db (w : world) (d : database) : world :=
  {| db := d; sql_faults := sql_faults w; uuid_stream := uuid_stream w;
     uuid_drawn := uuid_drawn w; clock := clock w; window := window w |}.

Definition with_sql_faults (w : world) (fs : list (option js_error)) : world :=
  {| db := db w; sql_faults := fs; uuid_stream := uuid_stream w;
     uuid_drawn := uuid_drawn w; clock := clock w; window := window w |}.

Definition with_window (w : world) (win : option (gmap jsstring (list Message)))
  : world :=
  {| db := db w; sql_faults := sql_faults w; uuid_stream := uuid_stream w;
     uuid_drawn := uuid_drawn w; clock := clock w; window := win |}.

(** An asynchronous method: it runs in a world, changes it, and resolves or
    rejects. What was written before a rejection stays written. *)
Definition M (A : Type) : Type := world -> outcome A * world.

#[global] Instance M_ret : MRet M := fun A a w => (Return a, w).
#[global] Instance M_bind : MBind M := fun A B f m w =>
  match m w with
  | (Return a, w') => f a w'
  | (Throw e, w') => (Throw e, w')
  end.

Definition throw {A} (e : js_error) : M A := fun w => (Throw e, w).

Definition try_catchM {A} (body : M A) (handler : js_error -> M A) : M A :=
  fun w =>
    match body w with
    | (Return a, w') => (Return a, w')
    | (Throw e, w') => handler e w'
    end.

(** [uuidv4()] *)
Definition uuidv4 : M jsstring := fun w =>
  (Return (uuid_stream w (uuid_drawn w)),
   {| db := db w; sql_faults := sql_faults w; uuid_stream := uuid_stream w;
      uuid_drawn := S (uuid_drawn w); clock := clock w; window := window w |}).

(** [new Date()] and SQL [NOW()]: the time is read, and time passes. *)
Definition now : M Z := fun w =>
  (Return (clock w),
   {| db := db w; sql_faults := sql_faults w; uuid_stream := uuid_stream w;
      uuid_drawn := uuid_drawn w; clock := clock w + 1; window := window w |}).

(** One awaited [sql] statement: it rejects when the store fails at this
    call, and otherwise runs against the tables. *)
Definition sql {A} (statement : database -> A * database) : M A := fun w =>
  match sql_faults w with
  | Some e :: rest => (Throw e, with_sql_faults w rest)
  | None :: rest =>
      let (a, d) := statement (db w) in
      (Return a, with_db (with_sql_faults w rest) d)
  | [] =>
      let (a, d) := statement (db w) in (Return a, with_db w d)
  end.

Definition query {A} (q : database -> A) : M A := sql (fun d => (q d, d)).
Definition exec (u : database -> database) : M unit := sql (fun d => (tt, u d)).

(** [for (const x of l) { await body(x) }] *)
Fixpoint for_each {A} (l : list A) (body : A -> M unit) : M unit :=
  match l with
  | [] => mret tt
  | x :: l' => body x ≫= fun _ => for_each l' body
  end.

(** ** The statements *)

Definition insert_session (r : session_row) (d : database) : database :=
  {| sessions := sessions d ++ [r]; messages := messages d;
     specifications := specifications d |}.

Definition insert_message (r : message_row) (d : database) : database :=
  {| sessions := sessions d; messages := messages d ++ [r];
     specifications := specifications d |}.

Definition insert_specification (r : specification_row) (d : database) : database :=
  {| sessions := sessions d; messages := messages d;
     specifications := specifications d ++ [r] |}.

Definition update_sessions (f : session_row -> session_row) (sessionId : jsstring)
  (d : database) : database :=
  {| sessions :=
       List.map (fun r => if bool_decide (id r = sessionId) then f r else r)
         (sessions d);
     messages := messages d;
     specifications := specifications d |}.

(** [SELECT ... FROM sessions WHERE id = sessionId] *)
Definition select_session (sessionId : jsstring) (d : database) : list session_row :=
  List.filter (fun r => bool_decide (id r = sessionId)) (sessions d).

(** [SELECT ... FROM messages WHERE session_id = sessionId] *)
Definition messages_of (sessionId : jsstring) (d : database) : list message_row :=
  List.filter (fun r => bool_decide (message_session_id r = sessionId)) (messages d).

(** [... ORDER BY timestamp ASC] *)
Definition select_messages (sessionId : jsstring) (d : database) : list message_row :=
  order_by (fun a b => message_timestamp a <=? message_timestamp b)
    (messages_of sessionId d).

Definition specifications_of (sessionId : jsstring) (d : database)
  : list specification_row :=
  List.filter (fun r => bool_decide (session_id r = sessionId)) (specifications d).

(** [SELECT ... FROM specifications WHERE session_id = sessionId
     ORDER BY version DESC LIMIT 1] *)
Definition select_latest_specification (sessionId : jsstring) (d : database)
  : list specification_row :=
  firstn 1
    (order_by (fun a b => row_version b <=? row_version a)
       (specifications_of sessionId d)).

(** [SELECT id FROM sessions WHERE magic_link_token = token LIMIT 1] *)
Definition select_by_token (token : jsstring) (d : database) : list session_row :=
  firstn 1
    (List.filter (fun r => bool_decide (magic_link_token r = Some token))
       (sessions d)).

(** ** The service *)

Record SessionState : Type := {
  conversationHistory : list Message;
  specification : Specification;
  progress : json;
}.

Record Session : Type := {
  session_ident : jsstring;
  createdAt : Z;
  lastAccessedAt : Z;
  state : SessionState;
  magicLinkToken : option jsstring;
}.

(** The literals of [createSession], which [getSession] repeats for a
    session without a stored specification. *)
Definition initial_summary : json :=
  JObj [(u16 "overview", JStr []);
        (u16 "keyFeatures", JArr []);
        (u16 "targetUsers", JStr []);
        (u16 "integrations", JArr [])].

Definition initial_formalPRD : json :=
  JObj [(u16 "introduction", JStr []);
        (u16 "glossary", JObj []);
        (u16 "requirements", JArr []);
        (u16 "nonFunctionalRequirements", JArr [])].

Definition initial_progress : json :=
  JObj [(u16 "topics", JArr []);
        (u16 "overallCompleteness", JNum (u16 "0"));
        (u16 "projectComplexity", JStr (u16 "Simple"))].

(** [SET last_accessed_at = t] and [SET magic_link_token = token] *)
Definition set_last_accessed_at (t : Z) (r : session_row) : session_row :=
  {| id := id r; created_at := created_at r; last_accessed_at := t;
     magic_link_token := magic_link_token r; status := status r |}.

Definition set_magic_link_token (token : jsstring) (r : session_row) : session_row :=
  {| id := id r; created_at := created_at r;
     last_accessed_at := last_accessed_at r;
     magic_link_token := Some token; status := status r |}.

Definition updateLastAccessedTime (sessionId : jsstring) : M unit :=
  t ← now;
  exec (update_sessions (set_last_accessed_at t) sessionId).

Definition createSession : M Session :=
  sessionId ← uuidv4;
  t ← now;
  _ ← exec (insert_session
              {| id := sessionId; created_at := t; last_accessed_at := t;
                 magic_link_token := None; status := active |});
  let specification :=
    {| spec_id := sessionId; version := 0;
       plainEnglishSummary := initial_summary;
       formalPRD := initial_formalPRD;
       lastUpdated := t |} in
  let progress := initial_progress in
  rowId ← uuidv4;
  _ ← exec (insert_specification
              {| specification_id := rowId; session_id := sessionId;
                 row_version := 0;
                 plain_english_summary := plainEnglishSummary specification;
                 formal_prd := formalPRD specification;
                 progress_state := progress;
                 row_created_at := t; updated_at := t |});
  mret {| session_ident := sessionId; createdAt := t; lastAccessedAt := t;
          state := {| conversationHistory := [];
                      specification := specification;
                      progress := progress |};
          magicLinkToken := None |}.

Definition message_of_row (row : message_row) : Message :=
  {| msg_id := message_id row; role := message_role row;
     content := message_content row; timestamp := message_timestamp row;
     metadata := message_metadata row |}.

(** [token || undefined] *)
Definition or_undefined (token : option jsstring) : option jsstring :=
  match token with
  | Some [] => None
  | _ => token
  end.

(** The specification and the progress [getSession] returns: those of the
    latest snapshot, or the defaults. *)
Definition read_specification (sessionId : jsstring) (sessionRow : session_row)
  (specResult : list specification_row) : Specification * json :=
  match specResult with
  | specRow :: _ =>
      ({| spec_id := sessionId; version := row_version specRow;
          plainEnglishSummary := plain_english_summary specRow;
          formalPRD := formal_prd specRow;
          lastUpdated := updated_at specRow |},
       progress_state specRow)
  | [] =>
      ({| spec_id := sessionId; version := 0;
          plainEnglishSummary := initial_summary;
          formalPRD := initial_formalPRD;
          lastUpdated := created_at sessionRow |},
       initial_progress)
  end.

Definition getSession (sessionId : jsstring) : M (option Session) :=
  sessionResult ← query (select_session sessionId);
  match sessionResult with
  | [] => mret None
  | sessionRow :: _ =>
      messagesResult ← query (select_messages sessionId);
      let conversationHistory := List.map message_of_row messagesResult in
      specResult ← query (select_latest_specification sessionId);
      let '(specification, progress) :=
        read_specification sessionId sessionRow specResult in
      let sessionState :=
        {| conversationHistory := conversationHistory;
           specification := specification;
           progress := progress |} in
      _ ← updateLastAccessedTime sessionId;
      mret (Some {| session_ident := id sessionRow;
                    createdAt := created_at sessionRow;
                    lastAccessedAt := last_accessed_at sessionRow;
                    state := sessionState;
                    magicLinkToken := or_undefined (magic_link_token sessionRow) |})
  end.

Definition row_of_message (sessionId : jsstring) (message : Message) : message_row :=
  {| message_id := msg_id message; message_session_id := sessionId;
     message_role := role message; message_content := content message;
     message_timestamp := timestamp message;
     message_metadata := metadata message |}.

(** [state.conversationHistory.filter(msg => !existingMessageIds.has(msg.id))] *)
Definition new_messages (existingMessageIds : gset jsstring)
  (history : list Message) : list Message :=
  List.filter (fun msg => negb (bool_decide (msg_id msg ∈ existingMessageIds)))
    history.

(** [rows.length > 0 ? rows[0].version : -1] *)
Definition version_of (rows : list specification_row) : Z :=
  match rows with
  | row :: _ => row_version row
  | [] => -1
  end.

(** The row a snapshot of [state] is stored as. *)
Definition snapshot_row (rowId sessionId : jsstring) (state : SessionState) (t : Z)
  : specification_row :=
  {| specification_id := rowId; session_id := sessionId;
     row_version := version (specification state);
     plain_english_summary := plainEnglishSummary (specification state);
     formal_prd := formalPRD (specification state);
     progress_state := progress state;
     row_created_at := t; updated_at := t |}.

Definition saveSessionState (sessionId : jsstring) (state : SessionState) : M unit :=
  t ← now;
  existingMessagesResult ← query (fun d => List.map message_id (messages_of sessionId d));
  let existingMessageIds : gset jsstring := list_to_set existingMessagesResult in
  let newMessages := new_messages existingMessageIds (conversationHistory state) in
  _ ← for_each newMessages
        (fun message => exec (insert_message (row_of_message sessionId message)));
  currentSpecResult ← query (select_latest_specification sessionId);
  let currentVersion := version_of currentSpecResult in
  _ ← (if bool_decide (version (specification state) ≠ currentVersion) then
         rowId ← uuidv4;
         exec (insert_specification (snapshot_row rowId sessionId state t))
       else mret tt);
  updateLastAccessedTime sessionId.

Definition generateMagicLink (sessionId : jsstring) : M jsstring :=
  token ← uuidv4;
  _ ← exec (update_sessions (set_magic_link_token token) sessionId);
  mret token.

Definition invalid_token : js_error :=
  Error (u16 "Invalid or expired magic link token").

Definition session_not_found : js_error := Error (u16 "Session not found").

Definition restoreSessionFromMagicLink (token : jsstring) : M Session :=
  result ← query (select_by_token token);
  match result with
  | [] => throw invalid_token
  | row :: _ =>
      let sessionId := id row in
      session ← getSession sessionId;
      match session with
      | None => throw session_not_found
      | Some session => mret session
      end
  end.

(** ** The offline queue *)

Definition offline_key (sessionId : jsstring) : jsstring :=
  u16 "offline_messages_" ++ sessionId.

(** The queue as [localStorage] holds it; empty without a [window] and
    without an item. *)
Definition offline_queue (sessionId : jsstring) (w : world) : list Message :=
  match window w with
  | None => []
  | Some localStorage =>
      match localStorage !! offline_key sessionId with
      | None => []
      | Some stored => stored
      end
  end.

Definition getOfflineMessages (sessionId : jsstring) : M (list Message) :=
  fun w => (Return (offline_queue sessionId w), w).

Definition queueOfflineMessage (sessionId : jsstring) (message : Message)
  : M unit := fun w =>
  match window w with
  | None => (Return tt, w)
  | Some localStorage =>
      let existing := offline_queue sessionId w in
      (Return tt,
       with_window w
         (Some (<[offline_key sessionId := existing ++ [message]]> localStorage)))
  end.

Definition clearOfflineMessages (sessionId : jsstring) : M unit := fun w =>
  match window w with
  | None => (Return tt, w)
  | Some localStorage =>
      (Return tt,
       with_window w (Some (delete (offline_key sessionId) localStorage)))
  end.

(** [{ ...session.state, conversationHistory: [...history, ...offline] }] *)
Definition with_offline (s : SessionState) (offlineMessages : list Message)
  : SessionState :=
  {| conversationHistory := conversationHistory s ++ offlineMessages;
     specification := specification s;
     progress := progress s |}.

Definition syncOfflineMessages (sessionId : jsstring) : M unit :=
  offlineMessages ← getOfflineMessages sessionId;
  match offlineMessages with
  | [] => mret tt
  | _ :: _ =>
      try_catchM
        (session ← getSession sessionId;
         match session with
         | None => throw session_not_found
         | Some session =>
             let updatedState := with_offline (state session) offlineMessages in
             _ ← saveSessionState sessionId updatedState;
             clearOfflineMessages sessionId
         end)
        (fun error => throw error)
  end.

(** ** Abandoning a session *)

(** [SET status = s] *)
Definition set_status (s : Status) (r : session_row) : session_row :=
  {| id := id r; created_at := created_at r;
     last_accessed_at := last_accessed_at r;
     magic_link_token := magic_link_token r; status := s |}.

Definition abandonSession (sessionId : jsstring) : M unit :=
  exec (update_sessions (set_status abandoned) sessionId).

(** ** Recovery after an error *)

(** What [preserveErrorState] reads of the [Error] it is given. *)
Record ErrorObject : Type := {
  err_message : jsstring;
  err_stack : option jsstring;
}.

(** A row of the table [errors], with the columns the [INSERT] statement
    names. Its schema is not among the sources; the table takes every
    row. *)
Record error_row : Type := {
  error_session_id : jsstring;
  error_message : jsstring;
  error_stack : option jsstring;
  user_input : option jsstring;
  error_timestamp : Z;
}.

(** [value || null] for an optional string: absent and empty both give
    [null]. *)
Definition or_null (value : option jsstring) : option jsstring :=
  match value with
  | Some [] => None
  | _ => value
  end.

(** The table [errors] is not one of the three of [database], and nothing in
    the service reads it: it is handed to [preserveErrorState], whose result
    is the table after the call. The statement that writes to it is awaited,
    and can fail, like every other statement. *)
Definition insert_error (r : error_row) (errors : list error_row)
  : M (list error_row) :=
  sql (fun d => (errors ++ [r], d)).

(** One [try] block in the source, whose [catch] logs and returns: a failure
    of the first statement leaves [errors] as it was, a failure while saving
    the state leaves it with the new row. *)
Definition preserveErrorState (sessionId : jsstring) (error : ErrorObject)
  (userInput : option jsstring) (currentState : option SessionState)
  (errors : list error_row) : M (list error_row) :=
  try_catchM
    (t ← now;
     recorded ← insert_error
                  {| error_session_id := sessionId;
                     error_message := err_message error;
                     error_stack := or_null (err_stack error);
                     user_input := or_null userInput;
                     error_timestamp := t |} errors;
     match currentState with
     | Some currentState =>
         try_catchM
           (_ ← saveSessionState sessionId currentState; mret recorded)
           (fun preserveError => mret recorded)
     | None => mret recorded
     end)
    (fun preserveError => mret errors).

Definition reconstructContextAfterError (sessionId : jsstring)
  : M (option SessionState) :=
  try_catchM
    (session ← getSession sessionId;
     match session with
     | None => mret None
     | Some session => mret (Some (state session))
     end)
    (fun error => mret None).

(** ** Vocabulary for the properties *)

(** A sequence of [saveSessionState] calls for one session, whatever each
    call's outcome. *)
Definition run_saves (sessionId : jsstring) (states : list SessionState)
  (w : world) : world :=
  fold_left (fun w state => snd (saveSessionState sessionId state w)) states w.

(** The version [saveSessionState] compares with: the highest stored one,
    [-1] without a snapshot. *)
Definition latest_version (sessionId : jsstring) (d : database) : Z :=
  version_of (select_latest_specification sessionId d).

Definition stored_versions (sessionId : jsstring) (d : database) : list Z :=
  List.map row_version (specifications_of sessionId d).

Definition stored_message_ids (sessionId : jsstring) (d : database) : list jsstring :=
  List.map message_id (messages_of sessionId d).

(** The rows one [saveSessionState] adds to [messages]. *)
Definition message_delta (sessionId : jsstring) (state : SessionState)
  (d : database) : list message_row :=
  List.map (row_of_message sessionId)
    (new_messages (list_to_set (stored_message_ids sessionId d))
       (conversationHistory state)).

(** A method leaves an observation of the tables and of [localStorage]
    unchanged, however it ends. *)
Definition keeps {A X : Type}
  (obs : database -> option (gmap jsstring (list Message)) -> X) (m : M A) : Prop :=
  forall w, obs (db (m w).2) (window (m w).2) = obs (db w) (window w).

(** A run that returned met no store failure, and is the run of the same
    method in the world without failures to come. *)
Definition unaffected_by_faults {A : Type} (m : M A) : Prop :=
  forall w a w',
    m w = (Return a, w') ->
    m (with_sql_faults w []) = (Return a, with_sql_faults w' []).

(** The world after [updateLastAccessedTime] ran without a store failure. *)
Definition touched (sessionId : jsstring) (w : world) : world :=
  {| db := update_sessions (set_last_accessed_at (clock w)) sessionId (db w);
     sql_faults := sql_faults w; uuid_stream := uuid_stream w;
     uuid_drawn := uuid_drawn w; clock := clock w + 1; window := window w |}.

(** What [getSession] returns for a session row and the tables. *)
Definition session_view (sessionId : jsstring) (sessionRow : session_row)
  (d : database) : Session :=
  let '(specification, progress) :=
    read_specification sessionId sessionRow
      (select_latest_specification sessionId d) in
  {| session_ident := id sessionRow;
     createdAt := created_at sessionRow;
     lastAccessedAt := last_accessed_at sessionRow;
     state := {| conversationHistory :=
                   List.map message_of_row (select_messages sessionId d);
                 specification := specification;
                 progress := progress |};
     magicLinkToken := or_undefined (magic_link_token sessionRow) |}.

(** Two sessions that differ at most in [lastAccessedAt]. *)
Definition same_but_last_access (a b : Session) : Prop :=
  session_ident a = session_ident b /\ createdAt a = createdAt b
  /\ state a = state b /\ magicLinkToken a = magicLinkToken b.

Definition holds_token (token : jsstring) (d : database) : Prop :=
  exists r, In r (sessions d) /\ magic_link_token r = Some token.

(** Equality of identifiers, for counting. *)
Definition same_id (a b : jsstring) : {a = b} + {a <> b} := decide (a = b).

(** Timestamps strictly increasing along a list of stored messages. *)
Definition strictly_increasing (rows : list message_row) : Prop :=
  StronglySorted (fun a b => message_timestamp a < message_timestamp b) rows.

End SessionManager.

(* ===================================================================== *)
(** * Client store *)
(* ===================================================================== *)

(** The interfaces of the data model (v0.3) that the client store handles.
    Messages and specifications are those of [Model]: the store passes them
    on without looking inside. *)
Module DataModel.
Import JS Model.

Record CompletenessState : Type := {
  missingSections : list jsstring;
  readyForHandoff : bool;
  lastEvaluated : jsstring;
}.

Record ContactInfo : Type := {
  name : option jsstring;
  email : option jsstring;
  phone : option jsstring;
  budgetRange : option jsstring;
  timeline : option jsstring;
  referralSource : option jsstring;
  urgency : option jsstring;
}.

Record LockedSection : Type := {
  section_name : jsstring;
  summary : jsstring;
  lockedAt : jsstring;
}.

Record SessionState : Type := {
  conversationHistory : list Message;
  specification : Specification;
  userInfo : option ContactInfo;
  lockedSections : option (list LockedSection);
  completeness : CompletenessState;
}.

End DataModel.

Module SessionStore.
Import JS Model.

(** The data of the store; its actions are the functions below. *)
Record State : Type := {
  sessionId : option jsstring;
  conversationHistory : list Message;
  specification : option Specification;
  completeness : option DataModel.CompletenessState;
  isLoading : bool;
  isSyncing : bool;
  lastSyncedAt : option Z;
}.

Definition initialState : State :=
  {| sessionId := None; conversationHistory := []; specification := None;
     completeness := None; isLoading := false; isSyncing := false;
     lastSyncedAt := None |}.

(** The argument of [set]: the fields it names. *)
Record Partial : Type := {
  new_sessionId : option (option jsstring);
  new_conversationHistory : option (list Message);
  new_specification : option (option Specification);
  new_completeness : option (option DataModel.CompletenessState);
  new_isLoading : option bool;
  new_isSyncing : option bool;
  new_lastSyncedAt : option (option Z);
}.

(** [{ ...state, ...partial }]: a field the partial names replaces the one
    of the state, the others stay. *)
Definition merge (state : State) (partial : Partial) : State :=
  {| sessionId := default (sessionId state) (new_sessionId partial);
     conversationHistory :=
       default (conversationHistory state) (new_conversationHistory partial);
     specification := default (specification state) (new_specification partial);
     completeness := default (completeness state) (new_completeness partial);
     isLoading := default (isLoading state) (new_isLoading partial);
     isSyncing := default (isSyncing state) (new_isSyncing partial);
     lastSyncedAt := default (lastSyncedAt state) (new_lastSyncedAt partial) |}.

(** [set(partial)] and [set((state) => partial)] *)
Definition set (partial : Partial) (state : State) : State :=
  merge state partial.

Definition set_with (partial : State -> Partial) (state : State) : State :=
  merge state (partial state).

(** A state passed to [set] names every field. *)
Definition all_of (state : State) : Partial :=
  {| new_sessionId := Some (sessionId state);
     new_conversationHistory := Some (conversationHistory state);
     new_specification := Some (specification state);
     new_completeness := Some (completeness state);
     new_isLoading := Some (isLoading state);
     new_isSyncing := Some (isSyncing state);
     new_lastSyncedAt := Some (lastSyncedAt state) |}.

Definition setSessionId (sessionId : jsstring) : State -> State :=
  set {| new_sessionId := Some (Some sessionId);
         new_conversationHistory := None; new_specification := None;
         new_completeness := None; new_isLoading := None;
         new_isSyncing := None; new_lastSyncedAt := None |}.

Definition addMessage (message : Message) : State -> State :=
  set_with (fun state =>
    {| new_sessionId := None;
       new_conversationHistory := Some (conversationHistory state ++ [message]);
       new_specification := None; new_completeness := None;
       new_isLoading := None; new_isSyncing := None;
       new_lastSyncedAt := None |}).

Definition updateSpecification (specification : Specification) : State -> State :=
  set {| new_sessionId := None; new_conversationHistory := None;
         new_specification := Some (Some specification);
         new_completeness := None; new_isLoading := None;
         new_isSyncing := None; new_lastSyncedAt := None |}.

Definition updateCompleteness (completeness : DataModel.CompletenessState)
  : State -> State :=
  set {| new_sessionId := None; new_conversationHistory := None;
         new_specification := None;
         new_completeness := Some (Some completeness);
         new_isLoading := None; new_isSyncing := None;
         new_lastSyncedAt := None |}.

Definition setLoading (isLoading : bool) : State -> State :=
  set {| new_sessionId := None; new_conversationHistory := None;
         new_specification := None; new_completeness := None;
         new_isLoading := Some isLoading; new_isSyncing := None;
         new_lastSyncedAt := None |}.

Definition setSyncing (isSyncing : bool) : State -> State :=
  set {| new_sessionId := None; new_conversationHistory := None;
         new_specification := None; new_completeness := None;
         new_isLoading := None; new_isSyncing := Some isSyncing;
         new_lastSyncedAt := None |}.

Definition setLastSyncedAt (date : Z) : State -> State :=
  set {| new_sessionId := None; new_conversationHistory := None;
         new_specification := None; new_completeness := None;
         new_isLoading := None; new_isSyncing := None;
         new_lastSyncedAt := Some (Some date) |}.

Definition clearSession : State -> State := set (all_of initialState).

(** [today] is what [new Date()] gives when the action runs. *)
Definition restoreSession (state : DataModel.SessionState) (sessionId : jsstring)
  (today : Z) : State -> State :=
  set {| new_sessionId := Some (Some sessionId);
         new_conversationHistory := Some (DataModel.conversationHistory state);
         new_specification := Some (Some (DataModel.specification state));
         new_completeness := Some (Some (DataModel.completeness state));
         new_isLoading := None; new_isSyncing := None;
         new_lastSyncedAt := Some (Some today) |}.

Definition getMessageCount (state : State) : nat :=
  length (conversationHistory state).

(** [messages.length > 0 ? messages[messages.length - 1] : null] *)
Definition getLatestMessage (state : State) : option Message :=
  let messages := conversationHistory state in
  if (0 <? length messages)%nat
  then nth_error messages (length messages - 1)
  else None.

(** What [partialize] keeps for [localStorage]. *)
Record Persisted : Type := {
  persisted_sessionId : option jsstring;
  persisted_conversationHistory : list Message;
  persisted_specification : option Specification;
  persisted_completeness : option DataModel.CompletenessState;
  persisted_lastSyncedAt : option Z;
}.

Definition partialize (state : State) : Persisted :=
  {| persisted_sessionId := sessionId state;
     persisted_conversationHistory := conversationHistory state;
     persisted_specification := specification state;
     persisted_completeness := completeness state;
     persisted_lastSyncedAt := lastSyncedAt state |}.

(** ** Vocabulary for the properties *)

(** The actions of the store, and a run of them in order. *)
Inductive action : Type :=
| SetSessionId (sessionId : jsstring)
| AddMessage (message : Message)
| UpdateSpecification (specification : Specification)
| UpdateCompleteness (completeness : DataModel.CompletenessState)
| SetLoading (isLoading : bool)
| SetSyncing (isSyncing : bool)
| SetLastSyncedAt (date : Z)
| ClearSession
| RestoreSession (state : DataModel.SessionState) (sessionId : jsstring) (today : Z).

Definition dispatch (state : State) (a : action) : State :=
  match a with
  | SetSessionId sessionId => setSessionId sessionId state
  | AddMessage message => addMessage message state
  | UpdateSpecification specification => updateSpecification specification state
  | UpdateCompleteness completeness => updateCompleteness completeness state
  | SetLoading isLoading => setLoading isLoading state
  | SetSyncing isSyncing => setSyncing isSyncing state
  | SetLastSyncedAt date => setLastSyncedAt date state
  | ClearSession => clearSession state
  | RestoreSession restored sessionId today =>
      restoreSession restored sessionId today state
  end.

Definition run (actions : list action) (state : State) : State :=
  fold_left dispatch actions state.

(** The messages a run adds with [addMessage]. *)
Definition added (actions : list action) : list Message :=
  flat_map (fun a => match a with AddMessage message => [message] | _ => [] end)
    actions.

(** An action that replaces the whole history. *)
Definition replaces_history (a : action) : bool :=
  match a with
  | ClearSession | RestoreSession _ _ _ => true
  | _ => false
  end.

End SessionStore.

(* ===================================================================== *)
(** * Configuration of the AWS clients *)
(* ===================================================================== *)

(** The configuration objects are computed once from [process.env]; here
    they are functions of the environment. An earlier version of the file
    differs only in leaving [credentials] out of [baseConfig]. *)
Module AwsConfig.
Import JS.

(** [process.env]: the variables that are set, by name. *)
Abbreviation Env := (gmap (list N) (list N)) (only parsing).

(** [value || fallback] for a variable: unset and empty both give the
    fallback. *)
Definition or_else (value : option jsstring) (fallback : jsstring) : jsstring :=
  match value with
  | Some (c :: r) => c :: r
  | _ => fallback
  end.

Definition isLocalStack (env : Env) : bool :=
  bool_decide (env !! u16 "USE_LOCALSTACK" = Some (u16 "true")).

Definition localStackEndpoint (env : Env) : jsstring :=
  or_else (env !! u16 "LOCALSTACK_ENDPOINT") (u16 "http://localhost:4566").

Inductive Credentials : Type :=
| fromNodeProviderChain
| Keys (accessKeyId secretAccessKey : jsstring).

(** The keys a configuration object can have. *)
Record Config : Type := {
  region : jsstring;
  credentials : option Credentials;
  endpoint : option jsstring;
  forcePathStyle : option bool;
}.

Definition baseConfig (env : Env) : Config :=
  {| region := or_else (env !! u16 "AWS_REGION")
                 (or_else (env !! u16 "REGION") (u16 "us-east-1"));
     credentials := Some fromNodeProviderChain;
     endpoint := None;
     forcePathStyle := None |}.

(** [{ ...baseConfig, ...(isLocalStack && { endpoint, credentials }) }]:
    spreading [false] adds nothing. *)
Definition awsConfig (env : Env) : Config :=
  let base := baseConfig env in
  if isLocalStack env then
    {| region := region base;
       credentials := Some (Keys (u16 "test") (u16 "test"));
       endpoint := Some (localStackEndpoint env);
       forcePathStyle := forcePathStyle base |}
  else base.

Definition dynamoDBConfig (env : Env) : Config :=
  let aws := awsConfig env in
  if isLocalStack env then
    {| region := region aws; credentials := credentials aws;
       endpoint := Some (or_else (env !! u16 "DYNAMODB_ENDPOINT")
                           (localStackEndpoint env));
       forcePathStyle := forcePathStyle aws |}
  else aws.

Definition s3Config (env : Env) : Config :=
  let aws := awsConfig env in
  {| region := region aws; credentials := credentials aws;
     endpoint := if isLocalStack env
                 then Some (or_else (env !! u16 "S3_ENDPOINT") (localStackEndpoint env))
                 else endpoint aws;
     forcePathStyle := Some (isLocalStack env) |}.

Definition sesConfig (env : Env) : Config :=
  let aws := awsConfig env in
  if isLocalStack env then
    {| region := region aws; credentials := credentials aws;
       endpoint := Some (or_else (env !! u16 "SES_ENDPOINT")
                           (localStackEndpoint env));
       forcePathStyle := forcePathStyle aws |}
  else aws.

(** [tableNames.sessions] *)
Definition sessions_table (env : Env) : jsstring :=
  or_else (env !! u16 "DYNAMODB_TABLE_NAME") (u16 "fbuilder-sessions-dev").

(** [s.split(sep)] for a separator of one code unit: the pieces between the
    separators, one piece for a string without any. *)
Fixpoint split (sep : N) (s : jsstring) : list jsstring :=
  match s with
  | [] => [[]]
  | c :: s' =>
      if c =? sep then [] :: split sep s'
      else match split sep s' with
           | piece :: pieces => (c :: piece) :: pieces
           | [] => [[c]]
           end
  end.

(** [bucketNames.exports]: [pop] gives the last piece. *)
Definition exports_bucket (env : Env) : jsstring :=
  or_else (env !! u16 "S3_BUCKET_NAME")
    (or_else (env !! u16 "S3_BUCKET_ARN" ≫= fun arn => last (split 58 arn))
       (u16 "fbuilder-exports-dev-771551874768")).

End AwsConfig.

(* ===================================================================== *)
(** * Sample data *)
(* ===================================================================== *)

Module Samples.
Import JS Model PRDEngine SessionManager.

Definition dog_food_summary : json :=
  JObj [(u16 "overview", JStr (u16 "An online shop for dog food"));
        (u16 "targetUsers", JStr (u16 "Dog owners"));
        (u16 "keyFeatures", JArr [JStr (u16 "catalogue"); JStr (u16 "checkout")]);
        (u16 "flows", JArr [])].

Definition dog_food_spec : Specification :=
  {| spec_id := u16 "session-1"; version := 1;
     plainEnglishSummary := dog_food_summary;
     formalPRD := JObj [(u16 "introduction", JStr [])];
     lastUpdated := 1700000000000 |}.

Definition first_message : Message :=
  {| msg_id := u16 "m1"; role := user;
     content := u16 "I want to sell dog food online";
     timestamp := 1700000000000; metadata := None |}.

Definition sample_update : PRDEngineInput :=
  update dog_food_spec [first_message] true.

Definition sample_finalize : PRDEngineInput := finalize dog_food_spec.

Definition timeout : js_error := GatewayError (u16 "request timed out").

(** A well-formed model answer, bare and in two wrappings. *)
Definition answer_text : jsstring :=
  jtext "{'spec': {'plainEnglishSummary': {'targetUsers': 'Dog owners'}}, 'missingSections': ['flows']}".

(** A model answer that leaves [missingSections] out. *)
Definition answer_without_missing : jsstring :=
  jtext "{'spec': {'plainEnglishSummary': {'targetUsers': 'Dog owners'}}}".

Definition answer_in_json_fence : jsstring :=
  wrap_in_fences [] true [10] answer_text [10] [].

Definition answer_in_javascript_fence : jsstring :=
  fence ++ u16 "javascript" ++ [10] ++ answer_text ++ [10] ++ fence.

(** An empty store in a browser with an empty [localStorage]; the identifiers
    to come are uuid-0, uuid-1 and so on. *)
Definition fresh_world : world :=
  {| db := {| sessions := []; messages := []; specifications := [] |};
     sql_faults := [];
     uuid_stream := fun n => u16 "uuid-" ++ [48 + N.of_nat n];
     uuid_drawn := 0;
     clock := 1700000000000;
     window := Some ∅ |}.

(** The world after [createSession], and the session it created. *)
Definition created_world : world := (createSession fresh_world).2.

Definition session_1 : jsstring := u16 "uuid-0".

Definition message (ident : string) (r : Role) (text : string) (t : Z) : Message :=
  {| msg_id := u16 ident; role := r; content := u16 text;
     timestamp := t; metadata := None |}.

Definition state_at (v : Z) (history : list Message) : SessionState :=
  {| conversationHistory := history;
     specification :=
       {| spec_id := session_1; version := v;
          plainEnglishSummary := initial_summary;
          formalPRD := initial_formalPRD;
          lastUpdated := 1700000000000 |};
     progress := initial_progress |}.

(** Two messages whose timestamps run against their order in the history. *)
Definition out_of_order : list Message :=
  [message "m1" user "sent late" 1700000005000;
   message "m2" assistant "sent early" 1700000003000].

(** Three synced messages, then two composed offline. *)
Definition synced : list Message :=
  [message "m1" user "I want to sell dog food online" 1700000001000;
   message "m2" assistant "Who are your customers?" 1700000002000;
   message "m3" user "Dog owners" 1700000003000].

Definition composed_offline : list Message :=
  [message "m4" user "They order monthly" 1700000004000;
   message "m5" user "And pay by card" 1700000005000].

Definition offline_world : world :=
  ((saveSessionState session_1 (state_at 0 synced)
    ≫= fun _ => for_each composed_offline (queueOfflineMessage session_1))
     created_world).2.

End Samples.

(* ===================================================================== *)
(** * Properties of JSON texts *)
(* ===================================================================== *)

Import JS Model.

Section JsonText.

(** ** The parser at work *)

Example parse_document :
  JSON_parse (jtext " {'a': [1, -2.5e+3, true, null], 'b': {}, 'c': 'x\ny'} ")
  = Some (JObj [(u16 "a", JArr [JNum (u16 "1"); JNum (u16 "-2.5e+3");
                                JBool true; JNull]);
                (u16 "b", JObj []);
                (u16 "c", JStr [120; 10; 121])]).
Proof. reflexivity. Qed.

Example parse_unicode_escape :
  JSON_parse (jtext "'\u0073pec'") = Some (JStr (u16 "spec")).
Proof. reflexivity. Qed.

Example parse_rejects_trailing_comma : JSON_parse (u16 "[1,]") = None.
Proof. reflexivity. Qed.

Example parse_rejects_leading_zero : JSON_parse (u16 "01") = None.
Proof. reflexivity. Qed.

Example parse_rejects_two_values : JSON_parse (u16 "true false") = None.
Proof. reflexivity. Qed.

Example parse_rejects_prose : JSON_parse (u16 "Here is the JSON: {}") = None.
Proof. reflexivity. Qed.

(** A no-break space is white space for [trim], not for [JSON.parse]. *)
Example parse_rejects_no_break_space : JSON_parse (u16 "{}" ++ [160]) = None.
Proof. reflexivity. Qed.

Example trim_removes_no_break_space : trim ([160; 32] ++ u16 "{}" ++ [160; 10]) = u16 "{}".
Proof. reflexivity. Qed.

Example later_member_wins :
  option_map (fun v => get_property v (u16 "spec"))
    (JSON_parse (jtext "{'spec': 1, 'spec': 2}"))
  = Some (Return (JSValue (JNum (u16 "2")))).
Proof. reflexivity. Qed.

(** ** The parser's recursion budget is always enough *)

Lemma parse_shrinks (n : nat) :
  (forall ts v r, parse_value n ts = POk (v, r) -> (length r < length ts)%nat) /\
  (forall ts acc v r, parse_elements n ts acc = POk (v, r) -> (length r < length ts)%nat) /\
  (forall ts acc v r, parse_members n ts acc = POk (v, r) -> (length r < length ts)%nat).
Proof.
  induction n as [|n (IHv & IHe & IHm)]; [repeat split; intros; discriminate|].
  repeat split.
  - intros ts v r H. destruct ts as [|t ts]; [discriminate|].
    destruct t; simpl in H; try discriminate;
      try (injection H as <- <-; simpl; lia).
    + destruct ts as [|t' ts']; [apply IHm in H; simpl in *; lia|].
      destruct t'; try (apply IHm in H; simpl in *; lia).
      injection H as <- <-; simpl; lia.
    + destruct ts as [|t' ts']; [apply IHe in H; simpl in *; lia|].
      destruct t'; try (apply IHe in H; simpl in *; lia).
      injection H as <- <-; simpl; lia.
  - intros ts acc v r H. simpl in H.
    destruct (parse_value n ts) as [[v0 rest]| |] eqn:E; try discriminate.
    apply IHv in E.
    destruct rest as [|t rest]; [discriminate|].
    destruct t; try discriminate.
    + injection H as <- <-. simpl in E. lia.
    + apply IHe in H. simpl in E. lia.
  - intros ts acc v r H. simpl in H.
    destruct ts as [|t ts]; [discriminate|]. destruct t; try discriminate.
    destruct ts as [|t ts]; [discriminate|]. destruct t; try discriminate.
    destruct (parse_value n ts) as [[v0 rest]| |] eqn:E; try discriminate.
    apply IHv in E.
    destruct rest as [|t rest]; [discriminate|].
    destruct t; try discriminate.
    + injection H as <- <-. simpl in *. lia.
    + apply IHm in H. simpl in *. lia.
Qed.

Lemma parse_fuel_enough (n : nat) :
  (forall ts, (2 * length ts + 1 <= n)%nat -> parse_value n ts <> PFuel) /\
  (forall ts acc, (2 * length ts + 2 <= n)%nat -> parse_elements n ts acc <> PFuel) /\
  (forall ts acc, (2 * length ts + 2 <= n)%nat -> parse_members n ts acc <> PFuel).
Proof.
  induction n as [|n (IHv & IHe & IHm)]; [repeat split; intros; simpl in *; lia|].
  repeat split.
  - intros ts Hn. destruct ts as [|t ts]; [discriminate|].
    destruct t; simpl; try discriminate.
    + destruct ts as [|t' ts']; [apply IHm; simpl in *; lia|].
      destruct t'; try (apply IHm; simpl in *; lia). discriminate.
    + destruct ts as [|t' ts']; [apply IHe; simpl in *; lia|].
      destruct t'; try (apply IHe; simpl in *; lia). discriminate.
  - intros ts acc Hn. simpl.
    destruct (parse_value n ts) as [[v0 rest]| |] eqn:E; try discriminate.
    + pose proof (proj1 (parse_shrinks n) _ _ _ E) as Hs.
      destruct rest as [|t rest]; [discriminate|].
      destruct t; try discriminate.
      apply IHe. simpl in Hs. lia.
    + exfalso. revert E. apply IHv. lia.
  - intros ts acc Hn. simpl.
    destruct ts as [|t ts]; [discriminate|]. destruct t; try discriminate.
    destruct ts as [|t ts]; [discriminate|]. destruct t; try discriminate.
    destruct (parse_value n ts) as [[v0 rest]| |] eqn:E; try discriminate.
    + pose proof (proj1 (parse_shrinks n) _ _ _ E) as Hs.
      destruct rest as [|t rest]; [discriminate|].
      destruct t; try discriminate.
      apply IHm. simpl in *. lia.
    + exfalso. revert E. apply IHv. simpl in Hn. lia.
Qed.

Lemma parse_never_out_of_fuel (ts : list token) :
  parse_value (parse_budget ts) ts <> PFuel.
Proof. apply parse_fuel_enough. unfold parse_budget. lia. Qed.

(** ** White space around a JSON text *)

Lemma json_ws_cases c : is_json_ws c = true -> c = 9 \/ c = 10 \/ c = 13 \/ c = 32.
Proof.
  unfold is_json_ws. rewrite !orb_true_iff, !N.eqb_eq. tauto.
Qed.

Lemma json_ws_is_js_space c : is_json_ws c = true -> is_js_space c = true.
Proof.
  intros H. destruct (json_ws_cases c H) as [-> | [-> | [-> | ->]]]; reflexivity.
Qed.

(* a space that may start a token is JSON white space *)
Lemma lex_start_space c :
  is_js_space c = true -> lex_start c <> None -> is_json_ws c = true.
Proof.
  intros Hs Hl. destruct (is_json_ws c) eqn:E; [reflexivity|].
  exfalso. apply Hl. clear Hl. unfold lex_start. rewrite E.
  unfold is_js_space in Hs.
  repeat rewrite orb_true_iff in Hs. rewrite andb_true_iff in Hs.
  rewrite !N.eqb_eq, !N.leb_le in Hs.
  unfold is_json_ws in E. repeat rewrite orb_false_iff in E.
  rewrite !N.eqb_neq in E.
  unfold is_digit.
  repeat match goal with
  | |- context [?a =? ?b] => destruct (N.eqb_spec a b); [lia|]
  end.
  destruct (48 <=? c) eqn:E1; destruct (c <=? 57) eqn:E2; simpl; try reflexivity.
  apply N.leb_le in E1, E2. lia.
Qed.

(** Case analysis along the tests of a scanner step [H], closing the cases
    that fail and those whose next state is plainly fine. *)
Ltac scan_cases H :=
  repeat match type of H with
  | (if ?b then _ else _) = _ =>
      destruct b; try discriminate; try (injection H as <- <-; reflexivity)
  end;
  try discriminate.

Lemma lex_start_keeps_ok c ts st' :
  lex_start c = Some (ts, st') -> keyword_state_ok st' = true.
Proof. intros H. unfold lex_start in H. scan_cases H. Qed.

Lemma lex_step_keeps_ok st c ts st' :
  keyword_state_ok st = true -> lex_step st c = Some (ts, st') ->
  keyword_state_ok st' = true.
Proof.
  intros Hok H. destruct st; simpl in *.
  - eapply lex_start_keeps_ok; eauto.
  - scan_cases H.
  - unfold lex_escape in H. scan_cases H.
  - destruct (hex_value c); [|discriminate].
    destruct todo as [|[|k]]; try discriminate; injection H as <- <-; reflexivity.
  - destruct expect as [|e [|e' rest]]; try discriminate;
      destruct (c =? e); try discriminate; injection H as <- <-; [reflexivity|].
    simpl in Hok. apply andb_true_iff in Hok as [_ Hok]. exact Hok.
  - assert (Hend : forall ph acc,
              lex_number_end ph acc c = Some (ts, st') -> keyword_state_ok st' = true).
    { intros ph0 acc0 He. unfold lex_number_end in He.
      destruct (num_accepting ph0); [|discriminate].
      destruct (lex_start c) as [[ts0 st0]|] eqn:E; [|discriminate].
      injection He as <- <-. eapply lex_start_keeps_ok; eauto. }
    destruct ph; simpl in H; scan_cases H; eauto.
Qed.

(* one white-space character read in any state *)
Lemma lex_step_ws st c :
  keyword_state_ok st = true -> is_json_ws c = true ->
  match lex_step st c with
  | Some (ts, st') =>
      match lex_finish st' with
      | Some out => lex_finish st = Some (ts ++ out)
      | None => lex_finish st = None
      end
  | None => lex_finish st = None
  end.
Proof.
  intros Hok Hc.
  destruct st; simpl.
  - unfold lex_start. rewrite Hc. reflexivity.
  - destruct (json_ws_cases c Hc) as [-> | [-> | [-> | ->]]]; reflexivity.
  - destruct (json_ws_cases c Hc) as [-> | [-> | [-> | ->]]]; reflexivity.
  - destruct (json_ws_cases c Hc) as [-> | [-> | [-> | ->]]]; reflexivity.
  - destruct expect as [|e [|e' rest]]; [reflexivity| |];
      simpl in Hok; apply andb_true_iff in Hok as [He _];
      (destruct (N.eqb_spec c e) as [->|_]; [|reflexivity]);
      apply json_ws_is_js_space in Hc; rewrite Hc in He; discriminate.
  - destruct ph; destruct (json_ws_cases c Hc) as [-> | [-> | [-> | ->]]]; reflexivity.
Qed.

Lemma lex_from_ws st ws :
  keyword_state_ok st = true -> forallb is_json_ws ws = true ->
  lex_from st ws = lex_finish st.
Proof.
  revert st. induction ws as [|c ws IH]; intros st Hok Hws; [reflexivity|].
  simpl in Hws. apply andb_true_iff in Hws as [Hc Hws].
  pose proof (lex_step_ws st c Hok Hc) as Hstep.
  simpl. destruct (lex_step st c) as [[ts st']|] eqn:E; [|congruence].
  rewrite (IH st' (lex_step_keeps_ok _ _ _ _ Hok E) Hws).
  destruct (lex_finish st'); congruence.
Qed.

Lemma lex_from_app_ws s ws st :
  keyword_state_ok st = true -> forallb is_json_ws ws = true ->
  lex_from st (s ++ ws) = lex_from st s.
Proof.
  revert st. induction s as [|c s IH]; intros st Hok Hws.
  - simpl. apply lex_from_ws; assumption.
  - simpl. destruct (lex_step st c) as [[ts st']|] eqn:E; [|reflexivity].
    rewrite (IH st' (lex_step_keeps_ok _ _ _ _ Hok E) Hws). reflexivity.
Qed.

Lemma lex_ws_app ws s :
  forallb is_json_ws ws = true -> lex (ws ++ s) = lex s.
Proof.
  unfold lex. induction ws as [|c ws IH]; intros Hws; [reflexivity|].
  simpl in Hws. apply andb_true_iff in Hws as [Hc Hws].
  simpl. unfold lex_start. rewrite Hc. rewrite (IH Hws).
  destruct (lex_from LStart s); reflexivity.
Qed.

Lemma JSON_parse_padded ws1 s ws2 :
  forallb is_json_ws ws1 = true -> forallb is_json_ws ws2 = true ->
  JSON_parse (ws1 ++ s ++ ws2) = JSON_parse s.
Proof.
  intros H1 H2. unfold JSON_parse. rewrite (lex_ws_app _ _ H1).
  unfold lex. rewrite (lex_from_app_ws s ws2 LStart eq_refl H2). reflexivity.
Qed.

(* the code units of white space *)
Lemma js_space_cases c :
  is_js_space c = true ->
  c = 9 \/ c = 10 \/ c = 11 \/ c = 12 \/ c = 13 \/ c = 32 \/ 160 <= c.
Proof.
  unfold is_js_space. repeat rewrite orb_true_iff. rewrite andb_true_iff.
  rewrite !N.eqb_eq, !N.leb_le. lia.
Qed.

Lemma lex_string_spaces b : forall acc,
  forallb is_js_space b = true -> lex_from (LString acc) b = None.
Proof.
  induction b as [|c b IH]; intros acc Hb; [reflexivity|].
  simpl in Hb. apply andb_true_iff in Hb as [Hc Hb]. simpl.
  pose proof (js_space_cases _ Hc) as Hcases.
  destruct (N.eqb_spec c 34); [lia|]. destruct (N.eqb_spec c 92); [lia|].
  destruct (c <? 32); [reflexivity|]. rewrite (IH _ Hb). reflexivity.
Qed.

Lemma lex_step_space st c ts st' :
  keyword_state_ok st = true -> is_js_space c = true ->
  lex_step st c = Some (ts, st') ->
  is_json_ws c = true \/ exists acc, st' = LString acc.
Proof.
  intros Hok Hc H.
  assert (Hstart : forall ts st', lex_start c = Some (ts, st') -> is_json_ws c = true).
  { intros ts0 st0 E. apply lex_start_space; [assumption|congruence]. }
  assert (Hend : forall ph acc, lex_number_end ph acc c = Some (ts, st') -> is_json_ws c = true).
  { intros ph acc E. unfold lex_number_end in E.
    destruct (num_accepting ph); [|discriminate].
    destruct (lex_start c) as [[ts0 st0]|] eqn:E0; [|discriminate]. eauto. }
  pose proof (js_space_cases _ Hc) as Hcases.
  destruct st; simpl in H.
  - left. eauto.
  - right. destruct (N.eqb_spec c 34); [lia|]. destruct (N.eqb_spec c 92); [lia|].
    destruct (c <? 32); [discriminate|]. injection H as <- <-. eauto.
  - exfalso. unfold lex_escape in H.
    repeat match type of H with
    | (if ?a =? ?b then _ else _) = _ => destruct (N.eqb_spec a b); [lia|]
    end. discriminate.
  - exfalso. unfold hex_value in H.
    repeat match type of H with
    | context [?a <=? ?b] => destruct (N.leb_spec a b)
    end; simpl in H; try discriminate; lia.
  - exfalso. destruct expect as [|e [|e' rest]]; [discriminate| |];
      simpl in Hok; apply andb_true_iff in Hok as [He _];
      (destruct (N.eqb_spec c e) as [->|_]; [|discriminate]);
      rewrite Hc in He; discriminate.
  - left.
    destruct ph; simpl in H; unfold is_digit, is_exp_mark, is_sign in H;
    repeat match type of H with
    | context [?a =? ?b] => destruct (N.eqb_spec a b); [lia|]
    | context [?a <=? ?b] => destruct (N.leb_spec a b)
    end; simpl in H; try discriminate; try lia; eauto.
Qed.

Lemma lex_spaces_are_json_ws b : forall st out,
  keyword_state_ok st = true -> forallb is_js_space b = true ->
  lex_from st b = Some out -> forallb is_json_ws b = true.
Proof.
  induction b as [|c b IH]; intros st out Hok Hb H; [reflexivity|].
  simpl in Hb. apply andb_true_iff in Hb as [Hc Hb]. simpl in H.
  destruct (lex_step st c) as [[ts st']|] eqn:E; [|discriminate].
  destruct (lex_from st' b) as [out'|] eqn:E'; [|discriminate].
  destruct (lex_step_space _ _ _ _ Hok Hc E) as [Hws | [acc ->]].
  - simpl. rewrite Hws. simpl.
    apply (IH st' out'); eauto using lex_step_keeps_ok.
  - rewrite lex_string_spaces in E' by assumption. discriminate.
Qed.

Lemma lex_app_spaces a b : forall st out,
  keyword_state_ok st = true -> forallb is_js_space b = true ->
  lex_from st (a ++ b) = Some out -> forallb is_json_ws b = true.
Proof.
  induction a as [|c a IH]; intros st out Hok Hb H.
  - eapply lex_spaces_are_json_ws; eauto.
  - simpl in H. destruct (lex_step st c) as [[ts st']|] eqn:E; [|discriminate].
    destruct (lex_from st' (a ++ b)) as [out'|] eqn:E'; [|discriminate].
    apply (IH st' out'); eauto using lex_step_keeps_ok.
Qed.

Lemma trim_start_split s :
  exists pre, s = pre ++ trim_start s /\ forallb is_js_space pre = true.
Proof.
  induction s as [|c s (pre & Hs & Hpre)]; [exists []; split; reflexivity|].
  simpl. destruct (is_js_space c) eqn:E.
  - exists (c :: pre). split; [simpl; congruence | simpl; rewrite E; assumption].
  - exists []. split; reflexivity.
Qed.

Lemma forallb_rev {A} (f : A -> bool) l : forallb f (rev l) = forallb f l.
Proof.
  induction l as [|x l IH]; [reflexivity|].
  simpl. rewrite forallb_app, IH. simpl. rewrite andb_true_r. apply andb_comm.
Qed.

Lemma trim_end_split s :
  exists post, s = trim_end s ++ post /\ forallb is_js_space post = true.
Proof.
  destruct (trim_start_split (rev s)) as (pre & Hs & Hpre).
  exists (rev pre). split.
  - unfold trim_end. rewrite <- rev_app_distr, <- Hs, rev_involutive. reflexivity.
  - rewrite forallb_rev. assumption.
Qed.

Lemma trim_start_spaces pre s :
  forallb is_js_space pre = true -> trim_start (pre ++ s) = trim_start s.
Proof.
  induction pre as [|c pre IH]; intros H; [reflexivity|].
  simpl in H. apply andb_true_iff in H as [Hc H]. simpl. rewrite Hc. auto.
Qed.

Lemma trim_end_spaces s post :
  forallb is_js_space post = true -> trim_end (s ++ post) = trim_end s.
Proof.
  intros H. unfold trim_end. rewrite rev_app_distr, trim_start_spaces; [reflexivity|].
  rewrite forallb_rev. assumption.
Qed.

Lemma trim_start_head s c r : trim_start s = c :: r -> is_js_space c = false.
Proof.
  induction s as [|d s IH]; [discriminate|]. simpl.
  destruct (is_js_space d) eqn:E; [assumption|]. intros [= -> _]. assumption.
Qed.

Lemma trim_start_app s t : trim_start s <> [] -> trim_start (s ++ t) = trim_start s ++ t.
Proof.
  induction s as [|c s IH]; intros H; [contradiction|].
  simpl in *. destruct (is_js_space c); auto.
Qed.

Lemma trim_end_keeps_head c r :
  is_js_space c = false -> exists r', trim_end (c :: r) = c :: r'.
Proof.
  intros Hc. unfold trim_end. simpl.
  assert (H : forall l, exists l', trim_start (l ++ [c]) = l' ++ [c]).
  { induction l as [|d l [l' IH]]; simpl.
    - rewrite Hc. exists []. reflexivity.
    - destruct (is_js_space d); [eauto|]. exists (d :: l). reflexivity. }
  destruct (H (rev r)) as [l' ->]. rewrite rev_app_distr. simpl. eauto.
Qed.

(* trimming a text that scans keeps its tokens *)
Lemma lex_trim_start s ts : lex s = Some ts -> lex (trim_start s) = Some ts.
Proof.
  destruct (trim_start_split s) as (pre & Hs & Hpre). intros H.
  rewrite Hs in H. unfold lex in *.
  assert (Hws : forallb is_json_ws pre = true).
  { clear Hs. induction pre as [|c pre IH]; [reflexivity|].
    simpl in Hpre. apply andb_true_iff in Hpre as [Hc Hpre].
    simpl in H. destruct (lex_start c) as [[ts0 st0]|] eqn:E; [|discriminate].
    assert (Hc' : is_json_ws c = true) by (apply lex_start_space; congruence).
    simpl. rewrite Hc'. unfold lex_start in E. rewrite Hc' in E.
    injection E as <- <-. apply IH; [assumption|].
    destruct (lex_from LStart (pre ++ trim_start s)); [|discriminate].
    simpl in H. rewrite <- H. reflexivity. }
  rewrite <- H. symmetry. apply (lex_ws_app pre (trim_start s) Hws).
Qed.

Lemma lex_trim_end s ts : lex s = Some ts -> lex (trim_end s) = Some ts.
Proof.
  destruct (trim_end_split s) as (post & Hs & Hpost). intros H.
  rewrite Hs in H. unfold lex in *.
  pose proof (lex_app_spaces _ _ LStart _ eq_refl Hpost H) as Hws.
  rewrite lex_from_app_ws in H by auto. assumption.
Qed.

Lemma lex_trim s ts : lex s = Some ts -> lex (trim s) = Some ts.
Proof. intros H. unfold trim. auto using lex_trim_end, lex_trim_start. Qed.

Lemma JSON_parse_tokens s v :
  JSON_parse s = Some v -> exists t ts, lex s = Some (t :: ts).
Proof.
  unfold JSON_parse. destruct (lex s) as [[|t ts]|]; try discriminate; eauto.
Qed.

Lemma JSON_parse_by_tokens s s' : lex s = lex s' -> JSON_parse s = JSON_parse s'.
Proof. unfold JSON_parse. intros ->. reflexivity. Qed.

Lemma JSON_parse_trim_start s v : JSON_parse s = Some v -> JSON_parse (trim_start s) = Some v.
Proof.
  intros H. destruct (JSON_parse_tokens _ _ H) as (t & ts & Hl).
  rewrite <- H. apply JSON_parse_by_tokens. rewrite Hl. apply lex_trim_start, Hl.
Qed.

Lemma JSON_parse_trim s v : JSON_parse s = Some v -> JSON_parse (trim s) = Some v.
Proof.
  intros H. destruct (JSON_parse_tokens _ _ H) as (t & ts & Hl).
  rewrite <- H. apply JSON_parse_by_tokens. rewrite Hl. apply lex_trim, Hl.
Qed.

(* a JSON text has a first character that is no space and starts a token *)
Lemma JSON_text_head s v :
  JSON_parse s = Some v ->
  exists c r, trim_start s = c :: r /\ is_js_space c = false /\ lex_start c <> None.
Proof.
  intros H. destruct (JSON_parse_tokens _ _ H) as (t & ts & Hl).
  apply lex_trim_start in Hl.
  destruct (trim_start s) as [|c r] eqn:E; [discriminate|].
  exists c, r. split; [reflexivity|]. split; [eapply trim_start_head; eauto|].
  unfold lex in Hl. simpl in Hl. destruct (lex_start c); [discriminate|discriminate].
Qed.

End JsonText.

(* ===================================================================== *)
(** * Properties of the PRD engine *)
(* ===================================================================== *)

Section Engine.
Import PRDEngine.

(** ** Fenced responses *)

Lemma trim_fenced pre x post :
  forallb is_js_space pre = true -> forallb is_js_space post = true ->
  trim (pre ++ fence ++ x ++ fence ++ post) = fence ++ x ++ fence.
Proof.
  intros Hpre Hpost. unfold trim.
  rewrite trim_start_spaces by assumption.
  change (trim_start (fence ++ x ++ fence ++ post)) with (fence ++ x ++ fence ++ post).
  replace (fence ++ x ++ fence ++ post) with ((fence ++ x ++ fence) ++ post)
    by (rewrite <- !app_assoc; reflexivity).
  rewrite trim_end_spaces by assumption.
  unfold trim_end. rewrite !rev_app_distr.
  change (rev fence) with fence. rewrite <- app_assoc.
  change (trim_start (fence ++ rev x ++ fence)) with (fence ++ rev x ++ fence).
  rewrite !rev_app_distr, rev_involutive. change (rev fence) with fence.
  rewrite <- app_assoc. reflexivity.
Qed.

Lemma strip_closing_fence_last z : strip_closing_fence (z ++ fence) = z.
Proof.
  assert (Hend : forall k (w : list N), (k <= length w)%nat ->
            forallb is_js_space (skipn k (w ++ [96])) = false).
  { intros k w. revert k. induction w as [|c w IH]; intros k Hk.
    - simpl in Hk. replace k with 0%nat by lia. reflexivity.
    - destruct k as [|k]; simpl.
      + rewrite forallb_app. simpl. rewrite andb_false_r. apply andb_false_r.
      + apply IH. simpl in Hk. lia. }
  induction z as [|c z IH]; [reflexivity|].
  cbn [app strip_closing_fence].
  replace (forallb is_js_space (skipn 3 (c :: z ++ fence))) with false.
  - rewrite andb_false_r, IH. reflexivity.
  - symmetry. change (c :: z ++ fence) with ((c :: z) ++ [96; 96] ++ [96]).
    rewrite app_assoc. apply Hend. rewrite length_app. simpl. lia.
Qed.

Lemma lex_start_not_j : lex_start 106 = None.
Proof. reflexivity. Qed.

Lemma lex_start_not_backtick : lex_start 96 = None.
Proof. reflexivity. Qed.

Lemma strip_opening_fence_tagged (tagged : bool) sep1 payload rest v :
  forallb is_js_space sep1 = true -> JSON_parse payload = Some v ->
  strip_opening_fence
    (fence ++ (if tagged then u16 "json" else []) ++ sep1 ++ payload ++ rest)
  = trim_start payload ++ rest.
Proof.
  intros Hsep Hv.
  destruct (JSON_text_head _ _ Hv) as (c & r & Hc & Hsp & Hst).
  assert (Hne : trim_start payload <> []) by (rewrite Hc; discriminate).
  assert (Htrim : trim_start (sep1 ++ payload ++ rest) = trim_start payload ++ rest).
  { rewrite trim_start_spaces by assumption. apply trim_start_app, Hne. }
  assert (Hj : starts_with (u16 "json") (sep1 ++ payload ++ rest) = false).
  { change (u16 "json") with [106; 115; 111; 110].
    destruct sep1 as [|d sep1].
    - destruct payload as [|d payload]; [discriminate|].
      simpl in Hc. cbn [starts_with app].
      destruct (N.eqb_spec 106 d) as [<-|]; [|reflexivity].
      exfalso. destruct (is_js_space 106) eqn:E; [discriminate|].
      injection Hc as <- _. apply Hst. reflexivity.
    - simpl in Hsep. apply andb_true_iff in Hsep as [Hd _].
      cbn [starts_with app].
      destruct (N.eqb_spec 106 d) as [<-|]; [discriminate|reflexivity]. }
  unfold strip_opening_fence. destruct tagged.
  - cbn. exact Htrim.
  - change (fence ++ [] ++ sep1 ++ payload ++ rest)
      with (96 :: 96 :: 96 :: sep1 ++ payload ++ rest).
    change (starts_with fence (96 :: 96 :: 96 :: sep1 ++ payload ++ rest)) with true.
    change (skipn 3 (96 :: 96 :: 96 :: sep1 ++ payload ++ rest))
      with (sep1 ++ payload ++ rest).
    cbv iota zeta. rewrite Hj. exact Htrim.
Qed.

Lemma strip_fences_fenced pre tagged sep1 payload sep2 post v :
  forallb is_js_space pre = true -> forallb is_js_space sep1 = true ->
  forallb is_js_space post = true -> JSON_parse payload = Some v ->
  strip_fences (wrap_in_fences pre tagged sep1 payload sep2 post)
  = trim_start payload ++ sep2.
Proof.
  intros Hpre Hsep1 Hpost Hv. unfold strip_fences, wrap_in_fences.
  replace (pre ++ fence ++ (if tagged then u16 "json" else []) ++ sep1 ++ payload ++ sep2 ++ fence ++ post)
    with (pre ++ fence ++ ((if tagged then u16 "json" else []) ++ sep1 ++ payload ++ sep2) ++ fence ++ post)
    by (rewrite <- !app_assoc; reflexivity).
  rewrite trim_fenced by assumption.
  change (starts_with fence (fence ++ ?x)) with true. cbv iota.
  rewrite <- !app_assoc.
  rewrite (strip_opening_fence_tagged tagged sep1 payload (sep2 ++ fence) v) by assumption.
  rewrite app_assoc. apply strip_closing_fence_last.
Qed.

Lemma strip_fences_bare payload v :
  JSON_parse payload = Some v -> strip_fences payload = trim payload.
Proof.
  intros Hv. destruct (JSON_text_head _ _ Hv) as (c & r & Hc & Hsp & Hst).
  unfold strip_fences, trim. rewrite Hc.
  destruct (trim_end_keeps_head c r Hsp) as [r' ->].
  unfold fence. cbn [starts_with].
  destruct (N.eqb_spec 96 c) as [<-|]; [|reflexivity].
  exfalso. apply Hst. reflexivity.
Qed.

Lemma parse_fenced pre tagged sep1 payload sep2 post v :
  forallb is_js_space pre = true -> forallb is_js_space sep1 = true ->
  forallb is_json_ws sep2 = true -> forallb is_js_space post = true ->
  JSON_parse payload = Some v ->
  JSON_parse (strip_fences (wrap_in_fences pre tagged sep1 payload sep2 post)) = Some v
  /\ JSON_parse (strip_fences payload) = Some v.
Proof.
  intros Hpre Hsep1 Hsep2 Hpost Hv. split.
  - rewrite (strip_fences_fenced _ _ _ _ _ _ v) by assumption.
    apply JSON_parse_trim_start in Hv.
    rewrite <- (JSON_parse_padded [] (trim_start payload) sep2 eq_refl Hsep2) in Hv.
    exact Hv.
  - rewrite (strip_fences_bare _ v Hv). apply JSON_parse_trim, Hv.
Qed.

(** ** The engine at work *)

Example strip_fences_of_fenced_answer :
  strip_fences (fence ++ u16 "json" ++ [10] ++ u16 "{}" ++ [10] ++ fence ++ [10])
  = u16 "{}" ++ [10].
Proof. reflexivity. Qed.

(** A response cut short keeps no fence either. *)
Example strip_fences_without_closing_fence :
  strip_fences (fence ++ u16 "json" ++ [10] ++ u16 "{}") = u16 "{}".
Proof. reflexivity. Qed.

(** The scenario of the specification: the gateway returns a specification
    whose target users are dog owners. *)
Example synthesize_dog_food :
  synthesize (answering Samples.answer_text) Samples.sample_update
  = Return
      {| spec :=
           FromModel
             (JSValue
                (JObj [(u16 "plainEnglishSummary",
                        JObj [(u16 "targetUsers", JStr (u16 "Dog owners"))])]));
         missingSections := [JStr (u16 "flows")] |}.
Proof. reflexivity. Qed.

(** Responses the [catch] branch takes care of: [null], on which no
    property can be read; a [missingSections] that has no [join]; one whose
    items cannot be converted to strings. *)
Example synthesize_null :
  synthesize (answering (u16 "null")) Samples.sample_update
  = Return (fallback Samples.sample_update).
Proof. reflexivity. Qed.

Example synthesize_missing_sections_not_an_array :
  synthesize (answering (jtext "{'spec': {}, 'missingSections': 'flows'}"))
    Samples.sample_update
  = Return (fallback Samples.sample_update).
Proof. reflexivity. Qed.

Example synthesize_missing_sections_not_printable :
  synthesize (answering (jtext "{'spec': {}, 'missingSections': [{'toString': 1}]}"))
    Samples.sample_update
  = Return (fallback Samples.sample_update).
Proof. reflexivity. Qed.

(** ** The ways a call can go *)

Section Synthesize.
Variable llmRouter : LLMRouter.
Variable input : PRDEngineInput.

Lemma synthesize_rejected e :
  complete llmRouter (request_of input) = Throw e ->
  synthesize llmRouter input = Return (fallback input).
Proof. intros H. unfold synthesize. rewrite H. reflexivity. Qed.

Lemma synthesize_malformed response :
  complete llmRouter (request_of input) = Return response ->
  JSON_parse (strip_fences (response_content response)) = None ->
  synthesize llmRouter input = Return (fallback input).
Proof.
  intros H Hp. unfold synthesize, JSON_parse_or_throw. rewrite H. cbn.
  rewrite Hp. reflexivity.
Qed.

Lemma synthesize_parsed response v :
  complete llmRouter (request_of input) = Return response ->
  JSON_parse (strip_fences (response_content response)) = Some v ->
  synthesize llmRouter input =
  try_catch
    (missing ← get_property v (u16 "missingSections");
     sections ← missing_sections_of missing;
     spec_value ← get_property v (u16 "spec");
     mret {| spec := FromModel spec_value; missingSections := sections |})
    (fun _ => Return (fallback input)).
Proof.
  intros H Hp. unfold synthesize, JSON_parse_or_throw. rewrite H. cbn.
  rewrite Hp. reflexivity.
Qed.

Lemma synthesize_returns : exists out, synthesize llmRouter input = Return out.
Proof.
  unfold synthesize.
  match goal with |- exists out, try_catch ?b ?h = _ => destruct b as [out|e] end;
    simpl; eauto.
Qed.
End Synthesize.

(** C1. The input on which the claim fails: a response that is valid JSON
    but has no [spec] member. Whatever the input, [synthesize] then returns
    [undefined] as the specification and an empty list of missing sections;
    it does not fall back to the input specification and the default list. *)
Theorem synthesize_without_spec_key (input : PRDEngineInput) :
  synthesize (answering (u16 "{}")) input
    = Return {| spec := FromModel JSUndefined; missingSections := [] |}
  /\ synthesize (answering (u16 "{}")) input <> Return (fallback input).
Proof.
  assert (H : synthesize (answering (u16 "{}")) input
              = Return {| spec := FromModel JSUndefined; missingSections := [] |})
    by reflexivity.
  split; [exact H|]. rewrite H. discriminate.
Qed.

(** C2, counterexample: the gateway rejects the request, and [synthesize]
    returns the fallback instead of failing. *)
Lemma gateway_failure_is_swallowed :
  complete (rejecting Samples.timeout) (request_of Samples.sample_update)
    = Throw Samples.timeout
  /\ synthesize (rejecting Samples.timeout) Samples.sample_update
    = Return (fallback Samples.sample_update).
Proof. split; reflexivity. Qed.

(** C2, as amended: [synthesize] never throws. The gateway call is inside
    the [try] block, so its failure is caught like a malformed response, and
    in both cases the result is the unchanged input specification with the
    default list of missing sections. *)
Theorem synthesize_never_throws (llmRouter : LLMRouter) (input : PRDEngineInput) :
  (exists out, synthesize llmRouter input = Return out)
  /\ (forall e, complete llmRouter (request_of input) = Throw e ->
        synthesize llmRouter input = Return (fallback input))
  /\ (forall response,
        complete llmRouter (request_of input) = Return response ->
        JSON_parse (strip_fences (response_content response)) = None ->
        synthesize llmRouter input = Return (fallback input)).
Proof.
  split; [apply synthesize_returns|]. split.
  - apply synthesize_rejected.
  - apply synthesize_malformed.
Qed.

Lemma synthesize_never_throws_witness :
  synthesize (rejecting Samples.timeout) Samples.sample_update
    = Return (fallback Samples.sample_update).
Proof.
  apply (proj1 (proj2 (synthesize_never_throws (rejecting Samples.timeout)
                         Samples.sample_update)) Samples.timeout).
  reflexivity.
Defined.

(** C3, counterexample: a finalize call whose response is no JSON reports
    the four default sections as missing. *)
Lemma finalize_reports_default_sections :
  exists out,
    synthesize (answering (u16 "Sorry, I cannot help with that."))
      Samples.sample_finalize = Return out
    /\ missingSections out <> [].
Proof. eexists. split; [reflexivity|]. discriminate. Qed.

Lemma missing_sections_of_nil missing :
  missing_sections_of missing = Return [] <->
  (missing = JSUndefined \/ missing = JSValue JNull \/ missing = JSValue (JArr [])).
Proof.
  split.
  - destruct missing as [|[]]; simpl; try discriminate; auto.
    destruct (existsb to_string_throws items); [discriminate|].
    intros [= ->]. auto.
  - intros [-> | [-> | ->]]; reflexivity.
Qed.

Lemma bind_Return {A B} (a : A) (f : A -> outcome B) : (Return a ≫= f) = f a.
Proof. reflexivity. Qed.

Lemma bind_Throw {A B} (e : js_error) (f : A -> outcome B) : (Throw e ≫= f) = Throw e.
Proof. reflexivity. Qed.

Lemma get_spec_returns v missing :
  get_property v (u16 "missingSections") = Return missing ->
  exists sp, get_property v (u16 "spec") = Return sp.
Proof.
  destruct v; try discriminate; intros _; unfold get_property; eauto.
  destruct (lookup_member (u16 "spec") members); eauto.
Qed.

(* the list of missing sections, case by case *)
Lemma synthesize_missing_sections llmRouter input :
  exists out,
    synthesize llmRouter input = Return out
    /\ missingSections out =
       match complete llmRouter (request_of input) with
       | Throw _ =>
           [JStr (u16 "overview"); JStr (u16 "targetUsers");
            JStr (u16 "keyFeatures"); JStr (u16 "flows")]
       | Return response =>
           match JSON_parse (strip_fences (response_content response)) with
           | None | Some JNull =>
               [JStr (u16 "overview"); JStr (u16 "targetUsers");
                JStr (u16 "keyFeatures"); JStr (u16 "flows")]
           | Some (JObj members) =>
               match lookup_member (u16 "missingSections") members with
               | None | Some JNull => []
               | Some (JArr items) =>
                   if existsb to_string_throws items
                   then [JStr (u16 "overview"); JStr (u16 "targetUsers");
                         JStr (u16 "keyFeatures"); JStr (u16 "flows")]
                   else items
               | Some _ =>
                   [JStr (u16 "overview"); JStr (u16 "targetUsers");
                    JStr (u16 "keyFeatures"); JStr (u16 "flows")]
               end
           | Some _ => []
           end
       end.
Proof.
  destruct (complete llmRouter (request_of input)) as [response|e] eqn:Hc.
  - destruct (JSON_parse (strip_fences (response_content response))) as [v|] eqn:Hp.
    + rewrite (synthesize_parsed _ _ _ _ Hc Hp).
      destruct v as [|b|l|t|items|members]; try (eexists; split; reflexivity).
      unfold get_property.
      destruct (lookup_member (u16 "missingSections") members) as [x|].
      * rewrite bind_Return.
        destruct x as [|b|l|t|items|ms]; try (eexists; split; reflexivity).
        -- unfold missing_sections_of. rewrite bind_Return.
           destruct (lookup_member (u16 "spec") members); eexists; split; reflexivity.
        -- unfold missing_sections_of.
           destruct (existsb to_string_throws items); [eexists; split; reflexivity|].
           rewrite bind_Return.
           destruct (lookup_member (u16 "spec") members); eexists; split; reflexivity.
      * rewrite !bind_Return.
        destruct (lookup_member (u16 "spec") members); eexists; split; reflexivity.
    + rewrite (synthesize_malformed _ _ _ Hc Hp). eexists. split; reflexivity.
  - rewrite (synthesize_rejected _ _ _ Hc). eexists. split; reflexivity.
Qed.

(** C3, as amended: a finalize call always returns. Its list of missing
    sections is empty exactly when the gateway answered with a JSON text
    whose [missingSections] is absent, [null] or an empty array. It is the
    array the response has under [missingSections] when that is an array
    whose items can all be converted to strings, and the four default
    sections in every other case: the gateway failed, the response is no
    JSON text or is [null], or its [missingSections] is neither [null] nor
    such an array. A response is handled in finalize mode as it is in update
    mode. *)
Theorem finalize_missing_sections (llmRouter : LLMRouter) (s : Specification) :
  (exists out,
     synthesize llmRouter (finalize s) = Return out
     /\ (missingSections out = [] <->
         exists response,
           complete llmRouter (request_of (finalize s)) = Return response
           /\ reports_nothing_missing (response_content response) = true)
     /\ missingSections out =
        match complete llmRouter (request_of (finalize s)) with
        | Throw _ =>
            [JStr (u16 "overview"); JStr (u16 "targetUsers");
             JStr (u16 "keyFeatures"); JStr (u16 "flows")]
        | Return response =>
            match JSON_parse (strip_fences (response_content response)) with
            | None | Some JNull =>
                [JStr (u16 "overview"); JStr (u16 "targetUsers");
                 JStr (u16 "keyFeatures"); JStr (u16 "flows")]
            | Some (JObj members) =>
                match lookup_member (u16 "missingSections") members with
                | None | Some JNull => []
                | Some (JArr items) =>
                    if existsb to_string_throws items
                    then [JStr (u16 "overview"); JStr (u16 "targetUsers");
                          JStr (u16 "keyFeatures"); JStr (u16 "flows")]
                    else items
                | Some _ =>
                    [JStr (u16 "overview"); JStr (u16 "targetUsers");
                     JStr (u16 "keyFeatures"); JStr (u16 "flows")]
                end
            | Some _ => []
            end
        end)
  /\ (forall text lastMessages isFirstRun,
        synthesize (answering text) (finalize s)
        = synthesize (answering text) (update s lastMessages isFirstRun)).
Proof.
  split; [|reflexivity].
  assert (Hempty : exists out,
             synthesize llmRouter (finalize s) = Return out
             /\ (missingSections out = [] <->
                 exists response,
                   complete llmRouter (request_of (finalize s)) = Return response
                   /\ reports_nothing_missing (response_content response) = true)).
  {
    destruct (complete llmRouter (request_of (finalize s))) as [response|e] eqn:Hc.
    - unfold reports_nothing_missing.
      destruct (JSON_parse (strip_fences (response_content response))) as [v|] eqn:Hp.
      + rewrite (synthesize_parsed _ _ _ _ Hc Hp).
        destruct (get_property v (u16 "missingSections")) as [missing|e] eqn:Hm.
        * destruct (get_spec_returns _ _ Hm) as [sp Hs].
          rewrite bind_Return.
          destruct (missing_sections_of missing) as [sections|e] eqn:Hs'.
          -- rewrite bind_Return, Hs, bind_Return.
             eexists. split; [reflexivity|]. cbn [missingSections]. split.
             ++ intros ->. exists response. split; [reflexivity|]. rewrite Hp, Hm.
                apply missing_sections_of_nil in Hs'.
                destruct Hs' as [-> | [-> | ->]]; reflexivity.
             ++ intros (r & [= <-] & Hr). rewrite Hp, Hm in Hr.
                destruct missing as [|[]]; try discriminate; simpl in Hs'; try congruence.
                destruct items; [|discriminate]. simpl in Hs'. congruence.
          -- rewrite bind_Throw. eexists. split; [reflexivity|].
             cbn [missingSections fallback]. split; [discriminate|].
             intros (r & [= <-] & Hr). rewrite Hp, Hm in Hr.
             destruct missing as [|[]]; try discriminate.
             destruct items; discriminate.
        * rewrite bind_Throw. eexists. split; [reflexivity|].
          cbn [missingSections fallback]. split; [discriminate|].
          intros (r & [= <-] & Hr). rewrite Hp, Hm in Hr. discriminate.
      + rewrite (synthesize_malformed _ _ _ Hc Hp).
        eexists. split; [reflexivity|]. cbn [missingSections fallback].
        split; [discriminate|].
        intros (r & [= <-] & Hr). rewrite Hp in Hr. discriminate.
    - rewrite (synthesize_rejected _ _ _ Hc).
      eexists. split; [reflexivity|]. cbn [missingSections fallback].
      split; [discriminate|].
      intros (r & Hr & _). discriminate.
  }
  destruct Hempty as (out & Hs & Hiff).
  destruct (synthesize_missing_sections llmRouter (finalize s)) as (out' & Hs' & Htable).
  rewrite Hs in Hs'. injection Hs' as <-.
  exists out. split; [exact Hs|]. split; [exact Hiff|exact Htable].
Qed.

(** C9, counterexample: behind a fence tagged [javascript] the same payload
    is not parsed, and the result is the fallback. *)
Lemma fence_with_other_tag_is_not_parsed :
  synthesize (answering Samples.answer_in_javascript_fence) Samples.sample_update
  <> synthesize (answering Samples.answer_text) Samples.sample_update.
Proof. vm_compute. discriminate. Qed.

(** C9, as amended: a JSON text between an opening fence that is bare or
    tagged [json] and a closing fence, with any white space around the
    fences and JSON white space before the closing one, gives the same
    result as the text alone. *)
Theorem fenced_response_parses_identically
  (input : PRDEngineInput) (pre : jsstring) (tagged : bool)
  (sep1 payload sep2 post : jsstring) (v : json) :
  forallb is_js_space pre = true ->
  forallb is_js_space sep1 = true ->
  forallb is_json_ws sep2 = true ->
  forallb is_js_space post = true ->
  JSON_parse payload = Some v ->
  synthesize (answering (wrap_in_fences pre tagged sep1 payload sep2 post)) input
  = synthesize (answering payload) input.
Proof.
  intros Hpre Hsep1 Hsep2 Hpost Hv.
  destruct (parse_fenced pre tagged sep1 payload sep2 post v) as [Hf Hb]; try assumption.
  rewrite (synthesize_parsed
             (answering (wrap_in_fences pre tagged sep1 payload sep2 post)) input
             {| response_content := wrap_in_fences pre tagged sep1 payload sep2 post |}
             v eq_refl Hf).
  rewrite (synthesize_parsed (answering payload) input
             {| response_content := payload |} v eq_refl Hb).
  reflexivity.
Qed.

Lemma fenced_response_parses_identically_witness :
  synthesize (answering Samples.answer_in_json_fence) Samples.sample_update
  = synthesize (answering Samples.answer_text) Samples.sample_update.
Proof.
  apply (fenced_response_parses_identically Samples.sample_update [] true [10]
           Samples.answer_text [10] []
           (JObj [(u16 "spec", JObj [(u16 "plainEnglishSummary", JObj [(u16 "targetUsers", JStr (u16 "Dog owners"))])]);
                  (u16 "missingSections", JArr [JStr (u16 "flows")])]));
    reflexivity.
Defined.

(** C10. When the response parses to an object without a [missingSections]
    member, or with [null] there, [synthesize] returns an empty list of
    missing sections (not the default list) next to [result.spec]. *)
Theorem absent_missing_sections_mean_none
  (llmRouter : LLMRouter) (input : PRDEngineInput)
  (response : CompletionResponse) (members : list (jsstring * json)) :
  complete llmRouter (request_of input) = Return response ->
  JSON_parse (strip_fences (response_content response)) = Some (JObj members) ->
  lookup_member (u16 "missingSections") members = None
  \/ lookup_member (u16 "missingSections") members = Some JNull ->
  exists out,
    synthesize llmRouter input = Return out
    /\ missingSections out = []
    /\ spec out = FromModel (match lookup_member (u16 "spec") members with
                             | Some x => JSValue x
                             | None => JSUndefined
                             end).
Proof.
  intros Hc Hp Hm. rewrite (synthesize_parsed _ _ _ _ Hc Hp).
  unfold get_property.
  assert (Hs : missing_sections_of
                 (match lookup_member (u16 "missingSections") members with
                  | Some x => JSValue x
                  | None => JSUndefined
                  end) = Return []) by (destruct Hm as [-> | ->]; reflexivity).
  destruct (lookup_member (u16 "missingSections") members);
    rewrite bind_Return, Hs, bind_Return;
    destruct (lookup_member (u16 "spec") members);
    rewrite bind_Return; eexists; repeat split.
Qed.

Lemma absent_missing_sections_mean_none_witness :
  exists out,
    synthesize (answering Samples.answer_without_missing) Samples.sample_update
      = Return out
    /\ missingSections out = []
    /\ spec out =
       FromModel
         (JSValue
            (JObj [(u16 "plainEnglishSummary",
                    JObj [(u16 "targetUsers", JStr (u16 "Dog owners"))])])).
Proof.
  apply (absent_missing_sections_mean_none
           (answering Samples.answer_without_missing) Samples.sample_update
           {| response_content := Samples.answer_without_missing |}
           [(u16 "spec",
             JObj [(u16 "plainEnglishSummary",
                    JObj [(u16 "targetUsers", JStr (u16 "Dog owners"))])])]).
  - reflexivity.
  - vm_compute. reflexivity.
  - left. reflexivity.
Defined.

End Engine.

(* ===================================================================== *)
(** * Properties of the session manager *)
(* ===================================================================== *)

Section Sessions.
Import SessionManager.
#[local] Open Scope Z_scope.

(** ** Ordering rows *)

Section OrderByFacts.
Context {A : Type} (before : A -> A -> bool).
Hypothesis before_total : forall a b, before a b = true \/ before b a = true.

Lemma insert_sorted_perm x l : Permutation (insert_sorted before x l) (x :: l).
Proof.
  induction l as [|y l IH]; simpl; [reflexivity|].
  destruct (before x y); [reflexivity|].
  rewrite IH. apply perm_swap.
Qed.

Lemma order_by_perm l : Permutation (order_by before l) l.
Proof.
  induction l as [|x l IH]; simpl; [reflexivity|].
  rewrite insert_sorted_perm. constructor. exact IH.
Qed.

Lemma insert_sorted_sorted x l :
  Sorted (fun a b => before a b = true) l ->
  Sorted (fun a b => before a b = true) (insert_sorted before x l).
Proof.
  induction 1 as [|y l Hs IH Hhd]; simpl; [repeat constructor|].
  destruct (before x y) eqn:E.
  - constructor; [constructor; assumption|]. constructor. exact E.
  - constructor; [exact IH|].
    destruct (before_total x y) as [Hxy|Hyx]; [congruence|].
    destruct l as [|z l]; simpl; [constructor; exact Hyx|].
    destruct (before x z); constructor; [exact Hyx|].
    inversion Hhd; assumption.
Qed.

Lemma order_by_sorted l : Sorted (fun a b => before a b = true) (order_by before l).
Proof.
  induction l as [|x l IH]; simpl; [constructor|].
  apply insert_sorted_sorted, IH.
Qed.

(* a list already in order is returned as it is *)
Lemma order_by_in_order l :
  Sorted (fun a b => before a b = true) l -> order_by before l = l.
Proof.
  induction 1 as [|x l Hs IH Hhd]; simpl; [reflexivity|].
  rewrite IH. destruct Hhd as [|y l Hxy]; simpl; [reflexivity|].
  rewrite Hxy. reflexivity.
Qed.
End OrderByFacts.

(** ** Running a method *)


Lemma bind_run {A B} (m : M A) (f : A -> M B) w :
  (m ≫= f) w = match m w with
               | (Return a, w') => f a w'
               | (Throw e, w') => (Throw e, w')
               end.
Proof. reflexivity. Qed.

Lemma sql_no_fault {A} (statement : database -> A * database) w :
  sql_faults w = [] ->
  sql statement w = (Return (statement (db w)).1, with_db w (statement (db w)).2).
Proof. intros H. unfold sql. rewrite H. destruct (statement (db w)). reflexivity. Qed.

Lemma query_no_fault {A} (q : database -> A) w :
  sql_faults w = [] -> query q w = (Return (q (db w)), with_db w (db w)).
Proof. intros H. unfold query. rewrite sql_no_fault by assumption. reflexivity. Qed.

Lemma exec_no_fault (u : database -> database) w :
  sql_faults w = [] -> exec u w = (Return tt, with_db w (u (db w))).
Proof. intros H. unfold exec. rewrite sql_no_fault by assumption. reflexivity. Qed.

(* every awaited statement either rejects, leaving the tables alone, or
   runs *)
Lemma sql_cases {A} (statement : database -> A * database) w :
  exists fs,
    sql statement w
      = (Return (statement (db w)).1,
         with_db (with_sql_faults w fs) (statement (db w)).2)
    \/ exists e, sql statement w = (Throw e, with_sql_faults w fs).
Proof.
  unfold sql. destruct (sql_faults w) as [|[e|] rest] eqn:E.
  - exists []. left. destruct (statement (db w)). destruct w; simpl in *. subst. reflexivity.
  - exists rest. right. eauto.
  - exists rest. left. destruct (statement (db w)). reflexivity.
Qed.

Lemma with_db_same w : with_db w (db w) = w.
Proof. destruct w. reflexivity. Qed.

Lemma query_free {A} (q : database -> A) w :
  sql_faults w = [] -> query q w = (Return (q (db w)), w).
Proof. intros H. rewrite query_no_fault, with_db_same by assumption. reflexivity. Qed.

Lemma updateLastAccessedTime_free sessionId w :
  sql_faults w = [] ->
  updateLastAccessedTime sessionId w = (Return tt, touched sessionId w).
Proof.
  intros H. unfold updateLastAccessedTime. rewrite bind_run. unfold now at 1.
  rewrite exec_no_fault by exact H. reflexivity.
Qed.

Lemma getSession_free sessionId w :
  sql_faults w = [] ->
  getSession sessionId w =
  match select_session sessionId (db w) with
  | [] => (Return None, w)
  | sessionRow :: _ =>
      (Return (Some (session_view sessionId sessionRow (db w))), touched sessionId w)
  end.
Proof.
  intros H. unfold getSession. rewrite bind_run, query_free by exact H.
  destruct (select_session sessionId (db w)) as [|sessionRow rest]; [reflexivity|].
  rewrite bind_run, query_free by exact H.
  rewrite bind_run, query_free by exact H.
  unfold session_view.
  destruct (read_specification sessionId sessionRow
              (select_latest_specification sessionId (db w))) as [sp pr].
  rewrite bind_run, updateLastAccessedTime_free by exact H. reflexivity.
Qed.

Lemma restore_free token w :
  sql_faults w = [] ->
  restoreSessionFromMagicLink token w =
  match select_by_token token (db w) with
  | [] => (Throw invalid_token, w)
  | row :: _ =>
      match select_session (id row) (db w) with
      | [] => (Throw session_not_found, w)
      | sessionRow :: _ =>
          (Return (session_view (id row) sessionRow (db w)), touched (id row) w)
      end
  end.
Proof.
  intros H. unfold restoreSessionFromMagicLink.
  rewrite bind_run, query_free by exact H.
  destruct (select_by_token token (db w)) as [|row rest]; [reflexivity|].
  rewrite bind_run, getSession_free by exact H.
  destruct (select_session (id row) (db w)); reflexivity.
Qed.

Lemma generateMagicLink_free sessionId w :
  sql_faults w = [] ->
  generateMagicLink sessionId w =
  (Return (uuid_stream w (uuid_drawn w)),
   {| db := update_sessions (set_magic_link_token (uuid_stream w (uuid_drawn w)))
              sessionId (db w);
      sql_faults := sql_faults w; uuid_stream := uuid_stream w;
      uuid_drawn := S (uuid_drawn w); clock := clock w; window := window w |}).
Proof.
  intros H. unfold generateMagicLink. rewrite bind_run. unfold uuidv4 at 1.
  rewrite bind_run, exec_no_fault by exact H. reflexivity.
Qed.

Lemma for_each_insert_free sessionId msgs : forall w,
  sql_faults w = [] ->
  for_each msgs (fun message => exec (insert_message (row_of_message sessionId message))) w
  = (Return tt,
     with_db w {| sessions := sessions (db w);
                  messages := messages (db w) ++ List.map (row_of_message sessionId) msgs;
                  specifications := specifications (db w) |}).
Proof.
  induction msgs as [|m msgs IH]; intros w H.
  - simpl. rewrite app_nil_r. destruct w as [[] ? ? ? ? ?]. reflexivity.
  - cbn [for_each]. rewrite bind_run, exec_no_fault by exact H.
    rewrite IH by exact H. simpl. rewrite <- app_assoc. reflexivity.
Qed.

Lemma select_latest_by_specifications sessionId d d' :
  specifications d = specifications d' ->
  select_latest_specification sessionId d = select_latest_specification sessionId d'.
Proof.
  intros H. unfold select_latest_specification, specifications_of. rewrite H. reflexivity.
Qed.

Lemma saveSessionState_free sessionId state w :
  sql_faults w = [] ->
  exists w',
    saveSessionState sessionId state w = (Return tt, w')
    /\ sql_faults w' = []
    /\ window w' = window w
    /\ messages (db w') = messages (db w) ++ message_delta sessionId state (db w)
    /\ specifications (db w') =
       specifications (db w) ++
       (if bool_decide (version (specification state) ≠ latest_version sessionId (db w))
        then [snapshot_row (uuid_stream w (uuid_drawn w)) sessionId state (clock w)]
        else [])
    /\ sessions (db w') =
       List.map (fun r => if bool_decide (id r = sessionId)
                          then set_last_accessed_at (clock w + 1) r else r)
         (sessions (db w)).
Proof.
  intros H. unfold saveSessionState. rewrite bind_run. unfold now at 1.
  rewrite bind_run, query_free by exact H. cbn [db].
  rewrite bind_run, for_each_insert_free by exact H.
  rewrite bind_run, query_free by exact H.
  match goal with
  | |- context [select_latest_specification sessionId (db ?w1)] =>
      rewrite (select_latest_by_specifications sessionId (db w1) (db w) eq_refl)
  end.
  fold (latest_version sessionId (db w)).
  destruct (bool_decide (version (specification state) ≠ latest_version sessionId (db w))).
  - rewrite bind_run, bind_run. unfold uuidv4 at 1.
    rewrite exec_no_fault by exact H.
    rewrite updateLastAccessedTime_free by exact H.
    eexists. split; [reflexivity|]. simpl. rewrite H. repeat split.
  - rewrite bind_run. unfold mret, M_ret.
    rewrite updateLastAccessedTime_free by exact H.
    eexists. split; [reflexivity|]. simpl. rewrite H, app_nil_r. repeat split.
Qed.

(** ** Lists of rows *)


Lemma filter_none {A} (f : A -> bool) l :
  (forall x, In x l -> f x = false) -> List.filter f l = [].
Proof.
  induction l as [|x l IH]; intros H; [reflexivity|].
  simpl. rewrite (H x) by (left; reflexivity). apply IH. intros y Hy. apply H. right. exact Hy.
Qed.

Lemma filter_nil_iff {A} (f : A -> bool) l :
  List.filter f l = [] <-> forall x, In x l -> f x = false.
Proof.
  split; [|apply filter_none].
  intros H x Hx. destruct (f x) eqn:E; [|reflexivity].
  assert (Hin : In x (List.filter f l)) by (apply filter_In; auto).
  rewrite H in Hin. destruct Hin.
Qed.

Lemma firstn_1_nil {A} (l : list A) : firstn 1 l = [] <-> l = [].
Proof. destruct l; simpl; split; congruence. Qed.

Lemma firstn_1_cons {A} (l : list A) x rest : firstn 1 l = x :: rest -> exists l', l = x :: l'.
Proof. destruct l; simpl; [discriminate|]. intros [= -> _]. eauto. Qed.

Lemma filter_head_in {A} (f : A -> bool) l x rest :
  List.filter f l = x :: rest -> In x l /\ f x = true.
Proof.
  intros H. apply filter_In. rewrite H. left. reflexivity.
Qed.

(** ** [createSession], then [getSession] *)


Lemma createSession_free w :
  sql_faults w = [] ->
  let sessionId := uuid_stream w (uuid_drawn w) in
  let specification :=
    {| spec_id := sessionId; version := 0;
       plainEnglishSummary := initial_summary;
       formalPRD := initial_formalPRD; lastUpdated := clock w |} in
  createSession w =
  (Return {| session_ident := sessionId; createdAt := clock w;
             lastAccessedAt := clock w;
             state := {| conversationHistory := [];
                         specification := specification;
                         progress := initial_progress |};
             magicLinkToken := None |},
   {| db := {| sessions := sessions (db w) ++
                 [{| id := sessionId; created_at := clock w;
                     last_accessed_at := clock w;
                     magic_link_token := None; status := active |}];
               messages := messages (db w);
               specifications := specifications (db w) ++
                 [{| specification_id := uuid_stream w (S (uuid_drawn w));
                     session_id := sessionId; row_version := 0;
                     plain_english_summary := initial_summary;
                     formal_prd := initial_formalPRD;
                     progress_state := initial_progress;
                     row_created_at := clock w; updated_at := clock w |}] |};
      sql_faults := sql_faults w; uuid_stream := uuid_stream w;
      uuid_drawn := S (S (uuid_drawn w)); clock := clock w + 1;
      window := window w |}).
Proof.
  intros H. unfold createSession.
  rewrite bind_run. unfold uuidv4 at 1.
  rewrite bind_run. unfold now at 1.
  rewrite bind_run, exec_no_fault by exact H.
  rewrite bind_run. unfold uuidv4 at 1.
  rewrite bind_run, exec_no_fault by exact H.
  reflexivity.
Qed.

Lemma order_by_single {A} (before : A -> A -> bool) x : order_by before [x] = [x].
Proof. reflexivity. Qed.

(** C7. What [createSession] followed by [getSession] returns, in any world
    without store failures where the new identifier is unused: version 0
    and the two literals of [createSession]. Their text and list fields are
    empty, but the summary has no [flows], [rulesAndConstraints],
    [nonFunctional] or [mvpDefinition] at all: reading them gives
    [undefined], not an empty list. *)
Theorem created_session_lacks_summary_fields (w : world) :
  sql_faults w = [] ->
  (forall r, In r (sessions (db w)) -> id r <> uuid_stream w (uuid_drawn w)) ->
  (forall r, In r (specifications (db w)) -> session_id r <> uuid_stream w (uuid_drawn w)) ->
  exists created w1 got w2,
    createSession w = (Return created, w1)
    /\ getSession (session_ident created) w1 = (Return (Some got), w2)
    /\ version (specification (state got)) = 0
    /\ plainEnglishSummary (specification (state got)) = initial_summary
    /\ formalPRD (specification (state got)) = initial_formalPRD
    /\ get_property initial_summary (u16 "overview") = Return (JSValue (JStr []))
    /\ get_property initial_summary (u16 "targetUsers") = Return (JSValue (JStr []))
    /\ get_property initial_summary (u16 "keyFeatures") = Return (JSValue (JArr []))
    /\ get_property initial_formalPRD (u16 "introduction") = Return (JSValue (JStr []))
    /\ get_property initial_formalPRD (u16 "requirements") = Return (JSValue (JArr []))
    /\ get_property initial_formalPRD (u16 "nonFunctionalRequirements")
       = Return (JSValue (JArr []))
    /\ get_property initial_summary (u16 "flows") = Return JSUndefined
    /\ get_property initial_summary (u16 "rulesAndConstraints") = Return JSUndefined
    /\ get_property initial_summary (u16 "nonFunctional") = Return JSUndefined
    /\ get_property initial_summary (u16 "mvpDefinition") = Return JSUndefined.
Proof.
  intros H Hsessions Hspecs.
  rewrite (createSession_free w H). cbv zeta.
  do 2 eexists.
  match goal with
  | |- exists got w2, (_, ?w1) = _ /\ _ =>
      assert (Hget : exists got w2,
                getSession (uuid_stream w (uuid_drawn w)) w1 = (Return (Some got), w2)
                /\ version (specification (state got)) = 0
                /\ plainEnglishSummary (specification (state got)) = initial_summary
                /\ formalPRD (specification (state got)) = initial_formalPRD)
  end.
  { rewrite getSession_free by exact H. cbn [db].
    unfold select_session, session_view, select_latest_specification, specifications_of.
    cbn [sessions specifications].
    rewrite !List.filter_app.
    rewrite (filter_none _ (sessions (db w)))
      by (intros r Hr; apply bool_decide_eq_false; auto).
    rewrite (filter_none _ (specifications (db w)))
      by (intros r Hr; apply bool_decide_eq_false; auto).
    cbn [List.filter id session_id app].
    rewrite !bool_decide_eq_true_2 by reflexivity.
    cbn. do 2 eexists. repeat split. }
  destruct Hget as (got & w2 & Hg & Hv & Hs & Hf).
  exists got, w2. split; [reflexivity|]. split; [exact Hg|].
  repeat (split; [first [assumption | reflexivity]|]). reflexivity.
Qed.

Lemma created_session_lacks_summary_fields_witness :
  exists created w1 got w2,
    createSession Samples.fresh_world = (Return created, w1)
    /\ getSession (session_ident created) w1 = (Return (Some got), w2)
    /\ version (specification (state got)) = 0
    /\ plainEnglishSummary (specification (state got)) = initial_summary
    /\ formalPRD (specification (state got)) = initial_formalPRD
    /\ get_property initial_summary (u16 "overview") = Return (JSValue (JStr []))
    /\ get_property initial_summary (u16 "targetUsers") = Return (JSValue (JStr []))
    /\ get_property initial_summary (u16 "keyFeatures") = Return (JSValue (JArr []))
    /\ get_property initial_formalPRD (u16 "introduction") = Return (JSValue (JStr []))
    /\ get_property initial_formalPRD (u16 "requirements") = Return (JSValue (JArr []))
    /\ get_property initial_formalPRD (u16 "nonFunctionalRequirements")
       = Return (JSValue (JArr []))
    /\ get_property initial_summary (u16 "flows") = Return JSUndefined
    /\ get_property initial_summary (u16 "rulesAndConstraints") = Return JSUndefined
    /\ get_property initial_summary (u16 "nonFunctional") = Return JSUndefined
    /\ get_property initial_summary (u16 "mvpDefinition") = Return JSUndefined.
Proof.
  apply (created_session_lacks_summary_fields Samples.fresh_world).
  - reflexivity.
  - intros r [].
  - intros r [].
Defined.

(** ** Magic links *)


Lemma select_by_token_nil token d :
  select_by_token token d = [] <-> ~ holds_token token d.
Proof.
  unfold select_by_token, holds_token. rewrite firstn_1_nil, filter_nil_iff. split.
  - intros H (r & Hr & Ht). specialize (H r Hr).
    apply bool_decide_eq_false in H. contradiction.
  - intros H r Hr. apply bool_decide_eq_false. intros Ht. apply H. eauto.
Qed.

Lemma select_by_token_head token d row rest :
  select_by_token token d = row :: rest ->
  In row (sessions d) /\ magic_link_token row = Some token.
Proof.
  unfold select_by_token. intros H. apply firstn_1_cons in H as [l' H].
  apply filter_head_in in H as [Hin Ht]. split; [exact Hin|].
  apply bool_decide_eq_true in Ht. exact Ht.
Qed.

Lemma select_session_in sessionId d row :
  In row (sessions d) -> id row = sessionId -> select_session sessionId d <> [].
Proof.
  intros Hin Hid H. unfold select_session in H. rewrite filter_nil_iff in H.
  specialize (H row Hin). apply bool_decide_eq_false in H. contradiction.
Qed.

Lemma select_session_exists sessionId d :
  select_session sessionId d <> [] -> exists r, In r (sessions d) /\ id r = sessionId.
Proof.
  unfold select_session. destruct (List.filter _ (sessions d)) as [|r l] eqn:E; [congruence|].
  intros _. apply filter_head_in in E as [Hin Hid].
  apply bool_decide_eq_true in Hid. eauto.
Qed.

(* rows of an updated table *)
Lemma in_update_sessions f sessionId d r' :
  In r' (sessions (update_sessions f sessionId d)) <->
  exists r, In r (sessions d)
            /\ r' = if bool_decide (id r = sessionId) then f r else r.
Proof.
  unfold update_sessions. cbn [sessions]. rewrite in_map_iff. split.
  - intros (r & <- & Hr). eauto.
  - intros (r & Hr & ->). eauto.
Qed.

Lemma select_session_update f sessionId sid d :
  (forall r, id (f r) = id r) ->
  select_session sessionId (update_sessions f sid d)
  = List.map (fun r => if bool_decide (id r = sid) then f r else r)
      (select_session sessionId d).
Proof.
  intros Hid. unfold select_session, update_sessions. cbn [sessions].
  induction (sessions d) as [|r l IH]; [reflexivity|].
  cbn [List.map List.filter].
  assert (E : id (if bool_decide (id r = sid) then f r else r) = id r)
    by (destruct (bool_decide (id r = sid)); auto).
  rewrite E. destruct (bool_decide (id r = sessionId)); cbn [List.map]; rewrite IH; reflexivity.
Qed.

(* after a token was minted for a session, its first holder is that session *)
Lemma holder_after_generate token sessionId d :
  ~ holds_token token d ->
  select_session sessionId d <> [] ->
  exists row rest,
    select_by_token token (update_sessions (set_magic_link_token token) sessionId d)
      = row :: rest
    /\ id row = sessionId.
Proof.
  intros Hfresh Hex.
  destruct (select_by_token token (update_sessions (set_magic_link_token token) sessionId d))
    as [|row rest] eqn:E.
  - exfalso. apply select_by_token_nil in E. apply E.
    apply select_session_exists in Hex as (r & Hr & Hid).
    exists (set_magic_link_token token r). split; [|reflexivity].
    apply in_update_sessions. exists r. split; [exact Hr|].
    rewrite bool_decide_eq_true_2 by exact Hid. reflexivity.
  - exists row, rest. split; [reflexivity|].
    apply select_by_token_head in E as [Hin Ht].
    apply in_update_sessions in Hin as (r & Hr & ->).
    destruct (bool_decide (id r = sessionId)) eqn:B.
    + apply bool_decide_eq_true in B. exact B.
    + exfalso. apply Hfresh. exists r. auto.
Qed.

Lemma holder_after_touch token sessionId t d row rest :
  select_by_token token d = row :: rest ->
  exists row' rest',
    select_by_token token (update_sessions (set_last_accessed_at t) sessionId d)
      = row' :: rest'
    /\ id row' = id row.
Proof.
  unfold select_by_token, update_sessions. cbn [sessions].
  induction (sessions d) as [|r l IH]; [discriminate|].
  cbn [List.map List.filter].
  assert (E : magic_link_token
                (if bool_decide (id r = sessionId) then set_last_accessed_at t r else r)
              = magic_link_token r)
    by (destruct (bool_decide (id r = sessionId)); reflexivity).
  assert (E' : id (if bool_decide (id r = sessionId) then set_last_accessed_at t r else r)
              = id r)
    by (destruct (bool_decide (id r = sessionId)); reflexivity).
  rewrite E. destruct (bool_decide (magic_link_token r = Some token)).
  - cbn [firstn]. intros [= <- <-]. eauto.
  - exact IH.
Qed.

Lemma session_view_touched sessionId sid t row d :
  same_but_last_access
    (session_view sessionId row d)
    (session_view sessionId
       (if bool_decide (id row = sid) then set_last_accessed_at t row else row)
       (update_sessions (set_last_accessed_at t) sid d)).
Proof.
  unfold same_but_last_access, session_view.
  change (select_latest_specification sessionId
            (update_sessions (set_last_accessed_at t) sid d))
    with (select_latest_specification sessionId d).
  change (select_messages sessionId (update_sessions (set_last_accessed_at t) sid d))
    with (select_messages sessionId d).
  assert (E : read_specification sessionId
                (if bool_decide (id row = sid) then set_last_accessed_at t row else row)
                (select_latest_specification sessionId d)
              = read_specification sessionId row (select_latest_specification sessionId d)).
  { unfold read_specification.
    destruct (select_latest_specification sessionId d); [|reflexivity].
    destruct (bool_decide (id row = sid)); reflexivity. }
  rewrite E.
  destruct (read_specification sessionId row (select_latest_specification sessionId d)).
  destruct (bool_decide (id row = sid)); cbn; auto.
Qed.

(** C6. Without store failures, restoring from a token succeeds exactly
    when some session holds the token, and is then [getSession] on the
    holder; a token no session holds is refused with the invalid-token
    error. A link generated for an existing session restores the session
    [getSession] returns, and restoring after that read differs from it in
    [lastAccessedAt] at most; a second link for the session makes the first
    one invalid. The token minted is supposed fresh: no session holds it
    before. *)
Theorem magic_link_restore (w : world) (token : jsstring) :
  sql_faults w = [] ->
  (* restoring succeeds exactly when a session holds the token *)
  ((exists session w', restoreSessionFromMagicLink token w = (Return session, w'))
   <-> holds_token token (db w))
  (* and then it is getSession on the holder *)
  /\ (forall row rest, select_by_token token (db w) = row :: rest ->
        exists session w',
          getSession (id row) w = (Return (Some session), w')
          /\ restoreSessionFromMagicLink token w = (Return session, w'))
  (* a token no session holds is refused *)
  /\ (~ holds_token token (db w) ->
        restoreSessionFromMagicLink token w = (Throw invalid_token, w))
  (* a link generated for a session restores that session *)
  /\ (forall sessionId,
        select_session sessionId (db w) <> [] ->
        ~ holds_token (uuid_stream w (uuid_drawn w)) (db w) ->
        exists issued w1 direct w2 restored w3,
          generateMagicLink sessionId w = (Return issued, w1)
          /\ getSession sessionId w1 = (Return (Some direct), w2)
          /\ restoreSessionFromMagicLink issued w1 = (Return direct, w2)
          /\ restoreSessionFromMagicLink issued w2 = (Return restored, w3)
          /\ same_but_last_access direct restored)
  (* and a second link for the session supersedes the first *)
  /\ (forall sessionId,
        ~ holds_token (uuid_stream w (uuid_drawn w)) (db w) ->
        uuid_stream w (uuid_drawn w) <> uuid_stream w (S (uuid_drawn w)) ->
        exists first w1 second w2,
          generateMagicLink sessionId w = (Return first, w1)
          /\ generateMagicLink sessionId w1 = (Return second, w2)
          /\ restoreSessionFromMagicLink first w2 = (Throw invalid_token, w2)).
Proof.
  intros H.
  assert (Hheld : forall row rest, select_by_token token (db w) = row :: rest ->
            exists session w',
              getSession (id row) w = (Return (Some session), w')
              /\ restoreSessionFromMagicLink token w = (Return session, w')).
  { intros row rest E. rewrite restore_free, getSession_free, E by exact H.
    apply select_by_token_head in E as [Hin _].
    pose proof (select_session_in (id row) (db w) row Hin eq_refl) as Hne.
    destruct (select_session (id row) (db w)); [contradiction|]. eauto. }
  assert (Hnone : ~ holds_token token (db w) ->
            restoreSessionFromMagicLink token w = (Throw invalid_token, w)).
  { intros Hn. apply select_by_token_nil in Hn.
    rewrite restore_free, Hn by exact H. reflexivity. }
  split; [|split; [exact Hheld|split; [exact Hnone|split]]].
  - split.
    + intros (session & w' & Hr).
      destruct (select_by_token token (db w)) as [|row rest] eqn:E.
      * apply select_by_token_nil in E. rewrite (Hnone E) in Hr. discriminate.
      * apply select_by_token_head in E as [Hin Ht]. exists row. auto.
    + intros Hh. destruct (select_by_token token (db w)) as [|row rest] eqn:E.
      * apply select_by_token_nil in E. contradiction.
      * destruct (Hheld row rest eq_refl) as (s & w' & _ & Hr). eauto.
  - intros sessionId Hex Hfresh.
    rewrite generateMagicLink_free by exact H.
    set (issued := uuid_stream w (uuid_drawn w)) in *.
    set (d1 := update_sessions (set_magic_link_token issued) sessionId (db w)).
    destruct (holder_after_generate issued sessionId (db w) Hfresh Hex)
      as (row & rest & Hsel & Hid).
    fold d1 in Hsel.
    assert (Hex1 : select_session sessionId d1 <> []).
    { unfold d1. rewrite select_session_update by reflexivity.
      destruct (select_session sessionId (db w)); [contradiction|discriminate]. }
    destruct (select_session sessionId d1) as [|srow srest] eqn:Es; [contradiction|].
    destruct (holder_after_touch issued sessionId (clock w) d1 row rest Hsel)
      as (row2 & rest2 & Hsel2 & Hid2).
    exists issued. eexists. exists (session_view sessionId srow d1).
    do 3 eexists. split; [reflexivity|].
    rewrite getSession_free by exact H. cbn [db]. rewrite Es.
    split; [reflexivity|].
    rewrite restore_free by exact H. cbn [db]. rewrite Hsel, Hid, Es.
    split; [reflexivity|].
    rewrite restore_free by exact H. cbn [db touched clock]. rewrite Hsel2, Hid2, Hid.
    rewrite select_session_update by reflexivity. rewrite Es. cbn [List.map].
    split; [reflexivity|].
    apply session_view_touched.
  - intros sessionId Hfresh Hne.
    rewrite generateMagicLink_free by exact H.
    do 4 eexists. split; [reflexivity|].
    rewrite generateMagicLink_free by exact H. cbn [db uuid_stream uuid_drawn].
    split; [reflexivity|].
    rewrite restore_free by exact H. cbn [db].
    match goal with
    | |- context [select_by_token ?t ?d] =>
        assert (Hn : select_by_token t d = [])
    end.
    { apply select_by_token_nil. intros (r2 & Hin2 & Ht2).
      apply in_update_sessions in Hin2 as (r1 & Hin1 & ->).
      apply in_update_sessions in Hin1 as (r & Hin & ->).
      destruct (bool_decide (id r = sessionId)) eqn:B; cbn [id set_magic_link_token] in Ht2.
      - rewrite B in Ht2. cbn in Ht2. congruence.
      - rewrite B in Ht2. apply Hfresh. exists r. auto. }
    rewrite Hn. reflexivity.
Qed.

Lemma magic_link_restore_witness :
  exists issued w1 direct w2 restored w3,
    generateMagicLink Samples.session_1 Samples.created_world = (Return issued, w1)
    /\ getSession Samples.session_1 w1 = (Return (Some direct), w2)
    /\ restoreSessionFromMagicLink issued w1 = (Return direct, w2)
    /\ restoreSessionFromMagicLink issued w2 = (Return restored, w3)
    /\ same_but_last_access direct restored.
Proof.
  apply (magic_link_restore Samples.created_world (u16 "uuid-2") eq_refl).
  - vm_compute. discriminate.
  - intros (r & Hin & Htoken). vm_compute in Hin.
    destruct Hin as [<- | []]. discriminate.
Defined.

(** ** What a method leaves alone *)


Section Keeps.
Context {X : Type} (obs : database -> option (gmap jsstring (list Message)) -> X).

Lemma keeps_ret {A} (a : A) : keeps obs (mret a).
Proof. intros w. reflexivity. Qed.

Lemma keeps_throw {A} e : keeps obs (@throw A e).
Proof. intros w. reflexivity. Qed.

Lemma keeps_now : keeps obs now.
Proof. intros w. reflexivity. Qed.

Lemma keeps_uuidv4 : keeps obs uuidv4.
Proof. intros w. reflexivity. Qed.

Lemma keeps_bind {A B} (m : M A) (f : A -> M B) :
  keeps obs m -> (forall a, keeps obs (f a)) -> keeps obs (m ≫= f).
Proof.
  intros Hm Hf w. rewrite bind_run. specialize (Hm w).
  destruct (m w) as [[a|e] w1]; simpl in *; [|exact Hm].
  rewrite Hf. exact Hm.
Qed.

Lemma keeps_sql {A} (statement : database -> A * database) :
  (forall d win, obs (statement d).2 win = obs d win) -> keeps obs (sql statement).
Proof.
  intros Hs w. destruct (sql_cases statement w) as [fs [-> | [e ->]]]; simpl; auto.
Qed.

Lemma keeps_query {A} (q : database -> A) : keeps obs (query q).
Proof. apply keeps_sql. reflexivity. Qed.

Lemma keeps_exec (u : database -> database) :
  (forall d win, obs (u d) win = obs d win) -> keeps obs (exec u).
Proof. intros H. apply keeps_sql. exact H. Qed.

Lemma keeps_for_each {A} (l : list A) (body : A -> M unit) :
  (forall x, keeps obs (body x)) -> keeps obs (for_each l body).
Proof.
  intros Hb. induction l as [|x l IH]; [apply keeps_ret|].
  cbn [for_each]. apply keeps_bind; auto.
Qed.

Lemma keeps_try_catch {A} (body : M A) (handler : js_error -> M A) :
  keeps obs body -> (forall e, keeps obs (handler e)) -> keeps obs (try_catchM body handler).
Proof.
  intros Hb Hh w. unfold try_catchM. specialize (Hb w).
  destruct (body w) as [[a|e] w1]; simpl in *; [exact Hb|].
  rewrite Hh. exact Hb.
Qed.
End Keeps.

Lemma keeps_updateLastAccessedTime {X} (obs : database -> _ -> X) sessionId :
  (forall f d win, obs (update_sessions f sessionId d) win = obs d win) ->
  keeps obs (updateLastAccessedTime sessionId).
Proof.
  intros H. unfold updateLastAccessedTime.
  apply keeps_bind; [apply keeps_now|]. intros t. apply keeps_exec. intros. apply H.
Qed.

Lemma keeps_getSession {X} (obs : database -> _ -> X) sessionId :
  (forall f d win, obs (update_sessions f sessionId d) win = obs d win) ->
  keeps obs (getSession sessionId).
Proof.
  intros H. unfold getSession.
  apply keeps_bind; [apply keeps_query|]. intros [|row rest]; [apply keeps_ret|].
  apply keeps_bind; [apply keeps_query|]. intros msgs.
  apply keeps_bind; [apply keeps_query|]. intros specs.
  destruct (read_specification _ _ _).
  apply keeps_bind; [apply keeps_updateLastAccessedTime, H|]. intros _. apply keeps_ret.
Qed.


(* what the rest of a method leaves alone is as the first part left it *)
Lemma keeps_after {A B X} (obs : database -> _ -> X) (m : M A) (f : A -> M B) w :
  (forall a, keeps obs (f a)) ->
  obs (db ((m ≫= f) w).2) (window ((m ≫= f) w).2)
  = obs (db (m w).2) (window (m w).2).
Proof.
  intros Hf. rewrite bind_run. destruct (m w) as [[a|e] w1]; [apply Hf|reflexivity].
Qed.

(** ** Runs that returned *)


Lemma unaffected_ret {A} (a : A) : unaffected_by_faults (mret a : M A).
Proof. intros w b w' [= <- <-]. reflexivity. Qed.

Lemma unaffected_now : unaffected_by_faults now.
Proof. intros w b w' [= <- <-]. reflexivity. Qed.

Lemma unaffected_uuidv4 : unaffected_by_faults uuidv4.
Proof. intros w b w' [= <- <-]. reflexivity. Qed.

Lemma unaffected_sql {A} (statement : database -> A * database) :
  unaffected_by_faults (sql statement).
Proof.
  intros w a w'. unfold sql. cbn [sql_faults with_sql_faults db].
  destruct (sql_faults w) as [|[e|] rest] eqn:E; [|discriminate|];
    destruct (statement (db w)) as [a0 d]; intros [= <- <-]; reflexivity.
Qed.

Lemma unaffected_bind {A B} (m : M A) (f : A -> M B) :
  unaffected_by_faults m -> (forall a, unaffected_by_faults (f a)) ->
  unaffected_by_faults (m ≫= f).
Proof.
  intros Hm Hf w b w'. rewrite !bind_run.
  destruct (m w) as [[a|e] w1] eqn:E; [|discriminate].
  intros Hfa. rewrite (Hm _ _ _ E). apply Hf in Hfa.
  replace (with_sql_faults (with_sql_faults w1 []) []) with (with_sql_faults w1 []) in Hfa
    by reflexivity.
  exact Hfa.
Qed.

Lemma unaffected_for_each {A} (l : list A) (body : A -> M unit) :
  (forall x, unaffected_by_faults (body x)) -> unaffected_by_faults (for_each l body).
Proof.
  intros Hb. induction l as [|x l IH]; [apply unaffected_ret|].
  cbn [for_each]. apply unaffected_bind; auto.
Qed.

Lemma unaffected_getSession sessionId : unaffected_by_faults (getSession sessionId).
Proof.
  unfold getSession.
  apply unaffected_bind; [apply unaffected_sql|]. intros [|row rest]; [apply unaffected_ret|].
  apply unaffected_bind; [apply unaffected_sql|]. intros msgs.
  apply unaffected_bind; [apply unaffected_sql|]. intros specs.
  destruct (read_specification _ _ _).
  apply unaffected_bind; [|intros _; apply unaffected_ret].
  apply unaffected_bind; [apply unaffected_now|]. intros t. apply unaffected_sql.
Qed.

Lemma unaffected_saveSessionState sessionId state :
  unaffected_by_faults (saveSessionState sessionId state).
Proof.
  unfold saveSessionState.
  apply unaffected_bind; [apply unaffected_now|]. intros t.
  apply unaffected_bind; [apply unaffected_sql|]. intros ids.
  apply unaffected_bind; [apply unaffected_for_each; intros m; apply unaffected_sql|].
  intros _. apply unaffected_bind; [apply unaffected_sql|]. intros rows.
  apply unaffected_bind.
  - destruct (bool_decide _); [|apply unaffected_ret].
    apply unaffected_bind; [apply unaffected_uuidv4|]. intros rid. apply unaffected_sql.
  - intros _. apply unaffected_bind; [apply unaffected_now|]. intros t'. apply unaffected_sql.
Qed.

(** ** The offline queue *)


Lemma session_view_history sessionId row d :
  conversationHistory (state (session_view sessionId row d))
  = List.map message_of_row (select_messages sessionId d).
Proof.
  unfold session_view. destruct (read_specification _ _ _). reflexivity.
Qed.

Lemma getSession_returned sessionId w session w1 :
  getSession sessionId w = (Return (Some session), w1) ->
  conversationHistory (state session)
    = List.map message_of_row (select_messages sessionId (db w))
  /\ messages (db w1) = messages (db w)
  /\ window w1 = window w.
Proof.
  intros Hg. split.
  - apply unaffected_getSession in Hg.
    rewrite getSession_free in Hg by reflexivity. cbn [db with_sql_faults] in Hg.
    destruct (select_session sessionId (db w)); [discriminate|].
    injection Hg as <- _. apply session_view_history.
  - pose proof (keeps_getSession (fun d win => (messages d, win)) sessionId
                  (fun _ _ _ => eq_refl) w) as Hk.
    rewrite Hg in Hk. cbn [snd] in Hk. injection Hk as -> ->. auto.
Qed.

Lemma saveSessionState_returned sessionId state w w' :
  saveSessionState sessionId state w = (Return tt, w') ->
  messages (db w') = messages (db w) ++ message_delta sessionId state (db w).
Proof.
  intros Hs. apply unaffected_saveSessionState in Hs.
  destruct (saveSessionState_free sessionId state (with_sql_faults w []) eq_refl)
    as (w'' & Hs' & _ & _ & Hm & _).
  rewrite Hs in Hs'. injection Hs' as <-. exact Hm.
Qed.


Lemma new_messages_stored ids history :
  (forall m, In m history -> msg_id m ∈ ids) -> new_messages ids history = [].
Proof.
  intros H. apply filter_none. intros m Hm.
  rewrite (bool_decide_eq_true_2 _ (H m Hm)). reflexivity.
Qed.




(** The scenario of the specification: three messages are synced, two are
    queued; after the sync the session has the five of them in order and
    the queue is empty. *)
Example offline_sync_scenario :
  exists w' session w'',
    syncOfflineMessages Samples.session_1 Samples.offline_world = (Return tt, w')
    /\ offline_queue Samples.session_1 w' = []
    /\ getSession Samples.session_1 w' = (Return (Some session), w'')
    /\ List.map msg_id (conversationHistory (state session))
       = [u16 "m1"; u16 "m2"; u16 "m3"; u16 "m4"; u16 "m5"].
Proof.
  do 3 eexists. split; [vm_compute; reflexivity|].
  split; [vm_compute; reflexivity|]. split; [vm_compute; reflexivity|].
  reflexivity.
Qed.

(** ** Snapshots of the specification *)


Lemma query_cases {A} (q : database -> A) w :
  exists w1, db w1 = db w
    /\ (query q w = (Return (q (db w)), w1) \/ exists e, query q w = (Throw e, w1)).
Proof.
  unfold query. destruct (sql_cases (fun d => (q d, d)) w) as [fs [-> | [e ->]]];
    eexists; (split; [|eauto]); reflexivity.
Qed.

Lemma exec_cases (u : database -> database) w :
  exists w1,
    (exec u w = (Return tt, w1) /\ db w1 = u (db w))
    \/ (exists e, exec u w = (Throw e, w1) /\ db w1 = db w).
Proof.
  unfold exec. destruct (sql_cases (fun d => (tt, u d)) w) as [fs [-> | [e ->]]];
    eexists; [left|right; exists e]; split; reflexivity.
Qed.

Lemma saveSessionState_specifications sessionId state w :
  specifications (db (saveSessionState sessionId state w).2) = specifications (db w)
  \/ (version (specification state) <> latest_version sessionId (db w)
      /\ exists rowId t,
           specifications (db (saveSessionState sessionId state w).2)
           = specifications (db w) ++ [snapshot_row rowId sessionId state t]).
Proof.
  assert (Htouch : forall w0,
            specifications (db (updateLastAccessedTime sessionId w0).2)
            = specifications (db w0))
    by (intros w0; apply (keeps_updateLastAccessedTime (fun d _ => specifications d)
                            sessionId (fun _ _ _ => eq_refl) w0)).
  remember (saveSessionState sessionId state w) as result eqn:E.
  unfold saveSessionState in E. rewrite bind_run in E. unfold now at 1 in E.
  rewrite bind_run in E.
  match type of E with context [query ?q ?w0] =>
    destruct (query_cases q w0) as (w1 & D1 & [E1 | [e E1]]); rewrite E1 in E
  end; cbn [db] in D1; [|subst result; left; cbn [snd]; congruence].
  rewrite bind_run in E.
  match type of E with context [for_each ?l ?body w1] =>
    pose proof (keeps_for_each (fun d _ => specifications d) l body
                  (fun m => keeps_exec (fun d _ => specifications d)
                              (insert_message (row_of_message sessionId m))
                              (fun _ _ => eq_refl)) w1) as D2;
    destruct (for_each l body w1) as [[[]|e] w2]
  end; cbn [snd] in D2; [|subst result; left; cbn [snd]; congruence].
  rewrite bind_run in E.
  destruct (query_cases (select_latest_specification sessionId) w2)
    as (w3 & D3 & [E3 | [e E3]]); rewrite E3 in E;
    [|subst result; left; cbn [snd]; congruence].
  assert (Hlatest : version_of (select_latest_specification sessionId (db w2))
                    = latest_version sessionId (db w)).
  { unfold latest_version. f_equal. apply select_latest_by_specifications. congruence. }
  rewrite Hlatest in E. rewrite bind_run in E.
  destruct (bool_decide (version (specification state) ≠ latest_version sessionId (db w)))
    eqn:B.
  - apply bool_decide_eq_true in B. rewrite bind_run in E. unfold uuidv4 at 1 in E.
    match type of E with context [exec ?u ?w4] =>
      destruct (exec_cases u w4) as (w5 & [[E5 D5] | (e & E5 & D5)]); rewrite E5 in E
    end; cbn [db] in D5; subst result.
    + right. split; [exact B|]. do 2 eexists. rewrite Htouch, D5.
      cbn [insert_specification specifications db]. rewrite D3, D2, D1. reflexivity.
    + left. cbn [snd]. congruence.
  - left. unfold mret, M_ret in E. subst result. rewrite Htouch. congruence.
Qed.

Lemma specifications_of_app sessionId d d' added :
  specifications d' = specifications d ++ added ->
  specifications_of sessionId d'
  = specifications_of sessionId d
    ++ List.filter (fun r => bool_decide (session_id r = sessionId)) added.
Proof. unfold specifications_of. intros ->. apply List.filter_app. Qed.

Lemma version_total (a b : specification_row) :
  (row_version b <=? row_version a) = true \/ (row_version a <=? row_version b) = true.
Proof. rewrite !Z.leb_le. lia. Qed.

(* the version compared with is the highest stored one *)
Lemma latest_version_highest sessionId d v :
  In v (stored_versions sessionId d) -> v <= latest_version sessionId d.
Proof.
  unfold stored_versions, latest_version, select_latest_specification.
  set (before := fun a b : specification_row => row_version b <=? row_version a).
  intros Hv. apply in_map_iff in Hv as (r & <- & Hr).
  pose proof (order_by_sorted before version_total (specifications_of sessionId d)) as Hs.
  pose proof (order_by_perm before (specifications_of sessionId d)) as Hp.
  apply (Permutation_in _ (Permutation_sym Hp)) in Hr.
  destruct (order_by before (specifications_of sessionId d)) as [|top rest]; [destruct Hr|].
  cbn [firstn version_of].
  apply Sorted_StronglySorted in Hs.
  - apply StronglySorted_inv in Hs as [_ Hall]. destruct Hr as [<- | Hr]; [lia|].
    rewrite List.Forall_forall in Hall. specialize (Hall r Hr). unfold before in Hall.
    apply Z.leb_le in Hall. exact Hall.
  - intros a b c. unfold before. rewrite !Z.leb_le. lia.
Qed.

Lemma latest_version_stored sessionId d :
  stored_versions sessionId d <> [] ->
  In (latest_version sessionId d) (stored_versions sessionId d).
Proof.
  unfold stored_versions, latest_version, select_latest_specification.
  set (before := fun a b : specification_row => row_version b <=? row_version a).
  intros Hne.
  pose proof (order_by_perm before (specifications_of sessionId d)) as Hp.
  destruct (order_by before (specifications_of sessionId d)) as [|top rest] eqn:E.
  - apply Permutation_nil in Hp. rewrite Hp in Hne. contradiction.
  - cbn [firstn version_of]. apply in_map. eapply Permutation_in; [exact Hp|]. left. reflexivity.
Qed.

Lemma saveSessionState_versions sessionId state w :
  stored_versions sessionId (db (saveSessionState sessionId state w).2)
    = stored_versions sessionId (db w)
  \/ (version (specification state) <> latest_version sessionId (db w)
      /\ stored_versions sessionId (db (saveSessionState sessionId state w).2)
         = stored_versions sessionId (db w) ++ [version (specification state)]).
Proof.
  destruct (saveSessionState_specifications sessionId state w) as [H | (Hne & rid & t & H)].
  - left. unfold stored_versions, specifications_of. rewrite H. reflexivity.
  - right. split; [exact Hne|]. unfold stored_versions.
    rewrite (specifications_of_app sessionId _ _ _ H). cbn [List.filter snapshot_row session_id].
    rewrite bool_decide_eq_true_2 by reflexivity. rewrite map_app. reflexivity.
Qed.

Lemma run_saves_cons sessionId state states w :
  run_saves sessionId (state :: states) w
  = run_saves sessionId states (saveSessionState sessionId state w).2.
Proof. reflexivity. Qed.

Lemma run_saves_append_only sessionId states : forall w,
  exists added,
    specifications (db (run_saves sessionId states w)) = specifications (db w) ++ added.
Proof.
  induction states as [|state states IH]; intros w.
  - exists []. rewrite app_nil_r. reflexivity.
  - rewrite run_saves_cons.
    destruct (IH (saveSessionState sessionId state w).2) as [added Ha].
    destruct (saveSessionState_specifications sessionId state w)
      as [H | (_ & rid & t & H)]; rewrite Ha, H.
    + eauto.
    + rewrite <- app_assoc. eauto.
Qed.

Lemma run_saves_one_snapshot_per_version sessionId states : forall w,
  NoDup (stored_versions sessionId (db w)) ->
  Forall (fun state => forall s, In s (stored_versions sessionId (db w)) ->
                                 s <= version (specification state)) states ->
  StronglySorted (fun a b => version (specification a) <= version (specification b)) states ->
  NoDup (stored_versions sessionId (db (run_saves sessionId states w))).
Proof.
  induction states as [|state states IH]; intros w Hnd Hge Hsorted; [exact Hnd|].
  rewrite run_saves_cons.
  apply Forall_cons_iff in Hge as [Hge1 Hge].
  apply StronglySorted_inv in Hsorted as [Hsorted Hle].
  destruct (saveSessionState_versions sessionId state w) as [H | [Hne H]].
  - apply IH; rewrite ?H; assumption.
  - apply IH; [| |exact Hsorted].
    + rewrite H. apply NoDup_app. split; [exact Hnd|]. split; [|apply NoDup_singleton].
      intros s Hs Hv. apply list_elem_of_In in Hs.
      apply list_elem_of_singleton in Hv. subst s.
      apply Hne. apply Z.le_antisymm.
      * apply latest_version_highest. exact Hs.
      * apply Hge1. apply latest_version_stored. intros Hnil. rewrite Hnil in Hs. destruct Hs.
    + rewrite H. rewrite List.Forall_forall in *. intros st Hst s Hs.
      apply in_app_iff in Hs as [Hs | [<- | []]].
      * apply (Hge st Hst s Hs).
      * apply (Hle st Hst).
Qed.

(** C4, counterexample: after [createSession] stored version 0, saving
    version 1 and then version 0 again stores a second snapshot at
    version 0. *)
Lemma older_version_is_stored_twice :
  ~ NoDup (stored_versions Samples.session_1
             (db (run_saves Samples.session_1
                    [Samples.state_at 1 []; Samples.state_at 0 []]
                    Samples.created_world))).
Proof. apply (bool_decide_eq_false_1 (NoDup _)). vm_compute. reflexivity. Qed.

(** C4, as amended: whatever the calls and their outcomes, stored snapshots
    are never changed or removed and new ones are added after them; a call
    with the highest stored version adds none; and a session keeps one
    snapshot per version as long as no call saves a version lower than one
    already stored or saved. *)
Theorem snapshots_append_only (sessionId : jsstring) (states : list SessionState)
  (w : world) :
  (* stored snapshots stay as they are, new ones are added after them *)
  (exists added,
     specifications (db (run_saves sessionId states w))
     = specifications (db w) ++ added)
  (* saving the highest stored version again adds nothing *)
  /\ (forall state,
        version (specification state) = latest_version sessionId (db w) ->
        specifications (db (saveSessionState sessionId state w).2)
        = specifications (db w))
  (* one snapshot per version, as long as the versions saved never go back *)
  /\ (NoDup (stored_versions sessionId (db w)) ->
      Forall (fun state => forall s, In s (stored_versions sessionId (db w)) ->
                                     s <= version (specification state)) states ->
      StronglySorted
        (fun a b => version (specification a) <= version (specification b)) states ->
      NoDup (stored_versions sessionId (db (run_saves sessionId states w)))).
Proof.
  split; [apply run_saves_append_only|]. split.
  - intros state Hv.
    destruct (saveSessionState_specifications sessionId state w) as [H | [Hne _]];
      [exact H|contradiction].
  - apply run_saves_one_snapshot_per_version.
Qed.

Lemma snapshots_append_only_witness :
  NoDup (stored_versions Samples.session_1
           (db (run_saves Samples.session_1
                  [Samples.state_at 0 []; Samples.state_at 1 []; Samples.state_at 1 []]
                  Samples.created_world))).
Proof.
  apply (snapshots_append_only Samples.session_1
           [Samples.state_at 0 []; Samples.state_at 1 []; Samples.state_at 1 []]
           Samples.created_world).
  - apply (bool_decide_eq_true_1 (NoDup _)). vm_compute. reflexivity.
  - repeat constructor; vm_compute; intros s [<- | []]; discriminate.
  - repeat constructor; vm_compute; discriminate.
Defined.

(** ** Messages *)


Lemma messages_of_app sessionId d d' added :
  messages d' = messages d ++ added ->
  messages_of sessionId d'
  = messages_of sessionId d
    ++ List.filter (fun r => bool_decide (message_session_id r = sessionId)) added.
Proof. unfold messages_of. intros ->. apply List.filter_app. Qed.

Lemma filter_own_rows sessionId (l : list Message) :
  List.filter (fun r => bool_decide (message_session_id r = sessionId))
    (List.map (row_of_message sessionId) l)
  = List.map (row_of_message sessionId) l.
Proof.
  induction l as [|m l IH]; [reflexivity|].
  cbn [List.map List.filter row_of_message message_session_id].
  rewrite bool_decide_eq_true_2 by reflexivity. rewrite IH. reflexivity.
Qed.

Lemma stored_ids_after_delta sessionId state d d' :
  messages d' = messages d ++ message_delta sessionId state d ->
  stored_message_ids sessionId d'
  = stored_message_ids sessionId d
    ++ List.map msg_id
         (new_messages (list_to_set (stored_message_ids sessionId d))
            (conversationHistory state)).
Proof.
  intros H. unfold stored_message_ids at 1.
  rewrite (messages_of_app sessionId _ _ _ H). unfold message_delta.
  rewrite filter_own_rows, map_app, map_map. reflexivity.
Qed.

Lemma NoDup_map_filter {A B} (f : A -> B) (p : A -> bool) l :
  NoDup (List.map f l) -> NoDup (List.map f (List.filter p l)).
Proof.
  induction l as [|x l IH]; [intros; constructor|].
  cbn [List.map List.filter]. intros H. apply NoDup_cons in H as [Hx Hl].
  destruct (p x); [|auto]. cbn [List.map]. apply NoDup_cons. split; [|auto].
  intros Hin. apply Hx. apply list_elem_of_In in Hin. apply list_elem_of_In.
  apply in_map_iff in Hin as (y & Hy & Hin). apply filter_In in Hin as [Hin _].
  apply in_map_iff. eauto.
Qed.

Lemma delta_ids_are_new sessionId state d r :
  In r (message_delta sessionId state d) ->
  ~ In (message_id r) (stored_message_ids sessionId d)
  /\ message_session_id r = sessionId.
Proof.
  unfold message_delta. intros Hr. apply in_map_iff in Hr as (m & <- & Hm).
  apply filter_In in Hm as [_ Hm]. apply negb_true_iff, bool_decide_eq_false in Hm.
  split; [|reflexivity]. intros Hin. apply Hm.
  apply elem_of_list_to_set, list_elem_of_In. exact Hin.
Qed.

(* once a state is saved, all its messages are stored *)
Lemma delta_after_save sessionId state d d' :
  messages d' = messages d ++ message_delta sessionId state d ->
  message_delta sessionId state d' = [].
Proof.
  intros H. unfold message_delta at 1.
  rewrite new_messages_stored; [reflexivity|].
  intros m Hm. apply elem_of_list_to_set, list_elem_of_In.
  rewrite (stored_ids_after_delta _ _ _ _ H). apply in_app_iff.
  destruct (bool_decide (msg_id m ∈ (list_to_set (stored_message_ids sessionId d) : gset jsstring)))
    eqn:B.
  - left. apply bool_decide_eq_true in B.
    apply elem_of_list_to_set, list_elem_of_In in B. exact B.
  - right. apply in_map. apply filter_In. split; [exact Hm|]. rewrite B. reflexivity.
Qed.

Lemma select_session_by_sessions sessionId d d' :
  sessions d' = sessions d -> select_session sessionId d' = select_session sessionId d.
Proof. unfold select_session. intros ->. reflexivity. Qed.

Lemma for_each_insert_prefix sessionId msgs : forall w,
  exists k,
    messages (db (for_each msgs
                    (fun message => exec (insert_message (row_of_message sessionId message)))
                    w).2)
    = messages (db w) ++ List.map (row_of_message sessionId) (firstn k msgs).
Proof.
  induction msgs as [|m msgs IH]; intros w.
  - exists 0%nat. simpl. rewrite app_nil_r. reflexivity.
  - cbn [for_each]. rewrite bind_run.
    destruct (exec_cases (insert_message (row_of_message sessionId m)) w)
      as (w1 & [[E D] | (e & E & D)]); rewrite E.
    + destruct (IH w1) as [k Hk]. exists (S k). rewrite Hk, D.
      cbn [insert_message messages firstn List.map]. rewrite <- app_assoc. reflexivity.
    + exists 0%nat. cbn [snd firstn List.map]. rewrite D, app_nil_r. reflexivity.
Qed.

(* whatever the failures, a save writes a prefix of its delta *)
Lemma saveSessionState_messages sessionId state w :
  exists k,
    messages (db (saveSessionState sessionId state w).2)
    = messages (db w) ++ firstn k (message_delta sessionId state (db w)).
Proof.
  assert (Hrest : forall t a,
    keeps (fun d _ => messages d)
      (query (select_latest_specification sessionId)
       ≫= fun currentSpecResult =>
            (if bool_decide (version (specification state) ≠ version_of currentSpecResult)
             then uuidv4 ≫= fun rowId =>
                    exec (insert_specification (snapshot_row rowId sessionId state t))
             else mret tt)
            ≫= fun _ : unit => updateLastAccessedTime sessionId) /\ a = tt).
  { intros t []. split; [|reflexivity].
    apply keeps_bind; [apply keeps_query|]. intros rows. apply keeps_bind.
    - destruct (bool_decide _); [|apply keeps_ret].
      apply keeps_bind; [apply keeps_uuidv4|]. intros rid.
      apply keeps_exec. reflexivity.
    - intros _. apply keeps_updateLastAccessedTime. reflexivity. }
  unfold saveSessionState. rewrite bind_run. unfold now at 1. rewrite bind_run.
  match goal with |- context [query ?q ?w0] =>
    destruct (query_cases q w0) as (w1 & D1 & [E1 | [e E1]]); rewrite E1
  end; cbn [db] in D1.
  - match goal with |- context [(for_each ?l ?body ≫= ?rest) w1] =>
      pose proof (keeps_after (fun d _ => messages d) (for_each l body) rest w1
                    (fun a => proj1 (Hrest (clock w) a))) as Hk;
      destruct (for_each_insert_prefix sessionId l w1) as [k Hp]
    end.
    exists k. unfold message_delta, stored_message_ids.
    cbv beta in Hk. rewrite Hk, Hp, D1, firstn_map. reflexivity.
  - exists 0%nat. cbn [snd firstn]. rewrite D1, app_nil_r. reflexivity.
Qed.

Lemma stored_ids_after_prefix sessionId state d d' k :
  messages d' = messages d ++ firstn k (message_delta sessionId state d) ->
  stored_message_ids sessionId d'
  = stored_message_ids sessionId d
    ++ firstn k (List.map msg_id
                   (new_messages (list_to_set (stored_message_ids sessionId d))
                      (conversationHistory state))).
Proof.
  intros H. unfold stored_message_ids at 1.
  rewrite (messages_of_app sessionId _ _ _ H). unfold message_delta.
  rewrite !firstn_map, filter_own_rows, map_app, map_map. reflexivity.
Qed.

Lemma stored_ids_stay_distinct_prefix sessionId state d d' k :
  messages d' = messages d ++ firstn k (message_delta sessionId state d) ->
  NoDup (stored_message_ids sessionId d) ->
  NoDup (List.map msg_id (conversationHistory state)) ->
  NoDup (stored_message_ids sessionId d').
Proof.
  intros H Hd Hs. rewrite (stored_ids_after_prefix _ _ _ _ _ H).
  apply NoDup_app. split; [exact Hd|]. split.
  - intros x Hx Hnew. apply subseteq_take in Hnew.
    apply list_elem_of_In, in_map_iff in Hnew as (m & <- & Hm).
    apply filter_In in Hm as [_ Hm]. apply negb_true_iff, bool_decide_eq_false in Hm.
    apply Hm. apply elem_of_list_to_set. exact Hx.
  - eapply sublist_NoDup; [|apply sublist_take]. apply NoDup_map_filter, Hs.
Qed.

Lemma run_saves_distinct_ids sessionId states : forall w,
  NoDup (stored_message_ids sessionId (db w)) ->
  Forall (fun state => NoDup (List.map msg_id (conversationHistory state))) states ->
  NoDup (stored_message_ids sessionId (db (run_saves sessionId states w))).
Proof.
  induction states as [|state states IH]; intros w Hnd Hstates; [exact Hnd|].
  rewrite run_saves_cons. apply Forall_cons_iff in Hstates as [Hstate Hstates].
  apply IH; [|exact Hstates].
  destruct (saveSessionState_messages sessionId state w) as [k Hk].
  eapply stored_ids_stay_distinct_prefix; eauto.
Qed.

Lemma run_saves_no_faults sessionId states : forall w,
  sql_faults w = [] ->
  select_session sessionId (db w) <> [] ->
  sql_faults (run_saves sessionId states w) = []
  /\ select_session sessionId (db (run_saves sessionId states w)) <> [].
Proof.
  induction states as [|state states IH]; intros w H Hex; [auto|].
  rewrite run_saves_cons.
  destruct (saveSessionState_free sessionId state w H)
    as (w' & Hs & Hf & _ & _ & _ & Hsess).
  rewrite Hs. cbn [snd]. apply IH; [exact Hf|].
  rewrite (select_session_by_sessions sessionId
             (update_sessions (set_last_accessed_at (clock w + 1)) sessionId (db w)))
    by exact Hsess.
  rewrite select_session_update by reflexivity.
  destruct (select_session sessionId (db w)); [contradiction|discriminate].
Qed.

Lemma sorted_by_timestamp rows :
  Sorted (fun a b => (message_timestamp a <=? message_timestamp b) = true) rows ->
  Sorted (fun a b => timestamp a <= timestamp b) (List.map message_of_row rows).
Proof.
  induction 1 as [|r rows Hs IH Hhd]; [constructor|].
  cbn [List.map]. constructor; [exact IH|].
  destruct Hhd as [|r' rows' Hle]; constructor.
  apply Z.leb_le in Hle. exact Hle.
Qed.

Lemma increasing_is_in_order rows :
  strictly_increasing rows ->
  Sorted (fun a b => (message_timestamp a <=? message_timestamp b) = true) rows.
Proof.
  intros H. apply StronglySorted_Sorted in H.
  induction H as [|r rows Hs IH Hhd]; [constructor|].
  constructor; [exact IH|]. destruct Hhd as [|r' rows' Hlt]; constructor.
  apply Z.leb_le. lia.
Qed.

Lemma timestamp_total (a b : message_row) :
  (message_timestamp a <=? message_timestamp b) = true
  \/ (message_timestamp b <=? message_timestamp a) = true.
Proof. rewrite !Z.leb_le. lia. Qed.

(** C5, counterexample: two messages saved in one state, the first with the
    later timestamp, come back in the other order. *)
Lemma history_is_ordered_by_timestamp :
  exists session w',
    getSession Samples.session_1
      (run_saves Samples.session_1 [Samples.state_at 0 Samples.out_of_order]
         Samples.created_world)
    = (Return (Some session), w')
    /\ List.map msg_id (conversationHistory (state session)) = [u16 "m2"; u16 "m1"]
    /\ List.map msg_id Samples.out_of_order = [u16 "m1"; u16 "m2"].
Proof. do 2 eexists. split; [vm_compute; reflexivity|]. split; reflexivity. Qed.

(** C5, as amended. With message ids distinct in the store and inside each
    saved state: whatever the store failures, a save writes messages whose
    ids are not stored yet, in the order of the history, and nothing else; a
    save that returns has written all of them, and saving the same state
    again writes none; a session read after any sequence of saves has every
    stored message of the session once, without duplicate ids, ordered by
    timestamp, which is the insertion order where timestamps strictly
    increase along it; and the session is read when it exists and the store
    does not fail. *)
Theorem saved_messages_read_back (sessionId : jsstring) (states : list SessionState)
  (w : world) :
  NoDup (stored_message_ids sessionId (db w)) ->
  Forall (fun state => NoDup (List.map msg_id (conversationHistory state))) states ->
  (* whatever the store failures, a save writes messages whose ids are not
     stored yet, in the order of the history, and nothing else *)
  (forall state,
     (exists k, messages (db (saveSessionState sessionId state w).2)
                = messages (db w) ++ firstn k (message_delta sessionId state (db w)))
     /\ (forall r, In r (message_delta sessionId state (db w)) ->
           ~ In (message_id r) (stored_message_ids sessionId (db w))))
  (* a save that returns has written them all, and saving the same state
     again writes none *)
  /\ (forall state w1,
        saveSessionState sessionId state w = (Return tt, w1) ->
        messages (db w1) = messages (db w) ++ message_delta sessionId state (db w)
        /\ messages (db (saveSessionState sessionId state w1).2) = messages (db w1))
  (* a session read after the saves *)
  /\ (forall session w',
        getSession sessionId (run_saves sessionId states w) = (Return (Some session), w') ->
        NoDup (List.map msg_id (conversationHistory (state session)))
        /\ Permutation (conversationHistory (state session))
             (List.map message_of_row
                (messages_of sessionId (db (run_saves sessionId states w))))
        /\ Sorted (fun a b => timestamp a <= timestamp b)
             (conversationHistory (state session))
        /\ (strictly_increasing (messages_of sessionId (db (run_saves sessionId states w))) ->
            conversationHistory (state session)
            = List.map message_of_row
                (messages_of sessionId (db (run_saves sessionId states w)))))
  (* which there is when the session exists and the store does not fail *)
  /\ (sql_faults w = [] -> select_session sessionId (db w) <> [] ->
      exists session w',
        getSession sessionId (run_saves sessionId states w) = (Return (Some session), w')).
Proof.
  intros Hnd Hstates. split; [|split; [|split]].
  - intros state. split; [apply saveSessionState_messages|].
    intros r Hr. apply (delta_ids_are_new _ _ _ _ Hr).
  - intros state w1 Hs. pose proof (saveSessionState_returned _ _ _ _ Hs) as Hm.
    split; [exact Hm|].
    destruct (saveSessionState_messages sessionId state w1) as [k Hk].
    rewrite Hk, (delta_after_save _ _ _ _ Hm). destruct k; apply app_nil_r.
  - intros session w' Hget.
    pose proof (run_saves_distinct_ids sessionId states w Hnd Hstates) as Hnd'.
    set (w1 := run_saves sessionId states w) in *.
    destruct (getSession_returned _ _ _ _ Hget) as (Hh & _ & _). rewrite Hh.
    unfold select_messages.
    set (before := fun a b : message_row => message_timestamp a <=? message_timestamp b).
    pose proof (order_by_perm before (messages_of sessionId (db w1))) as Hp.
    split; [|split; [|split]].
    + rewrite map_map. unfold stored_message_ids in Hnd'.
      change (fun x => msg_id (message_of_row x)) with message_id.
      apply (Permutation_map message_id) in Hp.
      rewrite Hp. exact Hnd'.
    + apply Permutation_map. exact Hp.
    + apply sorted_by_timestamp. apply order_by_sorted. exact timestamp_total.
    + intros Hinc. f_equal. apply order_by_in_order, increasing_is_in_order, Hinc.
  - intros H Hex.
    destruct (run_saves_no_faults sessionId states w H Hex) as [Hf Hex'].
    rewrite getSession_free by exact Hf.
    destruct (select_session sessionId (db (run_saves sessionId states w)));
      [contradiction|eauto].
Qed.

Lemma saved_messages_read_back_witness :
  exists session w',
    getSession Samples.session_1
      (run_saves Samples.session_1
         [Samples.state_at 0 Samples.synced;
          Samples.state_at 0 (Samples.synced ++ Samples.composed_offline)]
         Samples.created_world)
    = (Return (Some session), w')
    /\ List.map msg_id (conversationHistory (state session))
       = [u16 "m1"; u16 "m2"; u16 "m3"; u16 "m4"; u16 "m5"].
Proof.
  destruct (saved_messages_read_back Samples.session_1
              [Samples.state_at 0 Samples.synced;
               Samples.state_at 0 (Samples.synced ++ Samples.composed_offline)]
              Samples.created_world) as (_ & _ & Hread & Hexists).
  - apply (bool_decide_eq_true_1 (NoDup _)). vm_compute. reflexivity.
  - constructor; [|constructor; [|constructor]];
      apply (bool_decide_eq_true_1 (NoDup _)); vm_compute; reflexivity.
  - destruct Hexists as (session & w' & Hget);
      [reflexivity | vm_compute; discriminate |].
    destruct (Hread session w' Hget) as (_ & _ & _ & Hinc).
    exists session, w'. split; [exact Hget|]. rewrite Hinc.
    + vm_compute. reflexivity.
    + vm_compute. repeat constructor; reflexivity.
Defined.

(** ** Synchronising the offline queue *)








End Sessions.

(* ===================================================================== *)
(** * More on the reading of a response *)
(* ===================================================================== *)

Section Responses.
Import PRDEngine.

(** ** Responses that are JSON, but not what the prompt asked for *)

(** X1. A response that is a JSON text but no object. For [null] reading
    [missingSections] throws and the engine falls back to the current
    specification. For a number, a string, a boolean or an array both reads
    give [undefined]: the engine returns no specification at all and an
    empty list of missing sections. *)
Theorem synthesize_non_object (llmRouter : LLMRouter) (input : PRDEngineInput)
  (response : CompletionResponse) (v : json) :
  complete llmRouter (request_of input) = Return response ->
  JSON_parse (strip_fences (response_content response)) = Some v ->
  (forall members, v <> JObj members) ->
  synthesize llmRouter input
  = Return (match v with
            | JNull => fallback input
            | _ => {| spec := FromModel JSUndefined; missingSections := [] |}
            end).
Proof.
  intros Hc Hp Hno. rewrite (synthesize_parsed _ _ _ _ Hc Hp).
  destruct v; try reflexivity. exfalso. eapply Hno. reflexivity.
Qed.

Lemma synthesize_non_object_witness :
  synthesize (answering (u16 "[1, 2]")) Samples.sample_update
  = Return {| spec := FromModel JSUndefined; missingSections := [] |}.
Proof.
  apply (synthesize_non_object (answering (u16 "[1, 2]")) Samples.sample_update
           {| response_content := u16 "[1, 2]" |}
           (JArr [JNum (u16 "1"); JNum (u16 "2")])).
  - reflexivity.
  - vm_compute. reflexivity.
  - intros members. discriminate.
Defined.

(** X2. A response object that has a [missingSections] other than [null].
    Only an array whose items can all be converted to strings is accepted:
    it is returned as it is, its items unchecked, with whatever the object
    has under [spec]. For any other value, [false], [0] and the empty string
    included, the log line throws, and the specification of the response is
    dropped for the fallback. *)
Theorem synthesize_missing_sections_present (llmRouter : LLMRouter)
  (input : PRDEngineInput) (response : CompletionResponse)
  (members : list (jsstring * json)) (x : json) :
  complete llmRouter (request_of input) = Return response ->
  JSON_parse (strip_fences (response_content response)) = Some (JObj members) ->
  lookup_member (u16 "missingSections") members = Some x ->
  x <> JNull ->
  synthesize llmRouter input
  = Return (match x with
            | JArr items =>
                if existsb to_string_throws items then fallback input
                else {| spec := FromModel
                                  (match lookup_member (u16 "spec") members with
                                   | Some s => JSValue s
                                   | None => JSUndefined
                                   end);
                        missingSections := items |}
            | _ => fallback input
            end).
Proof.
  intros Hc Hp Hx Hnn. rewrite (synthesize_parsed _ _ _ _ Hc Hp).
  unfold get_property. rewrite Hx, bind_Return.
  destruct x as [|b|l|s|items|ms]; try reflexivity; [contradiction|].
  unfold missing_sections_of. destruct (existsb to_string_throws items); [reflexivity|].
  rewrite bind_Return. destruct (lookup_member (u16 "spec") members); reflexivity.
Qed.

Lemma synthesize_missing_sections_present_witness :
  synthesize (answering (jtext "{'spec': {'a': 1}, 'missingSections': false}"))
    Samples.sample_update
  = Return (fallback Samples.sample_update).
Proof.
  apply (synthesize_missing_sections_present
           (answering (jtext "{'spec': {'a': 1}, 'missingSections': false}"))
           Samples.sample_update
           {| response_content := jtext "{'spec': {'a': 1}, 'missingSections': false}" |}
           [(u16 "spec", JObj [(u16 "a", JNum (u16 "1"))]);
            (u16 "missingSections", JBool false)]
           (JBool false)).
  - reflexivity.
  - vm_compute. reflexivity.
  - vm_compute. reflexivity.
  - discriminate.
Defined.

(** ** White space around the response *)

Lemma trim_start_all_spaces s : forallb is_js_space s = true -> trim_start s = [].
Proof.
  intros H. rewrite <- (app_nil_r s). rewrite trim_start_spaces by exact H. reflexivity.
Qed.

Lemma trim_start_nil s : trim_start s = [] -> forallb is_js_space s = true.
Proof.
  intros H. destruct (trim_start_split s) as (pre & E & Hpre).
  rewrite H, app_nil_r in E. rewrite E. exact Hpre.
Qed.

Lemma trim_padded pre s post :
  forallb is_js_space pre = true -> forallb is_js_space post = true ->
  trim (pre ++ s ++ post) = trim s.
Proof.
  intros Hpre Hpost. unfold trim. rewrite trim_start_spaces by exact Hpre.
  destruct (trim_start s) as [|c r] eqn:E.
  - apply trim_start_nil in E.
    rewrite trim_start_all_spaces; [reflexivity|].
    rewrite forallb_app, E, Hpost. reflexivity.
  - rewrite trim_start_app by (rewrite E; discriminate).
    rewrite E. apply trim_end_spaces. exact Hpost.
Qed.

(** X3. White space around the response never matters: the engine trims
    the text before it looks at it, so a response and the same response
    between any white-space characters of JavaScript give the same
    result. *)
Theorem synthesize_ignores_outer_space (input : PRDEngineInput)
  (pre text post : jsstring) :
  forallb is_js_space pre = true ->
  forallb is_js_space post = true ->
  synthesize (answering (pre ++ text ++ post)) input
  = synthesize (answering text) input.
Proof.
  intros Hpre Hpost. unfold synthesize, answering. cbn [complete].
  rewrite !bind_Return. cbn [response_content].
  unfold strip_fences. rewrite trim_padded by assumption. reflexivity.
Qed.

Lemma synthesize_ignores_outer_space_witness :
  synthesize (answering ([10; 160] ++ Samples.answer_text ++ [32; 10]))
    Samples.sample_update
  = synthesize (answering Samples.answer_text) Samples.sample_update.
Proof.
  apply (synthesize_ignores_outer_space Samples.sample_update [10; 160]
           Samples.answer_text [32; 10]); reflexivity.
Defined.

(** ** What reaches the gateway *)

(** X4. The request depends on the input through the summary of the
    current specification and, for an update, the roles and the contents of
    the new messages, and on nothing else: not on [isFirstRun], not on the
    formal PRD, the version or the identifier of the specification, not on
    the identifiers, times or metadata of the messages. [isFirstRun] has no
    effect on the result either. *)
Theorem request_carries_summary_and_messages
  (s s' : Specification) (lastMessages lastMessages' : list Message)
  (isFirstRun isFirstRun' : bool) :
  plainEnglishSummary s = plainEnglishSummary s' ->
  List.map (fun m => (role m, content m)) lastMessages
  = List.map (fun m => (role m, content m)) lastMessages' ->
  request_of (update s lastMessages isFirstRun)
  = request_of (update s' lastMessages' isFirstRun')
  /\ request_of (finalize s) = request_of (finalize s')
  /\ (forall llmRouter,
        synthesize llmRouter (update s lastMessages isFirstRun)
        = synthesize llmRouter (update s lastMessages isFirstRun')).
Proof.
  intros Hs Hm. split; [|split].
  - unfold request_of, buildPrompt, buildUpdatePrompt. rewrite Hs.
    do 4 f_equal.
    change (fun m : Message => toUpperCase (role m) ++ u16 ": " ++ content m)
      with (fun m : Message =>
              (fun p : Role * jsstring => toUpperCase p.1 ++ u16 ": " ++ p.2)
                ((fun m => (role m, content m)) m)).
    rewrite <- !(map_map (fun m : Message => (role m, content m))
                   (fun p : Role * jsstring => toUpperCase p.1 ++ u16 ": " ++ p.2)).
    rewrite Hm. reflexivity.
  - unfold request_of, buildPrompt, buildFinalizePrompt. rewrite Hs. reflexivity.
  - intros llmRouter. reflexivity.
Qed.

Lemma request_carries_summary_and_messages_witness :
  request_of (update Samples.dog_food_spec [Samples.first_message] true)
  = request_of
      (update {| spec_id := u16 "other"; version := 7;
                 plainEnglishSummary := Samples.dog_food_summary;
                 formalPRD := JNull; lastUpdated := 0 |}
         [Samples.message "m9" user "I want to sell dog food online" 5] false).
Proof.
  apply (request_carries_summary_and_messages Samples.dog_food_spec
           {| spec_id := u16 "other"; version := 7;
              plainEnglishSummary := Samples.dog_food_summary;
              formalPRD := JNull; lastUpdated := 0 |}
           [Samples.first_message]
           [Samples.message "m9" user "I want to sell dog food online" 5]
           true false); reflexivity.
Defined.

(** X5. The text of the messages does not keep them apart: a message whose
    content goes on with a blank line, a role in capitals, a colon and more
    text gives the same prompt, hence the same request and the same result,
    as two messages. *)
Theorem message_text_is_ambiguous (s : Specification) (m1 m2 : Message)
  (rest : list Message) (isFirstRun : bool) :
  let merged :=
    {| msg_id := msg_id m1; role := role m1;
       content := content m1 ++ [10; 10] ++ toUpperCase (role m2) ++ u16 ": "
                    ++ content m2;
       timestamp := timestamp m1; metadata := metadata m1 |} in
  buildUpdatePrompt s (m1 :: m2 :: rest) = buildUpdatePrompt s (merged :: rest)
  /\ (forall llmRouter,
        synthesize llmRouter (update s (m1 :: m2 :: rest) isFirstRun)
        = synthesize llmRouter (update s (merged :: rest) isFirstRun)).
Proof.
  intros merged.
  assert (E : buildUpdatePrompt s (m1 :: m2 :: rest) = buildUpdatePrompt s (merged :: rest)).
  { unfold buildUpdatePrompt. f_equal. cbn [List.map role content merged].
    destruct rest as [|m3 rest]; cbn [List.map join]; rewrite <- ?app_assoc; reflexivity. }
  split; [exact E|].
  intros llmRouter. unfold synthesize, request_of, buildPrompt. rewrite E. reflexivity.
Qed.

(** ** A fence that is not closed *)

Ltac branch_cases H :=
  repeat match type of H with
  | (if ?b then _ else _) = _ =>
      destruct b; try discriminate; try (injection H as <- <-; reflexivity)
  end;
  try discriminate.

Lemma lex_start_keeps_letters c ts st' :
  lex_start c = Some (ts, st') -> keyword_state_letters st' = true.
Proof. intros H. unfold lex_start in H. branch_cases H. Qed.

Lemma lex_step_keeps_letters st c ts st' :
  keyword_state_letters st = true -> lex_step st c = Some (ts, st') ->
  keyword_state_letters st' = true.
Proof.
  intros Hok H. destruct st; simpl in *.
  - eapply lex_start_keeps_letters; eauto.
  - branch_cases H.
  - unfold lex_escape in H. branch_cases H.
  - destruct (hex_value c); [|discriminate].
    destruct todo as [|[|k]]; try discriminate; injection H as <- <-; reflexivity.
  - destruct expect as [|e [|e' rest]]; try discriminate;
      destruct (c =? e); try discriminate; injection H as <- <-; [reflexivity|].
    simpl in Hok. apply andb_true_iff in Hok as [_ Hok]. exact Hok.
  - assert (Hend : forall ph acc,
              lex_number_end ph acc c = Some (ts, st') -> keyword_state_letters st' = true).
    { intros ph0 acc0 He. unfold lex_number_end in He.
      destruct (num_accepting ph0); [|discriminate].
      destruct (lex_start c) as [[ts0 st0]|] eqn:E; [|discriminate].
      injection He as <- <-. eapply lex_start_keeps_letters; eauto. }
    destruct ph; simpl in H; branch_cases H; eauto.
Qed.

(* inside a string, back quotes and white space do not end it *)
Lemma lex_string_backquotes b : forall acc,
  forallb (fun c => (c =? 96) || is_js_space c) b = true ->
  lex_from (LString acc) b = None.
Proof.
  induction b as [|c b IH]; intros acc Hb; [reflexivity|].
  simpl in Hb. apply andb_true_iff in Hb as [Hc Hb]. simpl.
  assert (Hcases : c = 96 \/ c = 9 \/ c = 10 \/ c = 11 \/ c = 12 \/ c = 13 \/ c = 32
                   \/ 160 <= c).
  { apply orb_true_iff in Hc as [Hc | Hc].
    - apply N.eqb_eq in Hc. auto.
    - right. apply js_space_cases. exact Hc. }
  destruct (N.eqb_spec c 34); [lia|]. destruct (N.eqb_spec c 92); [lia|].
  destruct (c <? 32); [reflexivity|]. rewrite (IH _ Hb). reflexivity.
Qed.

(* no JSON text goes on with a fence and white space up to its end *)
Lemma lex_fence_to_end st ws :
  keyword_state_letters st = true -> forallb is_js_space ws = true ->
  lex_from st (fence ++ ws) = None.
Proof.
  intros Hok Hws. change (fence ++ ws) with (96 :: [96; 96] ++ ws).
  cbn [lex_from].
  destruct (lex_step st 96) as [[ts st']|] eqn:E; [|reflexivity].
  assert (Hst : exists acc, st' = LString acc).
  { destruct st; cbn [lex_step] in E.
    - discriminate.
    - injection E as _ <-. eauto.
    - discriminate.
    - discriminate.
    - destruct expect as [|e [|e' rest]]; try discriminate;
        cbn [keyword_state_letters forallb] in Hok;
        apply andb_true_iff in Hok as [He _];
        apply andb_true_iff in He as [He _]; apply N.leb_le in He;
        destruct (N.eqb_spec 96 e); try discriminate; exfalso; lia.
    - destruct ph; simpl in E; try discriminate;
        unfold lex_number_end in E; destruct (num_accepting _); discriminate. }
  destruct Hst as [acc ->].
  rewrite lex_string_backquotes; [reflexivity|].
  cbn [app forallb]. cbn. 
  induction ws as [|c ws IH]; [reflexivity|].
  simpl in Hws. apply andb_true_iff in Hws as [Hc Hws].
  cbn [forallb]. rewrite Hc, orb_true_r. apply IH. exact Hws.
Qed.

Lemma starts_with_fence s :
  starts_with fence s = true -> s = fence ++ skipn 3 s.
Proof.
  unfold fence. destruct s as [|a [|b [|c r]]]; cbn [starts_with skipn app];
    try discriminate; rewrite ?andb_false_r; try discriminate.
  intros H. apply andb_true_iff in H as [Ha H]. apply andb_true_iff in H as [Hb H].
  apply andb_true_iff in H as [Hc _].
  apply N.eqb_eq in Ha, Hb, Hc. subst. reflexivity.
Qed.

Lemma strip_closing_fence_of_json x : forall st ts,
  keyword_state_letters st = true -> lex_from st x = Some ts ->
  strip_closing_fence x = x.
Proof.
  induction x as [|c x IH]; intros st ts Hok Hl; [reflexivity|].
  cbn [strip_closing_fence].
  destruct (starts_with fence (c :: x) && forallb is_js_space (skipn 3 (c :: x))) eqn:E.
  - apply andb_true_iff in E as [Hf Hws]. apply starts_with_fence in Hf.
    rewrite Hf, lex_fence_to_end in Hl by assumption. discriminate.
  - cbn [lex_from] in Hl.
    destruct (lex_step st c) as [[ts0 st']|] eqn:Es; [|discriminate].
    destruct (lex_from st' x) as [out|] eqn:El; [|discriminate].
    f_equal. apply (IH st' out); [|exact El].
    eapply lex_step_keeps_letters; eauto.
Qed.

Lemma trim_start_idem s : trim_start (trim_start s) = trim_start s.
Proof.
  destruct (trim_start s) as [|c r] eqn:E; [reflexivity|].
  apply trim_start_head in E. cbn [trim_start]. rewrite E. reflexivity.
Qed.

Lemma trim_end_idem s : trim_end (trim_end s) = trim_end s.
Proof. unfold trim_end. rewrite rev_involutive, trim_start_idem. reflexivity. Qed.

Lemma trim_end_kept a t : t <> [] -> trim_end t = t -> trim_end (a ++ t) = a ++ t.
Proof.
  intros Hne Ht. unfold trim_end in *. rewrite rev_app_distr.
  assert (E : trim_start (rev t) = rev t).
  { rewrite <- Ht at 2. rewrite rev_involutive. reflexivity. }
  rewrite trim_start_app.
  - rewrite E, rev_app_distr, !rev_involutive. reflexivity.
  - rewrite E. intros Hr. apply Hne. rewrite <- (rev_involutive t), Hr. reflexivity.
Qed.

Lemma JSON_parse_trim_end s v : JSON_parse s = Some v -> JSON_parse (trim_end s) = Some v.
Proof.
  intros H. destruct (JSON_parse_tokens _ _ H) as (t & ts & Hl).
  rewrite <- H. apply JSON_parse_by_tokens. rewrite Hl. apply lex_trim_end, Hl.
Qed.

(** X6. An opening fence without a closing one: the text after the fence,
    its optional tag [json] and the white space that follows is parsed as
    it is, so the response gives the same result as its payload alone. No
    part of a JSON text is ever taken for a closing fence. *)
Theorem unclosed_fence_parses_identically
  (input : PRDEngineInput) (pre : jsstring) (tagged : bool)
  (sep1 payload post : jsstring) (v : json) :
  forallb is_js_space pre = true ->
  forallb is_js_space sep1 = true ->
  forallb is_js_space post = true ->
  JSON_parse payload = Some v ->
  strip_closing_fence payload = payload
  /\ synthesize
       (answering (pre ++ fence ++ (if tagged then u16 "json" else []) ++ sep1
                     ++ payload ++ post)) input
     = synthesize (answering payload) input.
Proof.
  intros Hpre Hsep Hpost Hv.
  assert (Hclose : forall s u, JSON_parse s = Some u -> strip_closing_fence s = s).
  { intros s u Hs. destruct (JSON_parse_tokens _ _ Hs) as (t & ts & Hl).
    apply (strip_closing_fence_of_json s LStart (t :: ts)); [reflexivity|exact Hl]. }
  split; [apply (Hclose _ _ Hv)|].
  set (tag := if tagged then u16 "json" else []).
  set (kept := trim_end payload).
  assert (Hk : JSON_parse kept = Some v) by (apply JSON_parse_trim_end, Hv).
  assert (Hkne : kept <> []).
  { destruct (JSON_text_head _ _ Hk) as (c & r & Hc & _). intros E. rewrite E in Hc.
    discriminate. }
  destruct (trim_end_split payload) as (post' & Hsplit & Hpost'). fold kept in Hsplit.
  assert (Htrim : trim (pre ++ fence ++ tag ++ sep1 ++ payload ++ post)
                  = fence ++ tag ++ sep1 ++ kept).
  { replace (pre ++ fence ++ tag ++ sep1 ++ payload ++ post)
      with (pre ++ (fence ++ tag ++ sep1 ++ kept) ++ (post' ++ post))
      by (rewrite <- !app_assoc; do 4 f_equal; rewrite app_assoc, <- Hsplit;
          reflexivity).
    rewrite trim_padded; [|exact Hpre|rewrite forallb_app, Hpost', Hpost; reflexivity].
    unfold trim.
    change (trim_start (fence ++ tag ++ sep1 ++ kept)) with (fence ++ tag ++ sep1 ++ kept).
    replace (fence ++ tag ++ sep1 ++ kept) with ((fence ++ tag ++ sep1) ++ kept)
      by (rewrite <- !app_assoc; reflexivity).
    apply trim_end_kept; [exact Hkne|apply trim_end_idem]. }
  assert (Hparsed : JSON_parse
                      (strip_fences (pre ++ fence ++ tag ++ sep1 ++ payload ++ post))
                    = Some v).
  { unfold strip_fences. rewrite Htrim.
    change (starts_with fence (fence ++ tag ++ sep1 ++ kept)) with true. cbv iota.
    pose proof (strip_opening_fence_tagged tagged sep1 kept [] v Hsep Hk) as Ho.
    rewrite !app_nil_r in Ho. fold tag in Ho. rewrite Ho.
    pose proof (JSON_parse_trim_start _ _ Hk) as Hts.
    rewrite (Hclose _ _ Hts). exact Hts. }
  assert (Hbare : JSON_parse (strip_fences payload) = Some v).
  { rewrite (strip_fences_bare _ _ Hv). apply JSON_parse_trim, Hv. }
  rewrite (synthesize_parsed (answering _) input {| response_content := _ |} v
             eq_refl Hparsed).
  rewrite (synthesize_parsed (answering payload) input
             {| response_content := payload |} v eq_refl Hbare).
  reflexivity.
Qed.

Lemma unclosed_fence_parses_identically_witness :
  synthesize (answering (fence ++ u16 "json" ++ [10] ++ Samples.answer_text))
    Samples.sample_update
  = synthesize (answering Samples.answer_text) Samples.sample_update.
Proof.
  destruct (unclosed_fence_parses_identically Samples.sample_update [] true [10]
              Samples.answer_text []
              (JObj [(u16 "spec",
                      JObj [(u16 "plainEnglishSummary",
                             JObj [(u16 "targetUsers", JStr (u16 "Dog owners"))])]);
                     (u16 "missingSections", JArr [JStr (u16 "flows")])]))
    as [_ H]; [reflexivity | reflexivity | reflexivity | vm_compute; reflexivity |].
  rewrite app_nil_r in H. exact H.
Defined.

End Responses.

(* ===================================================================== *)
(** * More on the session manager *)
(* ===================================================================== *)

Section Lifecycle.
Import SessionManager.
#[local] Open Scope Z_scope.

(** ** Reading a session *)

Lemma query_run {A} (q : database -> A) w :
  exists fs,
    query q w = (Return (q (db w)), with_sql_faults w fs)
    \/ exists e, query q w = (Throw e, with_sql_faults w fs).
Proof.
  unfold query. destruct (sql_cases (fun d => (q d, d)) w) as [fs [H | [e H]]];
    exists fs; [left|right; exists e]; rewrite H; [|reflexivity].
  cbn [fst snd]. destruct w; reflexivity.
Qed.

(** X7. [getSession] answers [null] only for an identifier without a session
    row, and then it has changed nothing: no table, not the clock, not
    [localStorage]; without store failures the world is as it was. *)
Theorem getSession_unknown (sessionId : jsstring) (w : world) :
  (forall w', getSession sessionId w = (Return None, w') ->
     select_session sessionId (db w) = []
     /\ db w' = db w /\ clock w' = clock w /\ window w' = window w)
  /\ (select_session sessionId (db w) = [] -> sql_faults w = [] ->
      getSession sessionId w = (Return None, w)).
Proof.
  split.
  - intros w' Hg.
    assert (Hnone : select_session sessionId (db w) = []).
    { apply unaffected_getSession in Hg.
      rewrite getSession_free in Hg by reflexivity. cbn [db with_sql_faults] in Hg.
      destruct (select_session sessionId (db w)); [reflexivity|discriminate]. }
    split; [exact Hnone|].
    unfold getSession in Hg. rewrite bind_run in Hg.
    destruct (query_run (select_session sessionId) w) as [fs [Hq | [e Hq]]];
      rewrite Hq in Hg; [|discriminate].
    rewrite Hnone in Hg. injection Hg as <-. auto.
  - intros Hnone Hf. rewrite getSession_free by exact Hf. rewrite Hnone. reflexivity.
Qed.

Lemma getSession_unknown_witness :
  getSession (u16 "nobody") Samples.created_world
  = (Return None, Samples.created_world).
Proof.
  apply (getSession_unknown (u16 "nobody") Samples.created_world); reflexivity.
Defined.

(** X8. Two reads in a row, without store failures: both return the
    session, the same but for [lastAccessedAt]. The first reports the access
    time that was stored, the second the time of the first read. *)
Theorem getSession_twice (sessionId : jsstring) (w : world) :
  sql_faults w = [] ->
  select_session sessionId (db w) <> [] ->
  exists first w1 second w2,
    getSession sessionId w = (Return (Some first), w1)
    /\ getSession sessionId w1 = (Return (Some second), w2)
    /\ same_but_last_access first second
    /\ (forall row rest, select_session sessionId (db w) = row :: rest ->
          lastAccessedAt first = last_accessed_at row)
    /\ lastAccessedAt second = clock w.
Proof.
  intros Hf Hex.
  destruct (select_session sessionId (db w)) as [|row rest] eqn:Hsel; [contradiction|].
  destruct (filter_head_in _ _ _ _ Hsel) as [_ Hid]. apply bool_decide_eq_true_1 in Hid.
  exists (session_view sessionId row (db w)), (touched sessionId w).
  exists (session_view sessionId (set_last_accessed_at (clock w) row)
            (db (touched sessionId w))), (touched sessionId (touched sessionId w)).
  split; [rewrite getSession_free, Hsel by exact Hf; reflexivity|].
  split.
  { rewrite getSession_free by exact Hf. cbn [db touched].
    rewrite select_session_update by reflexivity. rewrite Hsel. cbn [List.map].
    rewrite bool_decide_eq_true_2 by exact Hid. reflexivity. }
  split.
  { pose proof (session_view_touched sessionId sessionId (clock w) row (db w)) as Hv.
    rewrite bool_decide_eq_true_2 in Hv by exact Hid. exact Hv. }
  split.
  { intros row' rest' E. injection E as <- _. unfold session_view.
    destruct (read_specification _ _ _). reflexivity. }
  unfold session_view. destruct (read_specification _ _ _). reflexivity.
Qed.

Lemma getSession_twice_witness :
  exists first w1 second w2,
    getSession Samples.session_1 Samples.created_world = (Return (Some first), w1)
    /\ getSession Samples.session_1 w1 = (Return (Some second), w2)
    /\ same_but_last_access first second
    /\ lastAccessedAt second = clock Samples.created_world.
Proof.
  destruct (getSession_twice Samples.session_1 Samples.created_world)
    as (first & w1 & second & w2 & H1 & H2 & H3 & _ & H5);
    [reflexivity | vm_compute; discriminate |].
  exists first, w1, second, w2. auto.
Defined.

(** ** A session created halfway *)

Lemma messages_of_none sessionId d :
  (forall r, In r (messages d) -> message_session_id r <> sessionId) ->
  messages_of sessionId d = [].
Proof.
  intros H. apply filter_none. intros r Hr. apply bool_decide_eq_false_2. auto.
Qed.

Lemma specifications_of_none sessionId d :
  (forall r, In r (specifications d) -> session_id r <> sessionId) ->
  specifications_of sessionId d = [].
Proof.
  intros H. apply filter_none. intros r Hr. apply bool_decide_eq_false_2. auto.
Qed.

Lemma select_session_none sessionId d :
  (forall r, In r (sessions d) -> id r <> sessionId) ->
  select_session sessionId d = [].
Proof.
  intros H. apply filter_none. intros r Hr. apply bool_decide_eq_false_2. auto.
Qed.

(** X9. When the store fails on the second statement of [createSession],
    the call throws, but the session row is there: reading the identifier
    that was drawn returns the very session a successful [createSession]
    would have returned, built from the defaults of [getSession]. *)
Theorem createSession_half_done (w : world) (e : js_error) :
  sql_faults w = [None; Some e] ->
  (forall r, In r (sessions (db w)) -> id r <> uuid_stream w (uuid_drawn w)) ->
  (forall r, In r (messages (db w)) ->
             message_session_id r <> uuid_stream w (uuid_drawn w)) ->
  (forall r, In r (specifications (db w)) ->
             session_id r <> uuid_stream w (uuid_drawn w)) ->
  exists w1 got w2 created w1',
    createSession w = (Throw e, w1)
    /\ specifications (db w1) = specifications (db w)
    /\ getSession (uuid_stream w (uuid_drawn w)) w1 = (Return (Some got), w2)
    /\ createSession (with_sql_faults w []) = (Return created, w1')
    /\ got = created.
Proof.
  intros Hf Hs Hm Hp.
  set (sessionId := uuid_stream w (uuid_drawn w)) in *.
  pose proof (createSession_free (with_sql_faults w []) eq_refl) as Hfree.
  cbn zeta in Hfree. cbn [uuid_stream uuid_drawn clock db with_sql_faults] in Hfree.
  fold sessionId in Hfree.
  assert (Hc : exists w1,
             createSession w = (Throw e, w1)
             /\ sql_faults w1 = []
             /\ db w1 = insert_session
                          {| id := sessionId; created_at := clock w;
                             last_accessed_at := clock w;
                             magic_link_token := None; status := active |} (db w)).
  { unfold createSession.
    rewrite bind_run. unfold uuidv4 at 1.
    rewrite bind_run. unfold now at 1.
    rewrite bind_run. unfold exec at 1, sql at 1. cbn [sql_faults]. rewrite Hf.
    cbn [db with_db with_sql_faults sql_faults uuid_stream uuid_drawn clock window].
    rewrite bind_run. unfold uuidv4 at 1.
    rewrite bind_run. unfold exec at 1, sql at 1.
    cbn [db with_db with_sql_faults sql_faults uuid_stream uuid_drawn clock window].
    eexists. split; [reflexivity|]. split; reflexivity. }
  destruct Hc as (w1 & Hc & Hf1 & Hd1).
  eexists w1, _, _, _, _. split; [exact Hc|].
  split; [rewrite Hd1; reflexivity|].
  split; [|split; [exact Hfree|]].
  - rewrite getSession_free by exact Hf1. rewrite Hd1.
    unfold select_session, insert_session. cbn [sessions].
    rewrite List.filter_app. fold (select_session sessionId (db w)).
    rewrite select_session_none by exact Hs. cbn [List.filter app id].
    rewrite bool_decide_eq_true_2 by reflexivity. reflexivity.
  - unfold session_view, select_latest_specification, select_messages.
    unfold specifications_of, messages_of, insert_session. cbn [specifications messages].
    fold (specifications_of sessionId (db w)). fold (messages_of sessionId (db w)).
    rewrite specifications_of_none by exact Hp.
    rewrite messages_of_none by exact Hm. reflexivity.
Qed.

Lemma createSession_half_done_witness :
  exists w1 got w2 created w1',
    createSession (with_sql_faults Samples.fresh_world [None; Some Samples.timeout])
      = (Throw Samples.timeout, w1)
    /\ getSession (u16 "uuid-0") w1 = (Return (Some got), w2)
    /\ createSession Samples.fresh_world = (Return created, w1')
    /\ got = created.
Proof.
  destruct (createSession_half_done
              (with_sql_faults Samples.fresh_world [None; Some Samples.timeout])
              Samples.timeout)
    as (w1 & got & w2 & created & w1' & H1 & _ & H3 & H4 & H5);
    [reflexivity | intros r [] | intros r [] | intros r [] |].
  exists w1, got, w2, created, w1'. auto.
Defined.

(** ** Magic links and abandoned sessions *)

Lemma update_sessions_none f sessionId d :
  select_session sessionId d = [] -> update_sessions f sessionId d = d.
Proof.
  intros Hn. unfold update_sessions. destruct d as [ss ms sp]. cbn [sessions messages specifications].
  f_equal. unfold select_session in Hn. cbn [sessions] in Hn.
  rewrite filter_nil_iff in Hn.
  induction ss as [|r l IH]; [reflexivity|]. cbn [List.map].
  rewrite (Hn r) by (left; reflexivity). f_equal. apply IH.
  intros x Hx. apply Hn. right. exact Hx.
Qed.

(** X10. [generateMagicLink] does not check that the session exists: for an
    identifier without a session row it still returns a token, stores
    nothing, and the token is refused when it is used. *)
Theorem magic_link_for_unknown_session (sessionId : jsstring) (w : world) :
  sql_faults w = [] ->
  select_session sessionId (db w) = [] ->
  ~ holds_token (uuid_stream w (uuid_drawn w)) (db w) ->
  exists token w1,
    generateMagicLink sessionId w = (Return token, w1)
    /\ db w1 = db w
    /\ restoreSessionFromMagicLink token w1 = (Throw invalid_token, w1).
Proof.
  intros Hf Hn Hfresh.
  rewrite generateMagicLink_free by exact Hf.
  eexists _, _. split; [reflexivity|].
  cbn [db]. rewrite update_sessions_none by exact Hn.
  split; [reflexivity|].
  rewrite restore_free by exact Hf. cbn [db].
  apply select_by_token_nil in Hfresh. rewrite Hfresh. reflexivity.
Qed.

Lemma magic_link_for_unknown_session_witness :
  exists token w1,
    generateMagicLink (u16 "nobody") Samples.created_world = (Return token, w1)
    /\ db w1 = db Samples.created_world
    /\ restoreSessionFromMagicLink token w1 = (Throw invalid_token, w1).
Proof.
  apply (magic_link_for_unknown_session (u16 "nobody") Samples.created_world).
  - reflexivity.
  - reflexivity.
  - intros (r & Hr & Ht). vm_compute in Hr. destruct Hr as [<- | []]. discriminate.
Defined.

Lemma filter_map_same {A} (p : A -> bool) (f : A -> A) l :
  (forall x, p (f x) = p x) ->
  List.filter p (List.map f l) = List.map f (List.filter p l).
Proof.
  intros H. induction l as [|x l IH]; [reflexivity|]. cbn [List.map List.filter].
  rewrite H. destruct (p x); cbn [List.map]; rewrite IH; reflexivity.
Qed.

Lemma firstn_of_map {A B} (f : A -> B) n l :
  firstn n (List.map f l) = List.map f (firstn n l).
Proof.
  revert l. induction n as [|n IH]; intros [|x l]; cbn; try reflexivity. f_equal. apply IH.
Qed.

Lemma session_view_status sessionId sid s row d :
  session_view sessionId
    (if bool_decide (id row = sid) then set_status s row else row)
    (update_sessions (set_status s) sid d)
  = session_view sessionId row d.
Proof.
  unfold session_view.
  change (select_latest_specification sessionId (update_sessions (set_status s) sid d))
    with (select_latest_specification sessionId d).
  change (select_messages sessionId (update_sessions (set_status s) sid d))
    with (select_messages sessionId d).
  assert (E : read_specification sessionId
                (if bool_decide (id row = sid) then set_status s row else row)
                (select_latest_specification sessionId d)
              = read_specification sessionId row (select_latest_specification sessionId d)).
  { unfold read_specification.
    destruct (select_latest_specification sessionId d); [|reflexivity].
    destruct (bool_decide (id row = sid)); reflexivity. }
  rewrite E.
  destruct (read_specification sessionId row (select_latest_specification sessionId d)).
  destruct (bool_decide (id row = sid)); reflexivity.
Qed.

Lemma select_by_token_update token f sid d :
  (forall r, magic_link_token (f r) = magic_link_token r) ->
  select_by_token token (update_sessions f sid d)
  = List.map (fun r => if bool_decide (id r = sid) then f r else r)
      (select_by_token token d).
Proof.
  intros Hk. unfold select_by_token, update_sessions. cbn [sessions].
  rewrite filter_map_same, firstn_of_map; [reflexivity|].
  intros r. destruct (bool_decide (id r = sid)); [rewrite Hk|]; reflexivity.
Qed.

(** X11. [abandonSession], without store failures: only the status of the
    session rows with that identifier changes. No message or snapshot is
    touched, and since nothing reads the status, [getSession] and
    [restoreSessionFromMagicLink] answer for every identifier and every
    token what they answered before; abandoning again changes nothing. *)
Theorem abandoned_session_is_kept (sessionId : jsstring) (w : world) :
  sql_faults w = [] ->
  exists w1,
    abandonSession sessionId w = (Return tt, w1)
    /\ sessions (db w1)
       = List.map (fun r => if bool_decide (id r = sessionId)
                            then set_status abandoned r else r) (sessions (db w))
    /\ messages (db w1) = messages (db w)
    /\ specifications (db w1) = specifications (db w)
    /\ (forall sid, (getSession sid w1).1 = (getSession sid w).1)
    /\ (forall token, (restoreSessionFromMagicLink token w1).1
                      = (restoreSessionFromMagicLink token w).1)
    /\ abandonSession sessionId w1 = (Return tt, w1).
Proof.
  intros Hf. unfold abandonSession. rewrite exec_no_fault by exact Hf.
  eexists. split; [reflexivity|].
  set (d1 := update_sessions (set_status abandoned) sessionId (db w)).
  assert (Hf1 : sql_faults (with_db w d1) = []) by exact Hf.
  cbn [db with_db].
  split; [reflexivity|]. split; [reflexivity|]. split; [reflexivity|].
  split; [|split].
  - intros sid. rewrite !getSession_free by assumption. cbn [db with_db].
    unfold d1. rewrite select_session_update by reflexivity.
    destruct (select_session sid (db w)) as [|row rest]; [reflexivity|].
    cbn [List.map fst]. rewrite session_view_status. reflexivity.
  - intros token. rewrite !restore_free by assumption. cbn [db with_db].
    unfold d1. rewrite select_by_token_update by reflexivity.
    destruct (select_by_token token (db w)) as [|row rest]; [reflexivity|].
    cbn [List.map].
    assert (E : id (if bool_decide (id row = sessionId)
                    then set_status abandoned row else row) = id row)
      by (destruct (bool_decide (id row = sessionId)); reflexivity).
    rewrite E. rewrite select_session_update by reflexivity.
    destruct (select_session (id row) (db w)) as [|srow srest]; [reflexivity|].
    cbn [List.map fst]. rewrite session_view_status. reflexivity.
  - rewrite exec_no_fault by exact Hf1. cbn [db with_db]. f_equal.
    destruct w as [d fs us n c win]. unfold with_db. cbn. f_equal.
    unfold d1, update_sessions. cbn [sessions messages specifications db]. f_equal.
    rewrite map_map. apply map_ext. intros r.
    destruct (bool_decide (id r = sessionId)) eqn:E; cbn [id set_status]; rewrite E; reflexivity.
Qed.

Lemma abandoned_session_is_kept_witness :
  exists w1,
    abandonSession Samples.session_1 Samples.created_world = (Return tt, w1)
    /\ (forall sid, (getSession sid w1).1 = (getSession sid Samples.created_world).1).
Proof.
  destruct (abandoned_session_is_kept Samples.session_1 Samples.created_world)
    as (w1 & H1 & _ & _ & _ & H5 & _); [reflexivity|].
  exists w1. auto.
Defined.

(** ** Saving, then reading *)

Lemma message_of_row_of_message sessionId m :
  message_of_row (row_of_message sessionId m) = m.
Proof. destruct m. reflexivity. Qed.

Lemma getSession_returned_view sessionId w session w1 :
  getSession sessionId w = (Return (Some session), w1) ->
  exists row rest,
    select_session sessionId (db w) = row :: rest
    /\ session = session_view sessionId row (db w).
Proof.
  intros Hg. apply unaffected_getSession in Hg.
  rewrite getSession_free in Hg by reflexivity. cbn [db with_sql_faults] in Hg.
  destruct (select_session sessionId (db w)) as [|row rest]; [discriminate|].
  injection Hg as <- _. eauto.
Qed.

Lemma select_latest_head sessionId d h rest :
  select_latest_specification sessionId d = h :: rest ->
  rest = [] /\ In h (specifications_of sessionId d)
  /\ row_version h = latest_version sessionId d.
Proof.
  intros E. unfold latest_version. rewrite E. cbn [version_of].
  unfold select_latest_specification in E.
  set (before := fun a b : specification_row => row_version b <=? row_version a) in E.
  pose proof (order_by_perm before (specifications_of sessionId d)) as Hp.
  destruct (order_by before (specifications_of sessionId d)) as [|top l]; [discriminate|].
  cbn [firstn] in E. injection E as -> <-.
  split; [reflexivity|]. split; [|reflexivity].
  eapply Permutation_in; [exact Hp|]. left. reflexivity.
Qed.

Lemma select_latest_nil sessionId d :
  select_latest_specification sessionId d = [] -> specifications_of sessionId d = [].
Proof.
  unfold select_latest_specification.
  set (before := fun a b : specification_row => row_version b <=? row_version a).
  pose proof (order_by_perm before (specifications_of sessionId d)) as Hp.
  destruct (order_by before (specifications_of sessionId d)) as [|top l].
  - intros _. apply Permutation_nil. exact Hp.
  - discriminate.
Qed.

Lemma saveSessionState_returned_tables sessionId state w w1 :
  saveSessionState sessionId state w = (Return tt, w1) ->
  messages (db w1) = messages (db w) ++ message_delta sessionId state (db w)
  /\ specifications (db w1) =
     specifications (db w) ++
     (if bool_decide (version (specification state) ≠ latest_version sessionId (db w))
      then [snapshot_row (uuid_stream w (uuid_drawn w)) sessionId state (clock w)]
      else []).
Proof.
  intros Hs. apply unaffected_saveSessionState in Hs.
  destruct (saveSessionState_free sessionId state (with_sql_faults w []) eq_refl)
    as (w'' & Hs' & _ & _ & Hm & Hp & _).
  rewrite Hs in Hs'. injection Hs' as <-. split; [exact Hm|exact Hp].
Qed.

Lemma save_then_read_returned sessionId state0 w w1 session w2 :
  0 <= version (specification state0) ->
  saveSessionState sessionId state0 w = (Return tt, w1) ->
  getSession sessionId w1 = (Return (Some session), w2) ->
  (forall m, In m (conversationHistory state0) ->
     ~ In (msg_id m) (stored_message_ids sessionId (db w)) ->
     In m (conversationHistory (state session)))
  /\ (forall m, In m (conversationHistory (state session)) ->
        In m (List.map message_of_row (messages_of sessionId (db w)))
        \/ (In m (conversationHistory state0)
            /\ ~ In (msg_id m) (stored_message_ids sessionId (db w))))
  /\ version (specification (state session))
     = Z.max (latest_version sessionId (db w)) (version (specification state0))
  /\ (latest_version sessionId (db w) < version (specification state0) ->
      specification (state session)
      = {| spec_id := sessionId;
           version := version (specification state0);
           plainEnglishSummary := plainEnglishSummary (specification state0);
           formalPRD := formalPRD (specification state0);
           lastUpdated := clock w |}
      /\ progress (state session) = progress state0).
Proof.
  intros Hv Hs Hg.
  destruct (saveSessionState_returned_tables _ _ _ _ Hs) as [Hm Hp].
  destruct (getSession_returned_view _ _ _ _ Hg) as (row & rest & Hsel & ->).
  assert (Hmsgs : forall m,
             In m (conversationHistory (state (session_view sessionId row (db w1)))) <->
             In m (List.map message_of_row (messages_of sessionId (db w)))
             \/ In m (new_messages (list_to_set (stored_message_ids sessionId (db w)))
                        (conversationHistory state0))).
  { intros m. rewrite session_view_history. unfold select_messages.
    set (before := fun a b : message_row => message_timestamp a <=? message_timestamp b).
    pose proof (order_by_perm before (messages_of sessionId (db w1))) as Hperm.
    rewrite (messages_of_app sessionId (db w) (db w1) _ Hm) in Hperm |- *.
    unfold message_delta in Hperm |- *. rewrite filter_own_rows in Hperm |- *.
    split.
    - intros Hin. apply in_map_iff in Hin as (r & <- & Hr).
      apply (Permutation_in _ Hperm) in Hr. apply in_app_or in Hr as [Hr | Hr].
      + left. apply in_map. exact Hr.
      + right. apply in_map_iff in Hr as (m' & <- & Hm').
        rewrite message_of_row_of_message. exact Hm'.
    - intros [Hin | Hin].
      + apply in_map_iff in Hin as (r & <- & Hr). apply in_map.
        apply (Permutation_in _ (Permutation_sym Hperm)). apply in_or_app. left. exact Hr.
      + rewrite <- (message_of_row_of_message sessionId m). apply in_map.
        apply (Permutation_in _ (Permutation_sym Hperm)). apply in_or_app. right.
        apply in_map. exact Hin. }
  assert (Hnew : forall m,
             In m (new_messages (list_to_set (stored_message_ids sessionId (db w)))
                     (conversationHistory state0)) <->
             In m (conversationHistory state0)
             /\ ~ In (msg_id m) (stored_message_ids sessionId (db w))).
  { intros m. unfold new_messages. rewrite filter_In, negb_true_iff.
    rewrite bool_decide_eq_false, elem_of_list_to_set, list_elem_of_In. reflexivity. }
  split; [|split].
  + intros m Hin Hfresh. apply Hmsgs. right. apply Hnew. auto.
  + intros m Hin. apply Hmsgs in Hin as [Hin | Hin]; [left; exact Hin|].
    right. apply Hnew. exact Hin.
  + (* the specification *)
    assert (Hof : specifications_of sessionId (db w1)
                  = specifications_of sessionId (db w)
                    ++ (if bool_decide (version (specification state0)
                                        ≠ latest_version sessionId (db w))
                        then [snapshot_row (uuid_stream w (uuid_drawn w)) sessionId
                                state0 (clock w)]
                        else [])).
    { rewrite (specifications_of_app sessionId (db w) (db w1) _ Hp).
      destruct (bool_decide _); [|reflexivity].
      cbn [List.filter snapshot_row session_id].
      rewrite bool_decide_eq_true_2 by reflexivity. reflexivity. }
    assert (Hold : forall r, In r (specifications_of sessionId (db w)) ->
                             row_version r <= latest_version sessionId (db w)).
    { intros r Hr. apply latest_version_highest. unfold stored_versions.
      apply in_map. exact Hr. }
    unfold session_view.
    destruct (select_latest_specification sessionId (db w1)) as [|h l] eqn:Hsl.
    { (* no snapshot at all: the version saved would be -1 *)
      apply select_latest_nil in Hsl. rewrite Hof in Hsl.
      apply app_eq_nil in Hsl as [Hnone Hno].
      destruct (bool_decide (version (specification state0)
                             ≠ latest_version sessionId (db w))) eqn:Hb;
        [discriminate|].
      apply bool_decide_eq_false_1 in Hb. apply dec_stable in Hb.
      unfold latest_version, select_latest_specification in Hb.
      rewrite Hnone in Hb. cbn in Hb. lia. }
    destruct (select_latest_head _ _ _ _ Hsl) as (-> & Hh & Hhv).
    cbn [read_specification state specification version progress].
    assert (Hhigh : forall r, In r (specifications_of sessionId (db w1)) ->
                              row_version r <= row_version h).
    { intros r Hr. rewrite Hhv. apply latest_version_highest.
      unfold stored_versions. apply in_map. exact Hr. }
    rewrite Hof in Hh, Hhigh.
    destruct (bool_decide (version (specification state0)
                           ≠ latest_version sessionId (db w))) eqn:Hb.
    * apply bool_decide_eq_true_1 in Hb.
      set (snap := snapshot_row (uuid_stream w (uuid_drawn w)) sessionId state0 (clock w))
        in *.
      assert (Hsnap : version (specification state0) <= row_version h).
      { apply (Hhigh snap). apply in_or_app. right. left. reflexivity. }
      split.
      -- apply in_app_or in Hh as [Hh | [<- | []]].
         ++ pose proof (Hold h Hh) as Hle.
            assert (Hge : latest_version sessionId (db w) <= row_version h).
            { destruct (specifications_of sessionId (db w)) as [|r0 l0] eqn:Hso;
                [destruct Hh|]. rewrite <- Hso in *.
              assert (Hin : In (latest_version sessionId (db w))
                              (stored_versions sessionId (db w))).
              { apply latest_version_stored. unfold stored_versions. rewrite Hso.
                discriminate. }
              apply in_map_iff in Hin as (r & <- & Hr).
              apply Hhigh. apply in_or_app. left. exact Hr. }
            lia.
         ++ cbn [snap snapshot_row row_version].
            assert (Hge : latest_version sessionId (db w)
                          <= version (specification state0)).
            { destruct (specifications_of sessionId (db w)) as [|r0 l0] eqn:Hso.
              - unfold latest_version, select_latest_specification. rewrite Hso.
                cbn. lia.
              - rewrite <- Hso in *.
                assert (Hin : In (latest_version sessionId (db w))
                                (stored_versions sessionId (db w))).
                { apply latest_version_stored. unfold stored_versions. rewrite Hso.
                  discriminate. }
                apply in_map_iff in Hin as (r & <- & Hr).
                apply (Hhigh r). apply in_or_app. left. exact Hr. }
            lia.
      -- intros Hlt. apply in_app_or in Hh as [Hh | [<- | []]].
         ++ pose proof (Hold h Hh). lia.
         ++ split; reflexivity.
    * apply bool_decide_eq_false_1 in Hb. apply dec_stable in Hb.
      rewrite app_nil_r in Hh, Hhigh.
      split; [|intros Hlt; lia].
      pose proof (Hold h Hh) as Hle.
      assert (Hin : In (latest_version sessionId (db w))
                      (stored_versions sessionId (db w))).
      { apply latest_version_stored. unfold stored_versions.
        destruct (specifications_of sessionId (db w)); [destruct Hh|discriminate]. }
      apply in_map_iff in Hin as (r & Hr1 & Hr).
      pose proof (Hhigh r Hr). lia.
Qed.

Lemma save_then_read_exists sessionId state0 w :
  sql_faults w = [] -> select_session sessionId (db w) <> [] ->
  exists w1 session w2,
    saveSessionState sessionId state0 w = (Return tt, w1)
    /\ sql_faults w1 = []
    /\ getSession sessionId w1 = (Return (Some session), w2).
Proof.
  intros Hf Hex.
  destruct (saveSessionState_free sessionId state0 w Hf)
    as (w1 & Hs & Hf1 & _ & _ & _ & Hss).
  exists w1. rewrite getSession_free by exact Hf1.
  assert (Hex1 : select_session sessionId (db w1) <> []).
  { apply select_session_exists in Hex as (r & Hr & Hid).
    apply (select_session_in sessionId (db w1)
             (if bool_decide (id r = sessionId)
              then set_last_accessed_at (clock w + 1) r else r)).
    - rewrite Hss. apply in_map_iff. exists r. split; [reflexivity|exact Hr].
    - destruct (bool_decide (id r = sessionId)); exact Hid. }
  destruct (select_session sessionId (db w1)) as [|row rest]; [contradiction|].
  eauto.
Qed.

(** X12. A save that returned, then a read that returned, whatever the store
    failures elsewhere. The history read holds every saved message whose
    identifier was not stored before, as it was saved, and besides those
    only what was stored before: a message saved under a stored identifier
    does not replace the stored one. For a version that is not negative, the
    version read is the higher of the one saved and the highest stored
    before: saving a lower version does not bring it back. When the version
    saved is the higher one, the specification read is the one saved, with
    the session identifier as its [id] and the time of the save as its
    [lastUpdated], and the progress read is the progress saved. Without
    store failures both calls return for an existing session. *)
Theorem save_then_read (sessionId : jsstring) (state0 : SessionState) (w : world) :
  0 <= version (specification state0) ->
  (forall w1 session w2,
     saveSessionState sessionId state0 w = (Return tt, w1) ->
     getSession sessionId w1 = (Return (Some session), w2) ->
     (forall m, In m (conversationHistory state0) ->
        ~ In (msg_id m) (stored_message_ids sessionId (db w)) ->
        In m (conversationHistory (state session)))
     /\ (forall m, In m (conversationHistory (state session)) ->
           In m (List.map message_of_row (messages_of sessionId (db w)))
           \/ (In m (conversationHistory state0)
               /\ ~ In (msg_id m) (stored_message_ids sessionId (db w))))
     /\ version (specification (state session))
        = Z.max (latest_version sessionId (db w)) (version (specification state0))
     /\ (latest_version sessionId (db w) < version (specification state0) ->
         specification (state session)
         = {| spec_id := sessionId;
              version := version (specification state0);
              plainEnglishSummary := plainEnglishSummary (specification state0);
              formalPRD := formalPRD (specification state0);
              lastUpdated := clock w |}
         /\ progress (state session) = progress state0))
  /\ (sql_faults w = [] -> select_session sessionId (db w) <> [] ->
      exists w1 session w2,
        saveSessionState sessionId state0 w = (Return tt, w1)
        /\ getSession sessionId w1 = (Return (Some session), w2)).
Proof.
  intros Hv. split.
  - intros w1 session w2. apply save_then_read_returned. exact Hv.
  - intros Hf Hex.
    destruct (save_then_read_exists sessionId state0 w Hf Hex)
      as (w1 & session & w2 & Hs & _ & Hg).
    eauto.
Qed.

Lemma save_then_read_witness :
  exists w1 session w2,
    saveSessionState Samples.session_1 (Samples.state_at 1 Samples.synced)
      Samples.created_world = (Return tt, w1)
    /\ getSession Samples.session_1 w1 = (Return (Some session), w2)
    /\ version (specification (state session)) = 1.
Proof.
  destruct (save_then_read Samples.session_1 (Samples.state_at 1 Samples.synced)
              Samples.created_world) as [Hprops Hex]; [vm_compute; discriminate|].
  destruct Hex as (w1 & session & w2 & Hs & Hg);
    [reflexivity | vm_compute; discriminate|].
  destruct (Hprops w1 session w2 Hs Hg) as (_ & _ & Hver & _).
  exists w1, session, w2. split; [exact Hs|]. split; [exact Hg|].
  rewrite Hver. reflexivity.
Defined.

(** ** Recovery after an error *)

Lemma try_catchM_run {A} (body : M A) (handler : js_error -> M A) w :
  try_catchM body handler w
  = match body w with
    | (Return a, w') => (Return a, w')
    | (Throw e, w') => handler e w'
    end.
Proof. reflexivity. Qed.

Lemma preserveErrorState_run (sessionId : jsstring) (error : ErrorObject)
  (userInput : option jsstring) (currentState : option SessionState)
  (errors : list error_row) (w : world) :
  match sql_faults w with
  | Some e :: rest =>
      preserveErrorState sessionId error userInput currentState errors w
      = (Return errors, with_sql_faults (now w).2 rest)
      /\ db (with_sql_faults (now w).2 rest) = db w
  | _ =>
      let w0 := with_sql_faults (now w).2 (tl (sql_faults w)) in
      preserveErrorState sessionId error userInput currentState errors w
      = (Return (errors ++ [{| error_session_id := sessionId;
                               error_message := err_message error;
                               error_stack := or_null (err_stack error);
                               user_input := or_null userInput;
                               error_timestamp := clock w |}]),
         match currentState with
         | Some currentState => (saveSessionState sessionId currentState w0).2
         | None => w0
         end)
  end.
Proof.
  unfold preserveErrorState. rewrite try_catchM_run, bind_run.
  change (now w) with (Return (clock w), (now w).2). cbv beta iota.
  rewrite bind_run. unfold insert_error.
  destruct (sql_faults w) as [|[e|] rest] eqn:Hf.
  - unfold sql. change (sql_faults (now w).2) with (sql_faults w). rewrite Hf.
    cbn zeta. cbn [tl]. set (w0 := with_sql_faults (now w).2 []).
    change (with_sql_faults _ []) with w0.
    assert (E : (now w).2 = w0)
      by (unfold w0; destruct w; cbn in *; subst; reflexivity).
    rewrite with_db_same, E.
    destruct currentState as [st|]; [|reflexivity].
    rewrite try_catchM_run, bind_run.
    change (saveSessionState sessionId st _) with (saveSessionState sessionId st w0).
    destruct (saveSessionState sessionId st w0) as [[[]|e] w1]; reflexivity.
  - unfold sql. change (sql_faults (now w).2) with (sql_faults w). rewrite Hf.
    split; reflexivity.
  - unfold sql. change (sql_faults (now w).2) with (sql_faults w). rewrite Hf.
    cbn zeta. cbn [tl]. set (w0 := with_sql_faults (now w).2 rest).
    change (with_db _ (db w)) with w0.
    destruct currentState as [st|]; [|reflexivity].
    rewrite try_catchM_run, bind_run.
    change (saveSessionState sessionId st _) with (saveSessionState sessionId st w0).
    destruct (saveSessionState sessionId st w0) as [[[]|e] w1]; reflexivity.
Qed.

(** X13. [preserveErrorState] never throws. When the store fails on the
    statement that records the error, nothing is recorded and the current
    state is not saved: the tables are as they were. Otherwise the error is
    recorded, with [null] for a stack or a user input that is absent or
    empty, and the current state, when there is one, is saved as
    [saveSessionState] saves it, a failure of which is swallowed. *)
Theorem preserveErrorState_outcome (sessionId : jsstring) (error : ErrorObject)
  (userInput : option jsstring) (currentState : option SessionState)
  (errors : list error_row) (w : world) :
  let row := {| error_session_id := sessionId;
                error_message := err_message error;
                error_stack := or_null (err_stack error);
                user_input := or_null userInput;
                error_timestamp := clock w |} in
  (exists recorded w',
     preserveErrorState sessionId error userInput currentState errors w
     = (Return recorded, w')
     /\ (recorded = errors \/ recorded = errors ++ [row]))
  /\ match sql_faults w with
     | Some e :: rest =>
         preserveErrorState sessionId error userInput currentState errors w
         = (Return errors, with_sql_faults (now w).2 rest)
         /\ db (with_sql_faults (now w).2 rest) = db w
     | _ =>
         let w0 := with_sql_faults (now w).2 (tl (sql_faults w)) in
         preserveErrorState sessionId error userInput currentState errors w
         = (Return (errors ++ [row]),
            match currentState with
            | Some currentState => (saveSessionState sessionId currentState w0).2
            | None => w0
            end)
     end.
Proof.
  intros row.
  pose proof (preserveErrorState_run sessionId error userInput currentState errors w)
    as Hrun.
  fold row in Hrun. split; [|exact Hrun].
  destruct (sql_faults w) as [|[e|] rest].
  - eexists _, _. split; [exact Hrun|]. right. reflexivity.
  - destruct Hrun as [Hrun _]. eexists _, _. split; [exact Hrun|]. left. reflexivity.
  - eexists _, _. split; [exact Hrun|]. right. reflexivity.
Qed.

(** X14. [reconstructContextAfterError] never throws: it returns the state
    [getSession] returns, and [null] both for an unknown session and for a
    store failure. After [preserveErrorState] was given the current state of
    an existing session, and without store failures, it returns a state that
    holds every message of that state whose identifier was not stored
    before, and whose version is the higher of the version preserved and the
    highest stored before. *)
Theorem reconstruct_after_error (sessionId : jsstring) (w : world) :
  (exists result,
     reconstructContextAfterError sessionId w = (Return result, (getSession sessionId w).2)
     /\ result = match (getSession sessionId w).1 with
                 | Return (Some session) => Some (state session)
                 | _ => None
                 end)
  /\ (forall error userInput current errors,
        sql_faults w = [] ->
        select_session sessionId (db w) <> [] ->
        0 <= version (specification current) ->
        exists recorded w1 restored w2,
          preserveErrorState sessionId error userInput (Some current) errors w
          = (Return recorded, w1)
          /\ length recorded = S (length errors)
          /\ reconstructContextAfterError sessionId w1 = (Return (Some restored), w2)
          /\ (forall m, In m (conversationHistory current) ->
                ~ In (msg_id m) (stored_message_ids sessionId (db w)) ->
                In m (conversationHistory restored))
          /\ version (specification restored)
             = Z.max (latest_version sessionId (db w)) (version (specification current))).
Proof.
  split.
  - unfold reconstructContextAfterError. rewrite try_catchM_run, bind_run.
    destruct (getSession sessionId w) as [[[session|]|e] w1]; eexists; split; reflexivity.
  - intros error userInput current errors Hf Hex Hv.
    pose proof (preserveErrorState_run sessionId error userInput (Some current) errors w)
      as Hp.
    rewrite Hf in Hp. cbn zeta in Hp. cbn [tl] in Hp.
    set (w0 := with_sql_faults (now w).2 []) in Hp.
    assert (Hf0 : sql_faults w0 = []) by reflexivity.
    assert (Hex0 : select_session sessionId (db w0) <> []) by exact Hex.
    destruct (save_then_read_exists sessionId current w0 Hf0 Hex0)
      as (w1 & session & w2 & Hs & Hf1 & Hg).
    destruct (save_then_read_returned sessionId current w0 w1 session w2 Hv Hs Hg)
      as (Hnew & _ & Hver & _).
    rewrite Hs in Hp. cbn [snd] in Hp.
    eexists _, w1, (state session), w2. split; [exact Hp|].
    split; [rewrite length_app; cbn; lia|].
    split; [|split; [exact Hnew|exact Hver]].
    unfold reconstructContextAfterError. rewrite try_catchM_run, bind_run, Hg. reflexivity.
Qed.

Lemma reconstruct_after_error_witness :
  exists recorded w1 restored w2,
    preserveErrorState Samples.session_1
      {| err_message := u16 "fetch failed"; err_stack := None |}
      (Some (u16 "Dog owners")) (Some (Samples.state_at 1 Samples.synced)) []
      Samples.created_world
    = (Return recorded, w1)
    /\ reconstructContextAfterError Samples.session_1 w1 = (Return (Some restored), w2)
    /\ version (specification restored) = 1.
Proof.
  destruct (reconstruct_after_error Samples.session_1 Samples.created_world)
    as [_ Hround].
  destruct (Hround {| err_message := u16 "fetch failed"; err_stack := None |}
              (Some (u16 "Dog owners")) (Samples.state_at 1 Samples.synced) [])
    as (recorded & w1 & restored & w2 & Hp & _ & Hr & _ & Hver);
    [reflexivity | vm_compute; discriminate | vm_compute; discriminate |].
  exists recorded, w1, restored, w2. split; [exact Hp|]. split; [exact Hr|].
  rewrite Hver. reflexivity.
Defined.

(** ** The offline queue *)

Lemma offline_key_inj a b : offline_key a = offline_key b -> a = b.
Proof. unfold offline_key. apply app_inv_head. Qed.

Lemma queueOfflineMessage_run sessionId message w localStorage :
  window w = Some localStorage ->
  exists w',
    queueOfflineMessage sessionId message w = (Return tt, w')
    /\ window w' <> None
    /\ offline_queue sessionId w' = offline_queue sessionId w ++ [message]
    /\ (forall other, other <> sessionId ->
          offline_queue other w' = offline_queue other w)
    /\ db w' = db w /\ sql_faults w' = sql_faults w.
Proof.
  intros Hw. unfold queueOfflineMessage. rewrite Hw.
  eexists. split; [reflexivity|]. split; [discriminate|].
  split.
  { unfold offline_queue at 1. cbn [window with_window].
    rewrite lookup_insert_eq. reflexivity. }
  split; [|split; reflexivity].
  intros other Hne. unfold offline_queue at 1 3. cbn [window with_window]. rewrite Hw.
  rewrite lookup_insert_ne; [reflexivity|].
  intros E. apply offline_key_inj in E. congruence.
Qed.

(** X15. In a browser, messages queued for a session are read back in the
    order they were queued, after those already waiting; the queues of other
    sessions and the tables are not touched. Clearing the queue empties it,
    and again leaves the other queues alone. *)
Theorem offline_queue_fifo (sessionId : jsstring) (queued : list Message) (w : world) :
  window w <> None ->
  exists w' w'',
    for_each queued (queueOfflineMessage sessionId) w = (Return tt, w')
    /\ getOfflineMessages sessionId w'
       = (Return (offline_queue sessionId w ++ queued), w')
    /\ (forall other, other <> sessionId ->
          offline_queue other w' = offline_queue other w)
    /\ db w' = db w
    /\ clearOfflineMessages sessionId w' = (Return tt, w'')
    /\ getOfflineMessages sessionId w'' = (Return [], w'')
    /\ (forall other, other <> sessionId ->
          offline_queue other w'' = offline_queue other w).
Proof.
  intros Hw.
  assert (Hq : exists w',
             for_each queued (queueOfflineMessage sessionId) w = (Return tt, w')
             /\ window w' <> None
             /\ offline_queue sessionId w' = offline_queue sessionId w ++ queued
             /\ (forall other, other <> sessionId ->
                   offline_queue other w' = offline_queue other w)
             /\ db w' = db w).
  { revert w Hw. induction queued as [|m l IH]; intros w Hw.
    - exists w. rewrite app_nil_r. auto.
    - destruct (window w) as [localStorage|] eqn:E; [|contradiction].
      destruct (queueOfflineMessage_run sessionId m w localStorage E)
        as (w1 & Hq1 & Hw1 & Hsame & Hother & Hdb & _).
      destruct (IH w1 Hw1) as (w' & Hrun & Hw' & Hq' & Hother' & Hdb').
      exists w'. cbn [for_each]. rewrite bind_run, Hq1.
      split; [exact Hrun|]. split; [exact Hw'|].
      split; [rewrite Hq', Hsame, <- app_assoc; reflexivity|].
      split; [|congruence].
      intros other Hne. rewrite Hother', Hother by exact Hne. reflexivity. }
  destruct Hq as (w' & Hrun & Hw' & Hq' & Hother & Hdb).
  destruct (window w') as [localStorage|] eqn:E; [|contradiction].
  exists w', (with_window w' (Some (delete (offline_key sessionId) localStorage))).
  split; [exact Hrun|].
  split; [unfold getOfflineMessages; rewrite Hq'; reflexivity|].
  split; [exact Hother|]. split; [exact Hdb|].
  split; [unfold clearOfflineMessages; rewrite E; reflexivity|].
  split.
  - unfold getOfflineMessages, offline_queue. cbn [window with_window].
    rewrite lookup_delete_eq. reflexivity.
  - intros other Hne. rewrite <- (Hother other Hne).
    unfold offline_queue. cbn [window with_window]. rewrite E.
    rewrite lookup_delete_ne; [reflexivity|].
    intros E'. apply offline_key_inj in E'. congruence.
Qed.

Lemma offline_queue_fifo_witness :
  exists w' w'',
    for_each Samples.composed_offline (queueOfflineMessage Samples.session_1)
      Samples.created_world = (Return tt, w')
    /\ getOfflineMessages Samples.session_1 w' = (Return Samples.composed_offline, w')
    /\ clearOfflineMessages Samples.session_1 w' = (Return tt, w'')
    /\ getOfflineMessages Samples.session_1 w'' = (Return [], w'').
Proof.
  destruct (offline_queue_fifo Samples.session_1 Samples.composed_offline
              Samples.created_world)
    as (w' & w'' & H1 & H2 & _ & _ & H5 & H6 & _); [discriminate|].
  exists w', w''. auto.
Defined.

(** X16. Without a [window], nothing is ever queued: queueing and clearing
    return at once and the queue reads empty. With an empty queue
    [syncOfflineMessages] returns without a single statement: the world is
    as it was, whether or not the session exists and whatever the store
    would have done. *)
Theorem sync_without_queue (sessionId : jsstring) (w : world) :
  (window w = None ->
     offline_queue sessionId w = []
     /\ (forall message, queueOfflineMessage sessionId message w = (Return tt, w))
     /\ clearOfflineMessages sessionId w = (Return tt, w))
  /\ (offline_queue sessionId w = [] ->
      syncOfflineMessages sessionId w = (Return tt, w)).
Proof.
  split.
  - intros Hw. unfold offline_queue, queueOfflineMessage, clearOfflineMessages.
    rewrite Hw. auto.
  - intros Hq. unfold syncOfflineMessages. rewrite bind_run.
    unfold getOfflineMessages. rewrite Hq. reflexivity.
Qed.

Lemma sync_without_queue_witness :
  syncOfflineMessages (u16 "nobody")
    (with_sql_faults Samples.created_world [Some Samples.timeout])
  = (Return tt, with_sql_faults Samples.created_world [Some Samples.timeout]).
Proof.
  apply (sync_without_queue (u16 "nobody")
           (with_sql_faults Samples.created_world [Some Samples.timeout])).
  reflexivity.
Defined.

(** ** Sessions do not interfere *)

Lemma getSession_by_tables sessionId w w' :
  sql_faults w = [] -> sql_faults w' = [] ->
  select_session sessionId (db w') = select_session sessionId (db w) ->
  messages_of sessionId (db w') = messages_of sessionId (db w) ->
  specifications_of sessionId (db w') = specifications_of sessionId (db w) ->
  (getSession sessionId w').1 = (getSession sessionId w).1.
Proof.
  intros Hf Hf' Hs Hm Hp. rewrite !getSession_free by assumption. rewrite Hs.
  destruct (select_session sessionId (db w)) as [|row rest]; [reflexivity|].
  cbn [fst]. unfold session_view, select_latest_specification, select_messages.
  rewrite Hm, Hp. reflexivity.
Qed.

Lemma select_session_other f sid other d :
  (forall r, id (f r) = id r) -> other <> sid ->
  select_session other (update_sessions f sid d) = select_session other d.
Proof.
  intros Hid Hne. rewrite select_session_update by exact Hid.
  unfold select_session. induction (sessions d) as [|r l IH]; [reflexivity|].
  cbn [List.filter]. destruct (bool_decide (id r = other)) eqn:E; [|exact IH].
  cbn [List.map]. rewrite IH. apply bool_decide_eq_true_1 in E.
  rewrite bool_decide_eq_false_2 by congruence. reflexivity.
Qed.

(** X17. Sessions are kept apart, without store failures: saving a state
    for one session, giving it a magic link, or creating a session under a
    new identifier leaves what [getSession] returns for every other
    identifier as it was. *)
Theorem sessions_do_not_interfere (sessionId other : jsstring) (w : world) :
  sql_faults w = [] ->
  other <> sessionId ->
  (forall state,
     (getSession other (saveSessionState sessionId state w).2).1
     = (getSession other w).1)
  /\ (getSession other (generateMagicLink sessionId w).2).1 = (getSession other w).1
  /\ (other <> uuid_stream w (uuid_drawn w) ->
      (getSession other (createSession w).2).1 = (getSession other w).1).
Proof.
  intros Hf Hne. split; [|split].
  - intros state0.
    destruct (saveSessionState_free sessionId state0 w Hf)
      as (w1 & Hs & Hf1 & _ & Hm & Hp & Hss).
    rewrite Hs. cbn [snd]. apply getSession_by_tables; try assumption.
    + pose proof (select_session_other (set_last_accessed_at (clock w + 1)) sessionId
                    other (db w) (fun _ => eq_refl) Hne) as E.
      unfold select_session in *. rewrite Hss. exact E.
    + rewrite (messages_of_app other (db w) (db w1) _ Hm).
      rewrite filter_none; [apply app_nil_r|].
      intros r Hr. apply delta_ids_are_new in Hr as [_ Hr].
      apply bool_decide_eq_false_2. congruence.
    + rewrite (specifications_of_app other (db w) (db w1) _ Hp).
      rewrite filter_none; [apply app_nil_r|].
      intros r Hr. destruct (bool_decide _); [|destruct Hr].
      destruct Hr as [<- | []]. apply bool_decide_eq_false_2. cbn. congruence.
  - rewrite generateMagicLink_free by exact Hf. cbn [snd].
    apply getSession_by_tables; try assumption; try reflexivity.
    cbn [db]. apply select_session_other; [reflexivity|exact Hne].
  - intros Hnew. pose proof (createSession_free w Hf) as Hc. cbn zeta in Hc.
    rewrite Hc. cbn [snd].
    apply getSession_by_tables; try assumption; cbn [db].
    + unfold select_session. cbn [sessions]. rewrite List.filter_app.
      cbn [List.filter id]. rewrite bool_decide_eq_false_2 by congruence.
      apply app_nil_r.
    + reflexivity.
    + unfold specifications_of. cbn [specifications]. rewrite List.filter_app.
      cbn [List.filter session_id]. rewrite bool_decide_eq_false_2 by congruence.
      apply app_nil_r.
Qed.

Lemma sessions_do_not_interfere_witness :
  (getSession Samples.session_1
     (saveSessionState (u16 "uuid-7") (Samples.state_at 3 Samples.synced)
        Samples.created_world).2).1
  = (getSession Samples.session_1 Samples.created_world).1.
Proof.
  destruct (sessions_do_not_interfere (u16 "uuid-7") Samples.session_1
              Samples.created_world) as [Hsave _];
    [reflexivity | vm_compute; discriminate |].
  apply Hsave.
Defined.

(** ** Synchronising for a session that is not there *)

(** X18. With messages waiting and no store failure, [syncOfflineMessages]
    for an identifier without a session row throws [Session not found];
    nothing is written, and the messages stay in the queue. *)
Theorem sync_for_unknown_session (sessionId : jsstring) (w : world) :
  offline_queue sessionId w <> [] ->
  sql_faults w = [] ->
  select_session sessionId (db w) = [] ->
  syncOfflineMessages sessionId w = (Throw session_not_found, w).
Proof.
  intros Hq Hf Hn. unfold syncOfflineMessages. rewrite bind_run.
  unfold getOfflineMessages.
  destruct (offline_queue sessionId w) as [|m l]; [contradiction|].
  rewrite try_catchM_run, bind_run, getSession_free by exact Hf. rewrite Hn. reflexivity.
Qed.

Lemma sync_for_unknown_session_witness :
  exists w,
    queueOfflineMessage (u16 "nobody") Samples.first_message Samples.created_world
    = (Return tt, w)
    /\ syncOfflineMessages (u16 "nobody") w = (Throw session_not_found, w).
Proof.
  eexists. split; [reflexivity|].
  apply (sync_for_unknown_session (u16 "nobody")).
  - vm_compute. discriminate.
  - reflexivity.
  - reflexivity.
Defined.

(** ** Identifiers used twice in one state *)

Lemma count_new_ids ident ids history :
  ident ∉ ids ->
  count_occ same_id (List.map msg_id (new_messages ids history)) ident
  = count_occ same_id (List.map msg_id history) ident.
Proof.
  intros Hnew. unfold new_messages. induction history as [|m l IH]; [reflexivity|].
  cbn [List.filter List.map count_occ].
  destruct (bool_decide (msg_id m ∈ ids)) eqn:E; cbn [negb List.map count_occ].
  - apply bool_decide_eq_true_1 in E.
    destruct (same_id (msg_id m) ident) as [Heq|_]; [|exact IH].
    exfalso. apply Hnew. rewrite <- Heq. exact E.
  - destruct (same_id (msg_id m) ident); rewrite IH; reflexivity.
Qed.

(** X19. Only identifiers stored before the call are filtered out: for an
    identifier that is new and occurs several times in the history saved,
    a row is inserted each time. In a store that does not refuse them, it is
    stored as many times, and a later read returns as many messages under
    it. *)
Theorem new_identifier_is_stored_as_often_as_saved
  (sessionId : jsstring) (state0 : SessionState) (w w1 : world) (ident : jsstring) :
  saveSessionState sessionId state0 w = (Return tt, w1) ->
  ~ In ident (stored_message_ids sessionId (db w)) ->
  count_occ same_id (List.map message_id (message_delta sessionId state0 (db w))) ident
  = count_occ same_id (List.map msg_id (conversationHistory state0)) ident
  /\ count_occ same_id (stored_message_ids sessionId (db w1)) ident
     = count_occ same_id (List.map msg_id (conversationHistory state0)) ident
  /\ (forall session w2,
        getSession sessionId w1 = (Return (Some session), w2) ->
        count_occ same_id (List.map msg_id (conversationHistory (state session))) ident
        = count_occ same_id (List.map msg_id (conversationHistory state0)) ident).
Proof.
  intros Hs Hnew.
  pose proof (saveSessionState_returned _ _ _ _ Hs) as Hm.
  assert (Hdelta : count_occ same_id
                     (List.map msg_id
                        (new_messages (list_to_set (stored_message_ids sessionId (db w)))
                           (conversationHistory state0))) ident
                   = count_occ same_id (List.map msg_id (conversationHistory state0)) ident).
  { apply count_new_ids. rewrite elem_of_list_to_set, list_elem_of_In. exact Hnew. }
  assert (Hstored : count_occ same_id (stored_message_ids sessionId (db w1)) ident
                    = count_occ same_id (List.map msg_id (conversationHistory state0)) ident).
  { rewrite (stored_ids_after_delta _ _ _ _ Hm), count_occ_app.
    rewrite (proj1 (count_occ_not_In same_id _ _) Hnew). exact Hdelta. }
  split; [|split; [exact Hstored|]].
  - unfold message_delta. rewrite map_map. exact Hdelta.
  - intros session w2 Hg. rewrite <- Hstored.
    destruct (getSession_returned _ _ _ _ Hg) as (Hh & _ & _). rewrite Hh.
    unfold select_messages, stored_message_ids.
    set (before := fun a b : message_row => message_timestamp a <=? message_timestamp b).
    rewrite map_map.
    change (fun x => msg_id (message_of_row x)) with message_id.
    apply Permutation_count_occ, Permutation_map, order_by_perm.
Qed.

Lemma new_identifier_is_stored_as_often_as_saved_witness :
  exists w1,
    saveSessionState Samples.session_1
      (Samples.state_at 0 [Samples.first_message; Samples.first_message])
      Samples.created_world = (Return tt, w1)
    /\ count_occ same_id (stored_message_ids Samples.session_1 (db w1)) (u16 "m1") = 2%nat.
Proof.
  destruct (saveSessionState_free Samples.session_1
              (Samples.state_at 0 [Samples.first_message; Samples.first_message])
              Samples.created_world eq_refl) as (w1 & Hs & _).
  exists w1. split; [exact Hs|].
  destruct (new_identifier_is_stored_as_often_as_saved Samples.session_1
              (Samples.state_at 0 [Samples.first_message; Samples.first_message])
              Samples.created_world w1 (u16 "m1") Hs) as (_ & H & _).
  - intros [].
  - rewrite H. vm_compute. reflexivity.
Defined.

End Lifecycle.

(* ===================================================================== *)
(** * Properties of the client store *)
(* ===================================================================== *)

Section ClientStore.
Import SessionStore.
#[local] Open Scope nat_scope.

Lemma run_app actions more s : run (actions ++ more) s = run more (run actions s).
Proof. apply fold_left_app. Qed.

Lemma latest_of_app history (m : Message) s :
  conversationHistory s = history ++ [m] -> getLatestMessage s = Some m.
Proof.
  intros E. unfold getLatestMessage. rewrite E, length_app. cbn [length].
  replace (0 <? length history + 1) with true by (symmetry; apply Nat.ltb_lt; lia).
  replace (length history + 1 - 1) with (length history + 0) by lia.
  rewrite nth_error_app2 by lia.
  replace (length history + 0 - length history) with 0 by lia. reflexivity.
Qed.

(** X20. [getLatestMessage] never reads outside the history: it is [null]
    exactly for an empty history, and otherwise the last message, at index
    [getMessageCount() - 1]. After [addMessage] it is the message added, and
    the count has grown by one; nothing else in the store has changed. *)
Theorem latest_message_is_last (s : State) :
  (getLatestMessage s = None <-> getMessageCount s = 0)
  /\ (forall history m, conversationHistory s = history ++ [m] ->
        getLatestMessage s = Some m)
  /\ (forall m,
        getLatestMessage (addMessage m s) = Some m
        /\ getMessageCount (addMessage m s) = S (getMessageCount s)
        /\ conversationHistory (addMessage m s) = conversationHistory s ++ [m]
        /\ sessionId (addMessage m s) = sessionId s
        /\ specification (addMessage m s) = specification s
        /\ completeness (addMessage m s) = completeness s
        /\ isLoading (addMessage m s) = isLoading s
        /\ isSyncing (addMessage m s) = isSyncing s
        /\ lastSyncedAt (addMessage m s) = lastSyncedAt s).
Proof.
  split; [|split].
  - unfold getMessageCount. destruct (conversationHistory s) as [|m l] eqn:E using rev_ind.
    + unfold getLatestMessage. rewrite E. split; reflexivity.
    + rewrite (latest_of_app l m s E), length_app. cbn [length].
      split; [discriminate|lia].
  - intros history m. apply latest_of_app.
  - intros m. split; [apply (latest_of_app (conversationHistory s)); reflexivity|].
    split; [unfold getMessageCount, addMessage, set_with, merge; cbn;
            rewrite length_app; cbn; lia|].
    repeat split.
Qed.

Lemma latest_message_is_last_witness :
  getLatestMessage (run (List.map AddMessage Samples.synced) initialState)
  = Some (Samples.message "m3" user "Dog owners" 1700000003000).
Proof.
  apply (latest_message_is_last (run (List.map AddMessage Samples.synced) initialState))
    with (history := firstn 2 Samples.synced).
  reflexivity.
Defined.

Lemma added_app actions more : added (actions ++ more) = added actions ++ added more.
Proof. unfold added. apply flat_map_app. Qed.

(** X21. As long as the session is neither cleared nor restored, the
    history only grows: after any run of the other actions it is the
    history before followed by the messages given to [addMessage], in the
    order of the calls, duplicates included. The count grows by their
    number, and the latest message is the last one added. *)
Theorem store_history_grows (actions : list action) (s : State) :
  forallb (fun a => negb (replaces_history a)) actions = true ->
  conversationHistory (run actions s) = conversationHistory s ++ added actions
  /\ getMessageCount (run actions s) = getMessageCount s + length (added actions)
  /\ (forall earlier m, added actions = earlier ++ [m] ->
        getLatestMessage (run actions s) = Some m)
  /\ (added actions = [] -> getLatestMessage (run actions s) = getLatestMessage s).
Proof.
  intros Hkeep.
  assert (H : conversationHistory (run actions s) = conversationHistory s ++ added actions).
  { revert s. induction actions as [|a actions IH]; intros s.
    - cbn. rewrite app_nil_r. reflexivity.
    - cbn [forallb] in Hkeep. apply andb_true_iff in Hkeep as [Ha Hkeep].
      change (run (a :: actions) s) with (run actions (dispatch s a)).
      rewrite (IH Hkeep). change (a :: actions) with ([a] ++ actions).
      rewrite added_app, app_assoc. f_equal.
      destruct a; try discriminate Ha; cbn; rewrite ?app_nil_r; reflexivity. }
  split; [exact H|]. split; [|split].
  - unfold getMessageCount. rewrite H, length_app. reflexivity.
  - intros earlier m E. apply (latest_of_app (conversationHistory s ++ earlier)).
    rewrite H, E, app_assoc. reflexivity.
  - intros E. unfold getLatestMessage. rewrite H, E, app_nil_r. reflexivity.
Qed.

Lemma store_history_grows_witness :
  conversationHistory
    (run [SetSessionId Samples.session_1;
          AddMessage Samples.first_message;
          SetLoading true;
          AddMessage Samples.first_message] initialState)
  = [Samples.first_message; Samples.first_message].
Proof.
  apply (store_history_grows
           [SetSessionId Samples.session_1;
            AddMessage Samples.first_message;
            SetLoading true;
            AddMessage Samples.first_message] initialState).
  reflexivity.
Defined.

Lemma dispatch_persisted a s s' :
  partialize s = partialize s' ->
  partialize (dispatch s a) = partialize (dispatch s' a).
Proof.
  intros E. unfold partialize in E. injection E as E1 E2 E3 E4 E5.
  destruct a; unfold partialize; cbn; congruence.
Qed.

Lemma run_persisted actions : forall s s',
  partialize s = partialize s' ->
  partialize (run actions s) = partialize (run actions s').
Proof.
  induction actions as [|a actions IH]; intros s s' E; [exact E|].
  apply IH, dispatch_persisted, E.
Qed.

(** X22. What is kept for [localStorage] never depends on the loading and
    syncing flags: two stores that persist the same stay so under every run
    of actions. A run in which the session is cleared or restored persists
    the same whatever the store held before: nothing of the earlier session
    is left. [clearSession] resets every field, the two flags included;
    [restoreSession] sets the identifier, the history, the specification
    and the completeness to those given, and the time of the last sync to
    the present, and leaves the two flags as they are. *)
Theorem persisted_state_after_reset (actions : list action) (s s' : State) :
  (partialize s = partialize s' ->
   partialize (run actions s) = partialize (run actions s'))
  /\ (existsb replaces_history actions = true ->
      partialize (run actions s) = partialize (run actions s'))
  /\ clearSession s = initialState
  /\ clearSession s
     = {| sessionId := None; conversationHistory := []; specification := None;
          completeness := None; isLoading := false; isSyncing := false;
          lastSyncedAt := None |}
  /\ (forall restored sessionId today,
        isLoading (restoreSession restored sessionId today s) = isLoading s
        /\ isSyncing (restoreSession restored sessionId today s) = isSyncing s
        /\ getMessageCount (restoreSession restored sessionId today s)
           = length (DataModel.conversationHistory restored)
        /\ restoreSession restored sessionId today s
           = {| sessionId := Some sessionId;
                conversationHistory := DataModel.conversationHistory restored;
                specification := Some (DataModel.specification restored);
                completeness := Some (DataModel.completeness restored);
                isLoading := isLoading s;
                isSyncing := isSyncing s;
                lastSyncedAt := Some today |}
        /\ partialize (restoreSession restored sessionId today s)
           = {| persisted_sessionId := Some sessionId;
                persisted_conversationHistory := DataModel.conversationHistory restored;
                persisted_specification := Some (DataModel.specification restored);
                persisted_completeness := Some (DataModel.completeness restored);
                persisted_lastSyncedAt := Some today |})
  /\ (forall state,
        partialize state
        = {| persisted_sessionId := sessionId state;
             persisted_conversationHistory := conversationHistory state;
             persisted_specification := specification state;
             persisted_completeness := completeness state;
             persisted_lastSyncedAt := lastSyncedAt state |}).
Proof.
  split; [apply run_persisted|]. split; [|split; [reflexivity|split; [reflexivity|split]]].
  - revert s s'. induction actions as [|a actions IH]; intros s s' H; [discriminate|].
    cbn [existsb] in H.
    change (run (a :: actions) s) with (run actions (dispatch s a)).
    change (run (a :: actions) s') with (run actions (dispatch s' a)).
    destruct (replaces_history a) eqn:Ha.
    + apply run_persisted. destruct a; try discriminate Ha; reflexivity.
    + apply IH. exact H.
  - intros restored sessionId today. repeat split.
  - reflexivity.
Qed.

Lemma persisted_state_after_reset_witness :
  partialize (run [AddMessage Samples.first_message; ClearSession;
                   SetSessionId Samples.session_1] initialState)
  = partialize (run [AddMessage Samples.first_message; ClearSession;
                     SetSessionId Samples.session_1]
                  (setLoading true (addMessage Samples.first_message initialState))).
Proof.
  destruct (persisted_state_after_reset
              [AddMessage Samples.first_message; ClearSession;
               SetSessionId Samples.session_1]
              initialState
              (setLoading true (addMessage Samples.first_message initialState)))
    as (_ & Hreset & _).
  apply Hreset. reflexivity.
Defined.

End ClientStore.

(* ===================================================================== *)
(** * Properties of the client configuration *)
(* ===================================================================== *)

Section ClientConfiguration.
Import AwsConfig.

Lemma or_else_not_empty value fallback : fallback <> [] -> or_else value fallback <> [].
Proof. intros H. destruct value as [[|c r]|]; cbn; auto; discriminate. Qed.

Lemma or_else_set value fallback : value <> [] -> or_else (Some value) fallback = value.
Proof. destruct value; [contradiction|reflexivity]. Qed.

Lemma split_not_empty sep s : split sep s <> [].
Proof.
  destruct s as [|c s]; cbn; [discriminate|].
  destruct (c =? sep); [discriminate|]. destruct (split sep s); discriminate.
Qed.

Lemma split_without_separator sep s : ~ In sep s -> split sep s = [s].
Proof.
  induction s as [|c s IH]; intros Hno; [reflexivity|]. cbn [split].
  destruct (N.eqb_spec c sep) as [->|Hne]; [exfalso; apply Hno; left; reflexivity|].
  rewrite IH; [reflexivity|]. intros Hin. apply Hno. right. exact Hin.
Qed.

Lemma split_at_separator sep a b :
  exists piece front, split sep (a ++ sep :: b) = (piece :: front) ++ split sep b.
Proof.
  induction a as [|c a (piece & front & IH)]; cbn [app split].
  - rewrite N.eqb_refl. exists [], []. reflexivity.
  - destruct (c =? sep).
    + exists [], (piece :: front). rewrite IH. reflexivity.
    + rewrite IH. exists (c :: piece), front. reflexivity.
Qed.

Lemma last_piece sep a b :
  ~ In sep b -> last (split sep (a ++ sep :: b)) = Some b.
Proof.
  intros Hno. destruct (split_at_separator sep a b) as (piece & front & ->).
  rewrite (split_without_separator _ _ Hno).
  change ((piece :: front) ++ [b]) with ((piece :: front) ++ [b]).
  apply last_snoc.
Qed.

(** X23. The name of the exports bucket is never empty. It is
    [S3_BUCKET_NAME] when that is set and not empty; otherwise what follows
    the last colon of [S3_BUCKET_ARN], the whole value when it has no colon,
    and the built-in name when that piece is empty or the variable is not
    set. A name taken from the ARN or built in has no colon. *)
Theorem exports_bucket_name (env : Env) :
  exports_bucket env <> []
  /\ (forall name, env !! u16 "S3_BUCKET_NAME" = Some name -> name <> [] ->
        exports_bucket env = name)
  /\ (or_else (env !! u16 "S3_BUCKET_NAME") [] = [] ->
      (forall front name,
         env !! u16 "S3_BUCKET_ARN" = Some (front ++ 58 :: name) -> ~ In 58 name ->
         exports_bucket env = or_else (Some name) (u16 "fbuilder-exports-dev-771551874768"))
      /\ (forall arn,
            env !! u16 "S3_BUCKET_ARN" = Some arn -> ~ In 58 arn ->
            exports_bucket env = or_else (Some arn) (u16 "fbuilder-exports-dev-771551874768"))
      /\ (env !! u16 "S3_BUCKET_ARN" = None ->
          exports_bucket env = u16 "fbuilder-exports-dev-771551874768")
      /\ ~ In 58 (exports_bucket env)).
Proof.
  assert (Hdefault : ~ In 58 (u16 "fbuilder-exports-dev-771551874768")).
  { intros Hin. vm_compute in Hin. repeat (destruct Hin as [Hin | Hin]; [discriminate|]).
    exact Hin. }
  split; [|split].
  - unfold exports_bucket. apply or_else_not_empty, or_else_not_empty. discriminate.
  - intros name Hn Hne. unfold exports_bucket. rewrite Hn. apply or_else_set, Hne.
  - intros Hunset. unfold exports_bucket.
    assert (E : forall fallback,
               or_else (env !! u16 "S3_BUCKET_NAME") fallback = fallback).
    { intros fallback. destruct (env !! u16 "S3_BUCKET_NAME") as [[|c r]|];
        [reflexivity|discriminate|reflexivity]. }
    rewrite E. clear E Hunset.
    split; [|split; [|split]].
    + intros front name Ha Hno. rewrite Ha. cbn [mbind option_bind].
      rewrite (last_piece _ _ _ Hno). reflexivity.
    + intros arn Ha Hno. rewrite Ha. cbn [mbind option_bind].
      rewrite (split_without_separator _ _ Hno). reflexivity.
    + intros Ha. rewrite Ha. reflexivity.
    + destruct (env !! u16 "S3_BUCKET_ARN") as [arn|]; [|exact Hdefault].
      cbn [mbind option_bind].
      destruct (last (split 58 arn)) as [[|c r]|] eqn:El; try exact Hdefault.
      cbn [or_else].
      (* the last piece has no colon *)
      assert (Hpieces : forall s piece, In piece (split 58 s) -> ~ In 58 piece).
      { clear. induction s as [|c s IH]; intros piece Hin.
        - destruct Hin as [<- | []]. intros [].
        - cbn [split] in Hin. destruct (N.eqb_spec c 58) as [->|Hne].
          + destruct Hin as [<- | Hin]; [intros []|apply (IH _ Hin)].
          + destruct (split 58 s) as [|p ps] eqn:E.
            * destruct Hin as [<- | []]. intros [H | []]. congruence.
            * destruct Hin as [<- | Hin].
              -- intros [H | H]; [congruence|]. apply (IH p); [left; reflexivity|exact H].
              -- apply (IH piece). right. exact Hin. }
      apply (Hpieces arn). apply last_Some in El as [l' ->].
      apply in_or_app. right. left. reflexivity.
Qed.

Lemma exports_bucket_name_witness :
  exports_bucket {[ u16 "S3_BUCKET_ARN" := u16 "arn:aws:s3:::fbuilder-exports-prod" ]}
  = u16 "fbuilder-exports-prod".
Proof.
  destruct (exports_bucket_name
              {[ u16 "S3_BUCKET_ARN" := u16 "arn:aws:s3:::fbuilder-exports-prod" ]})
    as (_ & _ & Harn); destruct Harn as (Hlast & _); [reflexivity|].
  change (u16 "fbuilder-exports-prod")
    with (or_else (Some (u16 "fbuilder-exports-prod"))
            (u16 "fbuilder-exports-dev-771551874768")).
  apply (Hlast (u16 "arn:aws:s3::")).
  - vm_compute. reflexivity.
  - intros Hin. vm_compute in Hin.
    repeat (destruct Hin as [Hin | Hin]; [discriminate|]). exact Hin.
Defined.

(** X24. Whatever the environment, no client gets an empty region or an
    empty endpoint, and the table name is not empty. The four clients have
    the same region and the same credentials. Endpoints and the test keys
    are set exactly when [USE_LOCALSTACK] is the string [true], for all
    clients at once: without it the endpoint variables are ignored, and the
    credentials are those of the provider chain. *)
Theorem clients_are_configured_alike (env : Env) :
  let clients := [awsConfig env; dynamoDBConfig env; s3Config env; sesConfig env] in
  Forall (fun c => region c = region (baseConfig env) /\ region c <> []) clients
  /\ Forall (fun c => credentials c = credentials (awsConfig env)) clients
  /\ Forall (fun c => forall e, endpoint c = Some e -> e <> []) clients
  /\ (isLocalStack env = true <-> Forall (fun c => endpoint c <> None) clients)
  /\ (isLocalStack env = false <-> Forall (fun c => endpoint c = None) clients)
  /\ credentials (awsConfig env)
     = Some (if isLocalStack env then Keys (u16 "test") (u16 "test")
             else fromNodeProviderChain)
  /\ forcePathStyle (s3Config env) = Some (isLocalStack env)
  /\ sessions_table env <> [].
Proof.
  assert (Hregion : region (baseConfig env) <> []).
  { apply or_else_not_empty, or_else_not_empty. discriminate. }
  assert (Hlocal : localStackEndpoint env <> []).
  { apply or_else_not_empty. discriminate. }
  assert (Hend : forall value e, Some (or_else value (localStackEndpoint env)) = Some e ->
                                 e <> []).
  { intros value e [= <-]. apply or_else_not_empty, Hlocal. }
  unfold awsConfig, dynamoDBConfig, s3Config, sesConfig, awsConfig.
  destruct (isLocalStack env); cbn zeta; cbn [region credentials endpoint forcePathStyle].
  - repeat split; repeat constructor; cbn [region credentials endpoint baseConfig];
      try exact Hregion; try discriminate; try (intros e He; eapply Hend; exact He);
      try (intros e [= <-]; exact Hlocal); try reflexivity.
    + intros H. apply Forall_cons_1 in H as [H _]. discriminate.
    + apply or_else_not_empty. discriminate.
  - repeat split; repeat constructor; cbn [region credentials endpoint baseConfig];
      try exact Hregion; try discriminate; try reflexivity.
    + intros H. apply Forall_cons_1 in H as [H _]. contradiction.
    + apply or_else_not_empty. discriminate.
Qed.

Lemma clients_are_configured_alike_witness :
  Forall (fun c => endpoint c <> None)
    [awsConfig {[ u16 "USE_LOCALSTACK" := u16 "true" ]};
     dynamoDBConfig {[ u16 "USE_LOCALSTACK" := u16 "true" ]};
     s3Config {[ u16 "USE_LOCALSTACK" := u16 "true" ]};
     sesConfig {[ u16 "USE_LOCALSTACK" := u16 "true" ]}].
Proof.
  apply (clients_are_configured_alike {[ u16 "USE_LOCALSTACK" := u16 "true" ]}).
  reflexivity.
Defined.

End ClientConfiguration.
